(** * AI Meeting Summarizer: the recording / transcription / summarization
      controller

    A shallow embedding of the [MeetingSummarizer] React component and of the
    Hugging Face transcription client [transcribeAudio].

    Modelling conventions.
    - A React [useState] cell is a field of [State]; a render of the component
      is a value of [State], and every handler created by that render reads
      the cells it closes over from that value (its closure), while its
      [setX] calls write the current cells of the [World].
    - [useRef] cells, [localStorage], the browser's interval table and a log
      of the calls made to the remote clients are fields of [World]: they are
      shared by all closures.
    - Code that can throw returns an [Outcome]; the handlers run in a small
      state-and-exception monad [M] in which a [throw] keeps the writes made
      before it, as in JavaScript.
    - Remote services and platform primitives (the speech-to-text and LLM
      calls, [MediaRecorder.stop], [FileReader], the clock, [JSON]) are
      fields of [Env], the environment of one handler run.
    - An asynchronous handler is run to completion: the writes of a handler
      are absolute ([setX(v)], never [setX(prev => ...)]), and no other
      handler is interleaved at its [await]s.
    - A text is the sequence of bytes of its UTF-8 encoding. [trim] removes
      the white space of JavaScript in that encoding, [toLowerCase] is
      computed on ASCII text and left to the platform on any other, and
      [utf16_length] counts UTF-16 code units, as [s.length] does. *)

From Stdlib Require Import String Ascii List ZArith Bool Lia.
From Stdlib Require Import DecimalString DecimalZ.
Import ListNotations.
Local Open Scope string_scope.
Local Open Scope Z_scope.

(** ** JavaScript values used by the code *)

(** What a [catch (err)] clause receives: an [Error] with its message, or
    any other thrown value ([err instanceof Error] is false). *)
Inductive Thrown : Type :=
| ErrorObj (message : string)
| NonError.

Inductive Outcome (A : Type) : Type :=
| Returns (a : A)
| Throws (t : Thrown).
Arguments Returns {A} a.
Arguments Throws {A} t.

(** [err instanceof Error ? err.message : fallback] *)
Definition message_or (fallback : string) (t : Thrown) : string :=
  match t with
  | ErrorObj m => m
  | NonError => fallback
  end.

(** The double quote character, for messages that contain one. *)
Definition dq : string := String (ascii_of_nat 34) EmptyString.

(** *** String primitives *)

(** The white space of JavaScript ([WhiteSpace] and [LineTerminator]), by
    the number of bytes of its encoding: TAB, LF, VT, FF, CR and SP on one
    byte; U+00A0 on two; U+1680, U+2000 to U+200A, U+2028, U+2029, U+202F,
    U+205F, U+3000 and U+FEFF on three. *)
Definition is_whitespace (c : ascii) : bool :=
  let n := nat_of_ascii c in
  (Nat.eqb n 32 || (Nat.leb 9 n && Nat.leb n 13))%bool.

Definition is_whitespace2 (c1 c2 : ascii) : bool :=
  (Nat.eqb (nat_of_ascii c1) 194 && Nat.eqb (nat_of_ascii c2) 160)%bool.

Definition is_whitespace3 (c1 c2 c3 : ascii) : bool :=
  let n1 := nat_of_ascii c1 in
  let n2 := nat_of_ascii c2 in
  let n3 := nat_of_ascii c3 in
  ((Nat.eqb n1 225 && Nat.eqb n2 154 && Nat.eqb n3 128)
   || (Nat.eqb n1 226 && Nat.eqb n2 128
       && ((Nat.leb 128 n3 && Nat.leb n3 138)
           || Nat.eqb n3 168 || Nat.eqb n3 169 || Nat.eqb n3 175))
   || (Nat.eqb n1 226 && Nat.eqb n2 129 && Nat.eqb n3 159)
   || (Nat.eqb n1 227 && Nat.eqb n2 128 && Nat.eqb n3 128)
   || (Nat.eqb n1 239 && Nat.eqb n2 187 && Nat.eqb n3 191))%bool.

(** [s] is made of white space only. *)
Fixpoint all_whitespace (s : string) : bool :=
  match s with
  | EmptyString => true
  | String c1 s1 =>
      if is_whitespace c1 then all_whitespace s1
      else match s1 with
           | EmptyString => false
           | String c2 s2 =>
               if is_whitespace2 c1 c2 then all_whitespace s2
               else match s2 with
                    | EmptyString => false
                    | String c3 s3 =>
                        if is_whitespace3 c1 c2 c3 then all_whitespace s3 else false
                    end
           end
  end.

Fixpoint trimStart (s : string) : string :=
  match s with
  | EmptyString => EmptyString
  | String c1 s1 =>
      if is_whitespace c1 then trimStart s1
      else match s1 with
           | EmptyString => s
           | String c2 s2 =>
               if is_whitespace2 c1 c2 then trimStart s2
               else match s2 with
                    | EmptyString => s
                    | String c3 s3 =>
                        if is_whitespace3 c1 c2 c3 then trimStart s3 else s
                    end
           end
  end.

Fixpoint trimEnd (s : string) : string :=
  match s with
  | EmptyString => EmptyString
  | String c s' => if all_whitespace s then EmptyString else String c (trimEnd s')
  end.

(** [s.trim()] *)
Definition trim (s : string) : string := trimEnd (trimStart s).

(** [!s || s.trim() === ''] *)
Definition is_blank (s : string) : bool :=
  match trim s with
  | EmptyString => true
  | _ => false
  end.

(** Truthiness of a string and of a nullable string. *)
Definition truthy (s : string) : bool :=
  match s with
  | EmptyString => false
  | _ => true
  end.

Definition truthy_opt (o : option string) : bool :=
  match o with
  | Some s => truthy s
  | None => false
  end.

Definition lower_char (c : ascii) : ascii :=
  let n := nat_of_ascii c in
  if (Nat.leb 65 n && Nat.leb n 90)%bool then ascii_of_nat (n + 32) else c.

Fixpoint lower_ascii (s : string) : string :=
  match s with
  | EmptyString => EmptyString
  | String c s' => String (lower_char c) (lower_ascii s')
  end.

(** A text of ASCII characters only. *)
Fixpoint is_ascii (s : string) : bool :=
  match s with
  | EmptyString => true
  | String c s' => (Nat.ltb (nat_of_ascii c) 128 && is_ascii s')%bool
  end.

(** [s.toLowerCase()]: on ASCII text the letters A to Z are lowered; on any
    other text the result is that of the case tables of the platform,
    [unicode], of which nothing is assumed. *)
Definition toLowerCase (unicode : string -> string) (s : string) : string :=
  if is_ascii s then lower_ascii s else unicode s.

(** [s.length]: the number of UTF-16 code units. A byte that continues a
    character counts for none, the first byte of a character of four bytes
    for two (a surrogate pair), any other byte for one. *)
Fixpoint utf16_length (s : string) : nat :=
  match s with
  | EmptyString => O
  | String c s' =>
      let n := nat_of_ascii c in
      ((if (Nat.leb 128 n && Nat.leb n 191)%bool then 0
        else if Nat.leb 240 n then 2 else 1) + utf16_length s')%nat
  end.

(** [s.includes(sub)] *)
Fixpoint includes (s sub : string) : bool :=
  (String.prefix sub s ||
   match s with
   | EmptyString => false
   | String _ s' => includes s' sub
   end)%bool.

(** [s.split(',')[1]]: the text between the first and the second comma,
    [None] (undefined) when [s] has no comma. *)
Fixpoint upto_comma (s : string) : string :=
  match s with
  | EmptyString => EmptyString
  | String c s' => if Ascii.eqb c "," then EmptyString else String c (upto_comma s')
  end.

Fixpoint split_comma_1 (s : string) : option string :=
  match s with
  | EmptyString => None
  | String c s' => if Ascii.eqb c "," then Some (upto_comma s') else split_comma_1 s'
  end.

(** [n.toString()] for an integer [n]. *)
Definition toString (n : Z) : string := NilEmpty.string_of_int (Z.to_int n).

(** *** Blobs *)

Record Blob : Type := mkBlob {
  blob_data : list ascii;
  blob_type : string
}.

Definition blob_size (b : Blob) : Z := Z.of_nat (length (blob_data b)).

(** [new Blob(chunks, { type })] *)
Definition new_Blob (chunks : list Blob) (type : string) : Blob :=
  mkBlob (concat (map blob_data chunks)) type.

(** [a || b] on strings *)
Definition or_else (a b : string) : string := if truthy a then a else b.

(** ** Environment of one handler run *)

Record ImportMetaEnv : Type := {
  VITE_GEMINI_API_KEY : option string;
  VITE_HUGGINGFACE_API_KEY : option string;
  VITE_GOOGLE_CLOUD_API_KEY : option string
}.

(** Result of [FileReader.readAsDataURL]: the [error] event, or [loadend]
    with [reader.result]. *)
Inductive FileReaderResult : Type :=
| ReadError
| LoadEnd (result : option string).

(** Response of [hf.automaticSpeechRecognition]: a falsy response, a
    response whose [text] is not a string, or a response with its text. *)
Inductive HfResponse : Type :=
| NoResponse
| TextNotString
| ResponseText (text : string).

(** One completed meeting, as stored in the history ([interface
    MeetingSummary]). *)
Record MeetingSummary : Type := mkMeetingSummary {
  ms_id : string;
  ms_date : string;
  ms_duration : Z;
  ms_summary : string;
  ms_transcript : string
}.

Record Env : Type := {
  meta_env : ImportMetaEnv;
  (** [navigator.mediaDevices && navigator.mediaDevices.getUserMedia] *)
  mediaDevices_supported : bool;
  (** [navigator.mediaDevices.getUserMedia({ audio })] *)
  getUserMedia : Outcome unit;
  (** [MediaRecorder.isTypeSupported] and the type a recorder built without
      a [mimeType] option reports *)
  isTypeSupported : string -> bool;
  default_mimeType : string;
  (** [stop()], [pause()] and [resume()] of the recorder *)
  MediaRecorder_stop : Outcome unit;
  MediaRecorder_pause : Outcome unit;
  MediaRecorder_resume : Outcome unit;
  (** [URL.createObjectURL(blob)] *)
  createObjectURL : Blob -> string;
  (** [reader.readAsDataURL(blob)] *)
  readAsDataURL : Blob -> FileReaderResult;
  (** [hf.automaticSpeechRecognition({ model, data })] *)
  automaticSpeechRecognition : string -> Outcome HfResponse;
  (** [transcribeWithGoogleSpeech], from [lib/googleSpeech] *)
  transcribeWithGoogleSpeech : Blob -> Outcome string;
  (** [summarizeMeeting], from [lib/gemini] *)
  summarizeMeeting : string -> Outcome string;
  (** [String.prototype.toLowerCase] on a text that is not ASCII *)
  String_toLowerCase : string -> string;
  (** the clock read by [Date.now()] and the one read by [new Date()],
      in milliseconds *)
  Date_now : Z;
  new_Date : Z;
  toISOString : Z -> string;
  JSON_stringify : list MeetingSummary -> string;
  (** [JSON.parse]; [None] is a [SyntaxError] *)
  JSON_parse : string -> option (list MeetingSummary)
}.

(** ** The Hugging Face transcription client ([lib/huggingface]) *)

Module Huggingface.

Definition msg_no_audio : string :=
  "No audio data was recorded. Please try again.".
Definition msg_too_short : string :=
  "Audio recording is too short. Please record for a longer duration.".
Definition msg_key_not_set : string :=
  "Hugging Face API key is not set. Please add your API key to the .env file.".
Definition msg_invalid_response : string :=
  "Invalid response from Hugging Face API".
Definition msg_no_speech : string :=
  "No speech detected in the recording. Please try again with clearer audio.".
Definition msg_fallback : string :=
  "Failed to transcribe audio. Please try again with a different recording.".

(** [getHfClient]: throws when the key is missing; the client it returns is
    represented by [automaticSpeechRecognition] of the environment. *)
Definition getHfClient (env : Env) : Outcome unit :=
  if truthy_opt (VITE_HUGGINGFACE_API_KEY (meta_env env))
  then Returns tt
  else Throws (ErrorObj msg_key_not_set).

(** [blobToBase64]: the promise resolves with the part of the data URL after
    its first comma, and rejects with an [Error] otherwise. *)
Definition blobToBase64 (env : Env) (blob : Blob) : Outcome string :=
  match readAsDataURL env blob with
  | ReadError => Throws (ErrorObj "Error reading audio file")
  | LoadEnd result =>
      if truthy_opt result then
        match result with
        | Some base64String =>
            match split_comma_1 base64String with
            | Some base64Data =>
                if truthy base64Data then Returns base64Data
                else Throws (ErrorObj "Failed to extract base64 data from audio file")
            | None => Throws (ErrorObj "Failed to extract base64 data from audio file")
            end
        | None => Throws (ErrorObj "Failed to read audio file")
        end
      else Throws (ErrorObj "Failed to read audio file")
  end.

(** The [try] block of [transcribeAudio]. *)
Definition transcribeAudio_try (env : Env) (audioBlob : Blob) : Outcome string :=
  if blob_size audioBlob =? 0 then Throws (ErrorObj msg_no_audio)
  else if blob_size audioBlob <? 1000 then Throws (ErrorObj msg_too_short)
  else
    match blobToBase64 env audioBlob with
    | Throws t => Throws t
    | Returns base64Audio =>
        match getHfClient env with
        | Throws t => Throws t
        | Returns _ =>
            match automaticSpeechRecognition env base64Audio with
            | Throws t => Throws t
            | Returns NoResponse => Throws (ErrorObj msg_invalid_response)
            | Returns TextNotString => Throws (ErrorObj msg_invalid_response)
            | Returns (ResponseText text) =>
                match trim text with
                | EmptyString => Returns msg_no_speech
                | _ => Returns text
                end
            end
        end
    end.

(** The chain of [errorMessage.includes(..)] tests of the [catch] block: the
    message that is re-thrown, if any test succeeds. *)
Definition recognized (errorMessage : string) : option string :=
  if (includes errorMessage "api key" || includes errorMessage "apikey")%bool then
    Some "Missing or invalid Hugging Face API key. Please check your .env file."
  else if (includes errorMessage "429" || includes errorMessage "too many requests")%bool then
    Some "Too many requests to Hugging Face API. Please try again later."
  else if (includes errorMessage "413" || includes errorMessage "too large")%bool then
    Some "Audio file is too large. Please record a shorter audio clip (maximum 30 seconds recommended)."
  else if (includes errorMessage "400" || includes errorMessage "invalid format")%bool then
    Some "Invalid audio format. The model may not support this audio format."
  else if (includes errorMessage "404" || includes errorMessage "not found")%bool then
    Some "Model not found. The specified model may not be available."
  else if (includes errorMessage "401" || includes errorMessage "unauthorized")%bool then
    Some "Unauthorized. Your Hugging Face API key may be invalid."
  else if (includes errorMessage "network" || includes errorMessage "connection")%bool then
    Some "Network error when connecting to Hugging Face API. Please check your internet connection."
  else if includes errorMessage "timeout" then
    Some "Request to Hugging Face API timed out. The audio might be too long or the service is busy."
  else None.

(** The [catch (error)] block of [transcribeAudio]. *)
Definition transcribeAudio_catch (env : Env) (error : Thrown) : Outcome string :=
  match error with
  | ErrorObj message =>
      match recognized (toLowerCase (String_toLowerCase env) message) with
      | Some specific => Throws (ErrorObj specific)
      | None => Returns ("Transcription failed: " ++ message)
      end
  | NonError => Returns msg_fallback
  end.

Definition transcribeAudio (env : Env) (audioBlob : Blob) : Outcome string :=
  match transcribeAudio_try env audioBlob with
  | Returns text => Returns text
  | Throws error => transcribeAudio_catch env error
  end.

End Huggingface.

(** ** The component's state *)

Inductive SpeechService : Type := huggingface | google.

Definition SpeechService_eqb (a b : SpeechService) : bool :=
  match a, b with
  | huggingface, huggingface | google, google => true
  | _, _ => false
  end.

Record ApiStatus : Type := {
  api_gemini : bool;
  api_huggingface : bool;
  api_googleSpeech : bool
}.

(** The [useState] cells of [MeetingSummarizer] that its handlers read or
    write (the cells that only drive the view, [isEmailDialogOpen],
    [interimTranscript] and [showSettings], are left out). A value of this
    type is also what one render's closures see. A [Date] is its time in
    milliseconds; [startTime_ref] tells the [Date] objects that [startTime]
    held apart, numbered in the order in which they were stored. *)
Record State : Type := mkState {
  isRecording : bool;
  isPaused : bool;
  transcript : string;
  loading : bool;
  transcribing : bool;
  summary : option string;
  error : option string;
  startTime : option Z;
  startTime_ref : nat;
  duration : Z;
  summaryHistory : list MeetingSummary;
  audioURL : option string;
  audioSupported : bool;
  apiStatus : ApiStatus;
  speechService : SpeechService
}.

Inductive RecorderState : Type := inactive | recording | paused.

Definition RecorderState_eqb (a b : RecorderState) : bool :=
  match a, b with
  | inactive, inactive | recording, recording | paused, paused => true
  | _, _ => false
  end.

(** The [MediaRecorder] held by [mediaRecorderRef], with the liveness of the
    tracks of its stream (the microphone). *)
Record MediaRecorder : Type := mkMediaRecorder {
  rec_state : RecorderState;
  mimeType : string;
  tracks_live : bool
}.

(** Calls made to the remote clients, in order. *)
Inductive Call : Type :=
| CallTranscribeAudio (audioBlob : Blob)
| CallTranscribeWithGoogleSpeech (audioBlob : Blob)
| CallSummarizeMeeting (text : string).

Definition is_transcription (c : Call) : bool :=
  match c with
  | CallSummarizeMeeting _ => false
  | _ => true
  end.

Definition is_summarization (c : Call) : bool :=
  match c with
  | CallSummarizeMeeting _ => true
  | _ => false
  end.

(** Everything the handlers share: the current cells, the refs, the
    intervals the browser holds (identifier and the render whose effect
    created the callback), the persisted history entry and the call log. *)
Record World : Type := mkWorld {
  state : State;
  mediaRecorderRef : option MediaRecorder;
  audioChunksRef : list Blob;
  durationIntervalRef : option nat;
  intervals : list (nat * State);
  next_interval : nat;
  localStorage : option string;
  calls : list Call
}.

Definition with_state (f : State -> State) (w : World) : World :=
  mkWorld (f (state w)) (mediaRecorderRef w) (audioChunksRef w)
    (durationIntervalRef w) (intervals w) (next_interval w) (localStorage w)
    (calls w).

Definition with_mediaRecorderRef (r : option MediaRecorder) (w : World) : World :=
  mkWorld (state w) r (audioChunksRef w) (durationIntervalRef w) (intervals w)
    (next_interval w) (localStorage w) (calls w).

Definition with_audioChunksRef (c : list Blob) (w : World) : World :=
  mkWorld (state w) (mediaRecorderRef w) c (durationIntervalRef w) (intervals w)
    (next_interval w) (localStorage w) (calls w).

Definition with_localStorage (v : option string) (w : World) : World :=
  mkWorld (state w) (mediaRecorderRef w) (audioChunksRef w)
    (durationIntervalRef w) (intervals w) (next_interval w) v (calls w).

Definition with_call (c : Call) (w : World) : World :=
  mkWorld (state w) (mediaRecorderRef w) (audioChunksRef w)
    (durationIntervalRef w) (intervals w) (next_interval w) (localStorage w)
    (calls w ++ [c]).

Definition with_intervals (ref : option nat) (l : list (nat * State)) (n : nat)
    (w : World) : World :=
  mkWorld (state w) (mediaRecorderRef w) (audioChunksRef w) ref l n
    (localStorage w) (calls w).

(** *** Writes to the cells *)

Definition set_isRecording (v : bool) (s : State) : State :=
  mkState v (isPaused s) (transcript s) (loading s) (transcribing s) (summary s)
    (error s) (startTime s) (startTime_ref s) (duration s) (summaryHistory s) (audioURL s)
    (audioSupported s) (apiStatus s) (speechService s).

Definition set_isPaused (v : bool) (s : State) : State :=
  mkState (isRecording s) v (transcript s) (loading s) (transcribing s) (summary s)
    (error s) (startTime s) (startTime_ref s) (duration s) (summaryHistory s) (audioURL s)
    (audioSupported s) (apiStatus s) (speechService s).

Definition set_transcript (v : string) (s : State) : State :=
  mkState (isRecording s) (isPaused s) v (loading s) (transcribing s) (summary s)
    (error s) (startTime s) (startTime_ref s) (duration s) (summaryHistory s) (audioURL s)
    (audioSupported s) (apiStatus s) (speechService s).

Definition set_loading (v : bool) (s : State) : State :=
  mkState (isRecording s) (isPaused s) (transcript s) v (transcribing s) (summary s)
    (error s) (startTime s) (startTime_ref s) (duration s) (summaryHistory s) (audioURL s)
    (audioSupported s) (apiStatus s) (speechService s).

Definition set_transcribing (v : bool) (s : State) : State :=
  mkState (isRecording s) (isPaused s) (transcript s) (loading s) v (summary s)
    (error s) (startTime s) (startTime_ref s) (duration s) (summaryHistory s) (audioURL s)
    (audioSupported s) (apiStatus s) (speechService s).

Definition set_summary (v : option string) (s : State) : State :=
  mkState (isRecording s) (isPaused s) (transcript s) (loading s) (transcribing s) v
    (error s) (startTime s) (startTime_ref s) (duration s) (summaryHistory s) (audioURL s)
    (audioSupported s) (apiStatus s) (speechService s).

Definition set_error (v : option string) (s : State) : State :=
  mkState (isRecording s) (isPaused s) (transcript s) (loading s) (transcribing s)
    (summary s) v (startTime s) (startTime_ref s) (duration s) (summaryHistory s) (audioURL s)
    (audioSupported s) (apiStatus s) (speechService s).

(** [setStartTime(v)]: the source passes [null] or [new Date()], an object
    that did not exist before. *)
Definition set_startTime (v : option Z) (s : State) : State :=
  mkState (isRecording s) (isPaused s) (transcript s) (loading s) (transcribing s)
    (summary s) (error s) v
    (match v with
     | Some _ => S (startTime_ref s)
     | None => startTime_ref s
     end)
    (duration s) (summaryHistory s) (audioURL s)
    (audioSupported s) (apiStatus s) (speechService s).

Definition set_duration (v : Z) (s : State) : State :=
  mkState (isRecording s) (isPaused s) (transcript s) (loading s) (transcribing s)
    (summary s) (error s) (startTime s) (startTime_ref s) v (summaryHistory s)
    (audioURL s)
    (audioSupported s) (apiStatus s) (speechService s).

Definition set_summaryHistory (v : list MeetingSummary) (s : State) : State :=
  mkState (isRecording s) (isPaused s) (transcript s) (loading s) (transcribing s)
    (summary s) (error s) (startTime s) (startTime_ref s) (duration s) v (audioURL s)
    (audioSupported s) (apiStatus s) (speechService s).

Definition set_audioURL (v : option string) (s : State) : State :=
  mkState (isRecording s) (isPaused s) (transcript s) (loading s) (transcribing s)
    (summary s) (error s) (startTime s) (startTime_ref s) (duration s) (summaryHistory s) v
    (audioSupported s) (apiStatus s) (speechService s).

Definition set_audioSupported (v : bool) (s : State) : State :=
  mkState (isRecording s) (isPaused s) (transcript s) (loading s) (transcribing s)
    (summary s) (error s) (startTime s) (startTime_ref s) (duration s)
    (summaryHistory s) (audioURL s)
    v (apiStatus s) (speechService s).

Definition set_speechService (v : SpeechService) (s : State) : State :=
  mkState (isRecording s) (isPaused s) (transcript s) (loading s) (transcribing s)
    (summary s) (error s) (startTime s) (startTime_ref s) (duration s)
    (summaryHistory s) (audioURL s)
    (audioSupported s) (apiStatus s) v.

(** ** The handler monad: shared state and JavaScript exceptions *)

Definition M (W A : Type) : Type := W -> Outcome A * W.

Definition ret {W A : Type} (a : A) : M W A := fun w => (Returns a, w).

Definition bind {W A B : Type} (m : M W A) (k : A -> M W B) : M W B :=
  fun w =>
    match m w with
    | (Returns a, w') => k a w'
    | (Throws t, w') => (Throws t, w')
    end.

Definition throw {W A : Type} (message : string) : M W A :=
  fun w => (Throws (ErrorObj message), w).

(** [try { m } catch (err) { handler err }] *)
Definition try_catch {W A : Type} (m : M W A) (handler : Thrown -> M W A) : M W A :=
  fun w =>
    match m w with
    | (Returns a, w') => (Returns a, w')
    | (Throws t, w') => handler t w'
    end.

(** [try { m } finally { f }] *)
Definition try_finally {W A : Type} (m : M W A) (f : M W unit) : M W A :=
  fun w =>
    match m w with
    | (r, w') =>
        match f w' with
        | (Returns _, w'') => (r, w'')
        | (Throws t, w'') => (Throws t, w'')
        end
    end.

(** The result of an awaited call: its value, or its rejection thrown. *)
Definition await {W A : Type} (o : Outcome A) : M W A := fun w => (o, w).

Definition modify {W : Type} (f : W -> W) : M W unit := fun w => (Returns tt, f w).

Definition read {W A : Type} (f : W -> A) : M W A := fun w => (Returns (f w), w).

(** The world a handler leaves behind. *)
Definition exec {W A : Type} (m : M W A) (w : W) : W := snd (m w).

Declare Scope js_scope.
Delimit Scope js_scope with js.
Notation "x <- m ;; k" := (bind m (fun x => k))
  (at level 61, m at next level, right associativity) : js_scope.
Notation "m ;; k" := (bind m (fun _ => k))
  (at level 61, right associativity) : js_scope.
Local Open Scope js_scope.

Definition setIsRecording (v : bool) : M World unit := modify (with_state (set_isRecording v)).
Definition setIsPaused (v : bool) : M World unit := modify (with_state (set_isPaused v)).
Definition setTranscript (v : string) : M World unit := modify (with_state (set_transcript v)).
Definition setLoading (v : bool) : M World unit := modify (with_state (set_loading v)).
Definition setTranscribing (v : bool) : M World unit := modify (with_state (set_transcribing v)).
Definition setSummary (v : option string) : M World unit := modify (with_state (set_summary v)).
Definition setError (v : option string) : M World unit := modify (with_state (set_error v)).
Definition setStartTime (v : option Z) : M World unit := modify (with_state (set_startTime v)).
Definition setDuration (v : Z) : M World unit := modify (with_state (set_duration v)).
Definition setSummaryHistory (v : list MeetingSummary) : M World unit :=
  modify (with_state (set_summaryHistory v)).
Definition setAudioURL (v : option string) : M World unit := modify (with_state (set_audioURL v)).
Definition setAudioSupported (v : bool) : M World unit := modify (with_state (set_audioSupported v)).
Definition setSpeechService (v : SpeechService) : M World unit :=
  modify (with_state (set_speechService v)).

(** [localStorage.setItem('meetingSummaryHistory', v)] *)
Definition localStorage_setItem (v : string) : M World unit :=
  modify (with_localStorage (Some v)).

(** The three remote clients; each call is logged. *)
Definition call_transcribeAudio (env : Env) (audioBlob : Blob) : M World string :=
  modify (with_call (CallTranscribeAudio audioBlob)) ;;
  await (Huggingface.transcribeAudio env audioBlob).

Definition call_transcribeWithGoogleSpeech (env : Env) (audioBlob : Blob) : M World string :=
  modify (with_call (CallTranscribeWithGoogleSpeech audioBlob)) ;;
  await (transcribeWithGoogleSpeech env audioBlob).

Definition call_summarizeMeeting (env : Env) (text : string) : M World string :=
  modify (with_call (CallSummarizeMeeting text)) ;;
  await (summarizeMeeting env text).

(** ** The controller ([MeetingSummarizer], current version) *)

Definition maxRecordingDuration : Z := 1000.

Definition sample_option : string := dq ++ "Test with Sample Text" ++ dq ++ " option.".

Definition msg_no_audio_recorded : string :=
  "No audio data was recorded. Please try again or use the " ++ sample_option.
Definition msg_recording_too_short : string :=
  "Audio recording is too short or empty. Please try again or use the " ++ sample_option.
Definition msg_hf_key_not_set : string :=
  "Hugging Face API key is not set. Please add your API key to the .env file or switch to Google Cloud Speech.".
Definition msg_google_key_not_set : string :=
  "Google Cloud API key is not set. Please add your API key to the .env file or switch to Hugging Face.".
Definition msg_no_transcription : string :=
  "No transcription was returned. The audio might be too quiet or in an unsupported language.".
Definition msg_gemini_key_not_set : string :=
  "Google Gemini API key is not set. Please add your API key to the .env file.".
Definition msg_gemini_key_missing : string :=
  "Google Gemini API key is missing. Please check your .env file.".
Definition msg_not_supported : string :=
  "Audio recording is not supported in this browser. Try using Chrome or Firefox.".
Definition sampleText : string :=
  "This is a test meeting transcript. We discussed the project timeline and agreed to complete the first phase by next Friday. John will handle the design work, and Sarah will take care of the backend implementation. We also decided to use React for the frontend and Node.js for the backend. The team will meet again next Monday to review progress.".

(** The [MeetingSummary] built after a successful summarization. *)
Definition newSummary (env : Env) (duration : Z) (meetingSummary transcript : string)
    : MeetingSummary :=
  {| ms_id := toString (Date_now env);
     ms_date := toISOString env (new_Date env);
     ms_duration := duration;
     ms_summary := meetingSummary;
     ms_transcript := transcript |}.

(** The inner [try]/[catch] shared by [stopRecording] and
    [testWithSampleText]: summarize, build the record, prepend it to the
    history the closure captured, store the list ([localStorage.setItem] is
    taken to succeed). *)
Definition summarize_and_store (env : Env) (history : list MeetingSummary)
    (duration : Z) (text : string) : M World unit :=
  try_catch
    (meetingSummary <- call_summarizeMeeting env text ;;
     setSummary (Some meetingSummary) ;;
     let updatedHistory := newSummary env duration meetingSummary text :: history in
     setSummaryHistory updatedHistory ;;
     localStorage_setItem (JSON_stringify env updatedHistory))
    (fun summaryError =>
       setError (Some (message_or "Failed to generate summary" summaryError))).

(** [mediaRecorderRef.current?.mimeType || 'audio/webm'] *)
Definition recorder_type (r : option MediaRecorder) : string :=
  match r with
  | Some r => or_else (mimeType r) "audio/webm"
  | None => "audio/webm"
  end.

(** The selected transcription client, behind its key check. *)
Definition transcribe_selected (env : Env) (service : SpeechService) (audioBlob : Blob)
    : M World string :=
  match service with
  | huggingface =>
      if negb (truthy_opt (VITE_HUGGINGFACE_API_KEY (meta_env env)))
      then throw msg_hf_key_not_set
      else call_transcribeAudio env audioBlob
  | google =>
      if negb (truthy_opt (VITE_GOOGLE_CLOUD_API_KEY (meta_env env)))
      then throw msg_google_key_not_set
      else call_transcribeWithGoogleSpeech env audioBlob
  end.

(** The value [transcribe_selected] produces, and the audio artifact
    [stopRecording] builds from the chunks buffered in a world. *)
Definition selected_client (env : Env) (service : SpeechService) (audioBlob : Blob)
    : Outcome string :=
  match service with
  | huggingface =>
      if negb (truthy_opt (VITE_HUGGINGFACE_API_KEY (meta_env env)))
      then Throws (ErrorObj msg_hf_key_not_set)
      else Huggingface.transcribeAudio env audioBlob
  | google =>
      if negb (truthy_opt (VITE_GOOGLE_CLOUD_API_KEY (meta_env env)))
      then Throws (ErrorObj msg_google_key_not_set)
      else transcribeWithGoogleSpeech env audioBlob
  end.

Definition artifact (w : World) : Blob :=
  new_Blob (audioChunksRef w) (recorder_type (mediaRecorderRef w)).

(** The outer [try] block of [stopRecording]. *)
Definition process_audio (env : Env) (render : State) : M World unit :=
  chunks <- read audioChunksRef ;;
  recorder <- read mediaRecorderRef ;;
  let audioBlob := new_Blob chunks (recorder_type recorder) in
  if blob_size audioBlob <? 1000 then throw msg_recording_too_short
  else
    transcribedText <- transcribe_selected env (speechService render) audioBlob ;;
    if is_blank transcribedText then throw msg_no_transcription
    else
      setTranscript transcribedText ;;
      if negb (truthy_opt (VITE_GEMINI_API_KEY (meta_env env)))
      then throw msg_gemini_key_not_set
      else
        setLoading true ;;
        summarize_and_store env (summaryHistory render) (duration render)
          transcribedText.

(** [mediaRecorderRef.current.stop()] followed by stopping the tracks of the
    stream. *)
Definition recorder_stop (env : Env) (r : MediaRecorder) : M World unit :=
  await (MediaRecorder_stop env) ;;
  modify (with_mediaRecorderRef (Some (mkMediaRecorder inactive (mimeType r) false))).

(** What [stopRecording] does once the recorder has stopped: lines from
    [if (audioChunksRef.current.length > 0)] on. *)
Definition process_recording (env : Env) (render : State) : M World unit :=
  chunks <- read audioChunksRef ;;
  if (0 <? length chunks)%nat then
    setTranscribing true ;;
    setError None ;;
    try_finally
      (try_catch (process_audio env render)
         (fun err => setError (Some (message_or "Failed to process audio" err))))
      (setTranscribing false ;; setLoading false)
  else setError (Some msg_no_audio_recorded).

(** [stopRecording], as created by the render [render]. The first [try]
    yields [false] where the source returns from its [catch]. *)
Definition stopRecording (env : Env) (render : State) : M World unit :=
  recorder <- read mediaRecorderRef ;;
  match recorder with
  | None => ret tt
  | Some r =>
      if RecorderState_eqb (rec_state r) inactive then ret tt
      else
        stopped <- try_catch
          (recorder_stop env r ;;
           setIsRecording false ;;
           setIsPaused false ;;
           ret true)
          (fun err =>
             setError (Some (message_or "Failed to stop recording" err)) ;;
             setIsRecording false ;;
             setIsPaused false ;;
             ret false) ;;
        if negb stopped then ret tt
        else process_recording env render
  end.

(** [testWithSampleText] *)
Definition testWithSampleText (env : Env) (render : State) : M World unit :=
  setTranscribing true ;;
  setError None ;;
  try_finally
    (try_catch
       (if negb (api_gemini (apiStatus render)) then throw msg_gemini_key_missing
        else
          setTranscript sampleText ;;
          setLoading true ;;
          summarize_and_store env (summaryHistory render) 300 sampleText)
       (fun err => setError (Some (message_or "Failed to process sample text" err))))
    (setTranscribing false ;; setLoading false).

(** The [mimeType] chosen by [startRecording]. *)
Definition chosen_mimeType (env : Env) : string :=
  if isTypeSupported env "audio/webm" then "audio/webm"
  else if isTypeSupported env "audio/mp4" then "audio/mp4"
  else if isTypeSupported env "audio/ogg" then "audio/ogg"
  else default_mimeType env.

(** [startRecording]; the [startTime] it stores is the clock of [new Date()]. *)
Definition startRecording (env : Env) (render : State) : M World unit :=
  try_catch
    (setError None ;;
     (if (SpeechService_eqb (speechService render) huggingface
          && negb (api_huggingface (apiStatus render)))%bool
      then throw "Hugging Face API key is missing. Please check your .env file or switch to Google Cloud Speech."
      else if (SpeechService_eqb (speechService render) google
               && negb (api_googleSpeech (apiStatus render)))%bool
      then throw "Google Cloud API key is missing. Please check your .env file or switch to Hugging Face."
      else ret tt) ;;
     (if negb (api_gemini (apiStatus render)) then throw msg_gemini_key_missing
      else ret tt) ;;
     (if negb (mediaDevices_supported env) then throw msg_not_supported else ret tt) ;;
     await (getUserMedia env) ;;
     modify (with_audioChunksRef []) ;;
     modify (with_mediaRecorderRef
               (Some (mkMediaRecorder recording (chosen_mimeType env) true))) ;;
     setIsRecording true ;;
     setStartTime (Some (new_Date env)))
    (fun err =>
       setError (Some (message_or "Failed to start recording" err)) ;;
       setAudioSupported false).

(** [pauseRecording] and [resumeRecording] *)
Definition pauseRecording (env : Env) : M World unit :=
  recorder <- read mediaRecorderRef ;;
  match recorder with
  | Some r =>
      if RecorderState_eqb (rec_state r) recording then
        try_catch
          (await (MediaRecorder_pause env) ;;
           modify (with_mediaRecorderRef
                     (Some (mkMediaRecorder paused (mimeType r) (tracks_live r)))) ;;
           setIsPaused true)
          (fun err => setError (Some (message_or "Failed to pause recording" err)))
      else ret tt
  | None => ret tt
  end.

Definition resumeRecording (env : Env) : M World unit :=
  recorder <- read mediaRecorderRef ;;
  match recorder with
  | Some r =>
      if RecorderState_eqb (rec_state r) paused then
        try_catch
          (await (MediaRecorder_resume env) ;;
           modify (with_mediaRecorderRef
                     (Some (mkMediaRecorder recording (mimeType r) (tracks_live r)))) ;;
           setIsPaused false)
          (fun err => setError (Some (message_or "Failed to resume recording" err)))
      else ret tt
  | None => ret tt
  end.

(** [mediaRecorder.ondataavailable] and [mediaRecorder.onstop] *)
Definition ondataavailable (data : option Blob) : M World unit :=
  match data with
  | Some b =>
      if 0 <? blob_size b
      then chunks <- read audioChunksRef ;; modify (with_audioChunksRef (chunks ++ [b]))
      else ret tt
  | None => ret tt
  end.

Definition onstop (env : Env) : M World unit :=
  try_catch
    (chunks <- read audioChunksRef ;;
     if (length chunks =? 0)%nat then throw "No audio data was recorded. Please try again."
     else
       recorder <- read mediaRecorderRef ;;
       let audioBlob := new_Blob chunks (recorder_type recorder) in
       if blob_size audioBlob <? 1000
       then throw "Audio recording is too short or empty. Please try again."
       else setAudioURL (Some (createObjectURL env audioBlob)))
    (fun err => setError (Some (message_or "Failed to process recorded audio" err))).

(** *** Effects and the render cycle *)

Definition set_apiStatus (v : ApiStatus) (s : State) : State :=
  mkState (isRecording s) (isPaused s) (transcript s) (loading s) (transcribing s)
    (summary s) (error s) (startTime s) (startTime_ref s) (duration s)
    (summaryHistory s) (audioURL s)
    (audioSupported s) v (speechService s).

(** The first mount effect: capability and key checks. *)
Definition check_effect (env : Env) : M World unit :=
  (if negb (mediaDevices_supported env)
   then setAudioSupported false ;; setError (Some msg_not_supported)
   else ret tt) ;;
  let geminiKey := truthy_opt (VITE_GEMINI_API_KEY (meta_env env)) in
  let huggingfaceKey := truthy_opt (VITE_HUGGINGFACE_API_KEY (meta_env env)) in
  let googleCloudKey := truthy_opt (VITE_GOOGLE_CLOUD_API_KEY (meta_env env)) in
  modify (with_state (set_apiStatus
    {| api_gemini := geminiKey;
       api_huggingface := huggingfaceKey;
       api_googleSpeech := googleCloudKey |})) ;;
  (if googleCloudKey then setSpeechService google
   else if huggingfaceKey then setSpeechService huggingface
   else ret tt) ;;
  if negb geminiKey then setError (Some msg_gemini_key_missing)
  else if (negb huggingfaceKey && negb googleCloudKey)%bool
  then setError (Some "No speech-to-text API keys are available. Please add either Hugging Face or Google Cloud API key to the .env file.")
  else ret tt.

(** The second mount effect: load the persisted history. [JSON.parse] throws
    on malformed text; nothing in the effect catches it. *)
Definition load_effect (env : Env) : M World unit :=
  history <- read localStorage ;;
  if truthy_opt history then
    match history with
    | Some text =>
        match JSON_parse env text with
        | Some records => setSummaryHistory records
        | None => throw "SyntaxError"
        end
    | None => ret tt
    end
  else ret tt.

(** [window.setInterval(callback, 1000)], the callback being the one a given
    render creates, and [clearInterval]. *)
Definition setInterval (render : State) : M World unit :=
  modify (fun w =>
    with_intervals (Some (next_interval w))
      ((next_interval w, render) :: intervals w) (S (next_interval w)) w).

Definition clearInterval (id : nat) : M World unit :=
  modify (fun w =>
    with_intervals (durationIntervalRef w)
      (filter (fun e => negb (Nat.eqb (fst e) id)) (intervals w))
      (next_interval w) w).

Definition clear_duration_interval : M World unit :=
  ref <- read durationIntervalRef ;;
  match ref with
  | Some id => clearInterval id
  | None => ret tt
  end.

(** The effect on [[startTime, isPaused]] and its cleanup. *)
Definition watchdog_effect (render : State) : M World unit :=
  match startTime render with
  | Some _ =>
      if negb (isPaused render) then setInterval render
      else clear_duration_interval
  | None => clear_duration_interval
  end.

Definition watchdog_cleanup : M World unit := clear_duration_interval.

(** The callback of the interval created by [render], run at clock [now]. *)
Definition watchdog_callback (env : Env) (render : State) (now : Z) : M World unit :=
  match startTime render with
  | Some start =>
      let diff := (now - start) / 1000 in
      setDuration diff ;;
      if maxRecordingDuration <=? diff then stopRecording env render else ret tt
  | None => ret tt
  end.

(** The dependencies [[startTime, isPaused]] differ between two renders.
    React compares them with [Object.is]: two [Date]s are the same when they
    are the same object (which then holds the same time), whatever the
    clock reading of another. *)
Definition deps_changed (prev cur : State) : bool :=
  negb (match startTime prev, startTime cur with
        | Some a, Some b =>
            Nat.eqb (startTime_ref prev) (startTime_ref cur) && (a =? b)
        | None, None => true
        | _, _ => false
        end
        && Bool.eqb (isPaused prev) (isPaused cur))%bool.

(** After a handler: React renders the new cells and re-runs the watchdog
    effect when one of its dependencies changed. *)
Definition rerender (prev : State) : M World unit :=
  cur <- read state ;;
  if deps_changed prev cur then watchdog_cleanup ;; watchdog_effect cur
  else ret tt.

(** *** Mounting and events *)

(** The effects run after the first render, in the order of the source. The
    first render sees the initial cells. *)
Definition mount (env : Env) : M World unit :=
  render <- read state ;;
  check_effect env ;;
  load_effect env ;;
  watchdog_effect render.

Inductive Event : Type :=
| ClickStart
| ClickPause
| ClickResume
| ClickStop
| ClickTestWithSampleText
| SelectService (service : SpeechService)
| DataAvailable (data : option Blob)
| RecorderStop
| IntervalFires (id : nat) (now : Z).

Fixpoint find_interval (id : nat) (l : list (nat * State)) : option State :=
  match l with
  | [] => None
  | (i, render) :: l' => if Nat.eqb i id then Some render else find_interval id l'
  end.

(** What happens once the component is mounted. A click runs the handler of
    the current render; an interval runs the callback of the render that
    created it, if it is still registered. *)
Definition handle (env : Env) (ev : Event) : M World unit :=
  render <- read state ;;
  match ev with
  | ClickStart => startRecording env render
  | ClickPause => pauseRecording env
  | ClickResume => resumeRecording env
  | ClickStop => stopRecording env render
  | ClickTestWithSampleText => testWithSampleText env render
  | SelectService service => setSpeechService service
  | DataAvailable data => ondataavailable data
  | RecorderStop => onstop env
  | IntervalFires id now =>
      timers <- read intervals ;;
      match find_interval id timers with
      | Some created_by => watchdog_callback env created_by now
      | None => ret tt
      end
  end.

Definition step (env : Env) (ev : Event) (w : World) : World :=
  exec (handle env ev ;; rerender (state w)) w.

Fixpoint run (trace : list (Env * Event)) (w : World) : World :=
  match trace with
  | [] => w
  | (env, ev) :: trace' => run trace' (step env ev w)
  end.

(** The user calling [stop()]: the handler of the current render. *)
Definition stop (env : Env) (w : World) : World :=
  exec (stopRecording env (state w)) w.

Definition initial_state : State :=
  {| isRecording := false; isPaused := false; transcript := EmptyString;
     loading := false; transcribing := false; summary := None; error := None;
     startTime := None; startTime_ref := 0; duration := 0; summaryHistory := []; audioURL := None;
     audioSupported := true;
     apiStatus := {| api_gemini := true; api_huggingface := true;
                     api_googleSpeech := false |};
     speechService := huggingface |}.

(** The world before the component mounts, over a given persisted entry,
    and the world once it is mounted. *)
Definition initial_world (stored : option string) : World :=
  {| state := initial_state; mediaRecorderRef := None; audioChunksRef := [];
     durationIntervalRef := None; intervals := []; next_interval := 1;
     localStorage := stored; calls := [] |}.

Definition mounted (env : Env) (stored : option string) : World :=
  exec (mount env) (initial_world stored).

(** ** The earlier version of the component (browser speech recognition)

    The earlier [MeetingSummarizer] fills [transcript] from the browser's
    speech recognizer while recording, and its [stopRecording] summarizes
    the transcript its closure captured. Its cells are among those of
    [State] (it has no [transcribing], [audioSupported], [apiStatus] or
    [speechService], which it never touches); its world adds
    [recognitionRef]. *)

Module Legacy.

Record SpeechRecognition : Type := mkSpeechRecognition { listening : bool }.

Record LWorld : Type := mkLWorld {
  world : World;
  recognitionRef : option SpeechRecognition
}.

Definition lift {A : Type} (m : M World A) : M LWorld A :=
  fun lw =>
    match m (world lw) with
    | (r, w') => (r, mkLWorld w' (recognitionRef lw))
    end.

Definition with_recognitionRef (r : option SpeechRecognition) (lw : LWorld) : LWorld :=
  mkLWorld (world lw) r.

Definition stopRecording (env : Env) (render : State) : M LWorld unit :=
  recognition <- read recognitionRef ;;
  (match recognition with
   | Some _ => modify (with_recognitionRef (Some (mkSpeechRecognition false)))
   | None => ret tt
   end) ;;
  recorder <- lift (read mediaRecorderRef) ;;
  (match recorder with
   | Some r =>
       if negb (RecorderState_eqb (rec_state r) inactive)
       then lift (recorder_stop env r)
       else ret tt
   | None => ret tt
   end) ;;
  lift (setIsRecording false) ;;
  lift (setIsPaused false) ;;
  lift (setStartTime None) ;;
  if truthy (trim (transcript render)) then
    lift (setLoading true) ;;
    try_finally
      (try_catch
         (meetingSummary <- lift (call_summarizeMeeting env (transcript render)) ;;
          lift (setSummary (Some meetingSummary)) ;;
          let updatedHistory :=
            newSummary env (duration render) meetingSummary (transcript render)
              :: summaryHistory render in
          lift (setSummaryHistory updatedHistory) ;;
          lift (localStorage_setItem (JSON_stringify env updatedHistory)))
         (fun err =>
            lift (setError (Some (message_or "Failed to generate summary" err)))))
      (lift (setLoading false))
  else ret tt.

(** The user calling [stop()] in the earlier version. *)
Definition stop (env : Env) (lw : LWorld) : LWorld :=
  exec (stopRecording env (state (world lw))) lw.

(** The places of the earlier version that call [stopRecording]: the Stop
    button, which is rendered while [isRecording] only; [handleSignOut],
    which calls it when [isRecording]; and the cleanup of the mount effect,
    which calls the [stopRecording] of the first render. *)
Inductive Caller : Type :=
| StopButton
| SignOut
| Cleanup.

Definition stop_called_by (env : Env) (caller : Caller) : M LWorld unit :=
  render <- lift (read state) ;;
  match caller with
  | StopButton => if isRecording render then stopRecording env render else ret tt
  | SignOut => if isRecording render then stopRecording env render else ret tt
  | Cleanup => stopRecording env initial_state
  end.

(** No session is active: the flags are down, no start time is held, and
    neither the recorder nor the recognizer runs. *)
Definition no_session (lw : LWorld) : Prop :=
  isRecording (state (world lw)) = false /\
  isPaused (state (world lw)) = false /\
  startTime (state (world lw)) = None /\
  (mediaRecorderRef (world lw) = None \/
   exists r, mediaRecorderRef (world lw) = Some r /\ rec_state r = inactive) /\
  (recognitionRef lw = None \/
   recognitionRef lw = Some (mkSpeechRecognition false)).

End Legacy.

(** ** Worlds along a run of [stopRecording]

    Names for the writes each stage of [stopRecording] makes, so that the
    result of a run can be written down. *)

(** After [recorder.stop()] returned and the two flags were lowered. *)
Definition stopped (r : MediaRecorder) (w : World) : World :=
  with_state (set_isPaused false)
    (with_state (set_isRecording false)
       (with_mediaRecorderRef (Some (mkMediaRecorder inactive (mimeType r) false)) w)).

(** After [recorder.stop()] threw [t]. *)
Definition stop_failed (t : Thrown) (w : World) : World :=
  with_state (set_isPaused false)
    (with_state (set_isRecording false)
       (with_state (set_error (Some (message_or "Failed to stop recording" t))) w)).

(** [setTranscribing(true); setError(null)] and the [finally] block. *)
Definition begun (w : World) : World :=
  with_state (set_error None) (with_state (set_transcribing true) w).

Definition finished (w : World) : World :=
  with_state (set_loading false) (with_state (set_transcribing false) w).

(** A [catch] that stores the message of what was thrown. *)
Definition caught (fallback : string) (o : Outcome unit) (w : World) : World :=
  match o with
  | Returns _ => w
  | Throws t => with_state (set_error (Some (message_or fallback t))) w
  end.

(** The log after the selected client was called (it is not called when its
    key is missing). *)
Definition log_transcription (env : Env) (service : SpeechService) (b : Blob)
    (w : World) : World :=
  match service with
  | huggingface =>
      if negb (truthy_opt (VITE_HUGGINGFACE_API_KEY (meta_env env))) then w
      else with_call (CallTranscribeAudio b) w
  | google =>
      if negb (truthy_opt (VITE_GOOGLE_CLOUD_API_KEY (meta_env env))) then w
      else with_call (CallTranscribeWithGoogleSpeech b) w
  end.

Definition transcribed (env : Env) (render : State) (w : World) : World :=
  log_transcription env (speechService render) (artifact w) w.

(** After a successful [summarizeMeeting]. *)
Definition summarized (env : Env) (history : list MeetingSummary) (duration : Z)
    (text meetingSummary : string) (w : World) : World :=
  let updatedHistory := newSummary env duration meetingSummary text :: history in
  with_localStorage (Some (JSON_stringify env updatedHistory))
    (with_state (set_summaryHistory updatedHistory)
       (with_state (set_summary (Some meetingSummary))
          (with_call (CallSummarizeMeeting text) w))).

(** ** Vocabulary of the specification *)

(** The controller is idle: not recording, not paused, and no transcription
    or summarization in progress. *)
Definition Idle (s : State) : Prop :=
  isRecording s = false /\ isPaused s = false /\
  transcribing s = false /\ loading s = false.

(** No transcription or summarization is pending. *)
Definition settled (w : World) : Prop :=
  transcribing (state w) = false /\ loading (state w) = false.

(** A handler keeps a property of the world, however it ends. *)
Definition preserves {A : Type} (P : World -> Prop) (m : M World A) : Prop :=
  forall w, P w -> P (snd (m w)).

(** A handler returns normally from every world: no error escapes it. *)
Definition returns {A : Type} (m : M World A) : Prop :=
  forall w, exists a, fst (m w) = Returns a.

(** The intervals the browser holds are those the watchdog effect keeps for
    a render with the cells [s]: one interval, the one [durationIntervalRef]
    names, created by a render with the same start time, when a start time
    is held and the recording is not paused; none otherwise. *)
Definition registered_for (s : State) (w : World) : Prop :=
  match startTime s with
  | Some start =>
      if isPaused s then intervals w = []
      else exists id render,
             durationIntervalRef w = Some id /\
             intervals w = [(id, render)] /\
             startTime render = Some start
  | None => intervals w = []
  end.

Definition watchdog_registered (w : World) : Prop := registered_for (state w) w.

(** A recording session is active when the recorder exists and is not
    [inactive]. *)
Definition session_active (w : World) : Prop :=
  exists r, mediaRecorderRef w = Some r /\ rec_state r <> inactive.

Definition no_session (w : World) : Prop :=
  mediaRecorderRef w = None \/
  exists r, mediaRecorderRef w = Some r /\ rec_state r = inactive.

(** The summarization calls logged so far. *)
Definition summarizations (w : World) : list Call :=
  filter is_summarization (calls w).

(** The two messages [stopRecording] uses for a recording with no or too
    little audio. *)
Definition is_empty_recording_message (m : string) : Prop :=
  m = msg_no_audio_recorded \/ m = msg_recording_too_short.

(** What a failed transcription step must leave behind: the controller idle
    with a message in the error slot, the audio artifact kept (the chunks
    and the playback URL), and no summarization call made. *)
Definition transcription_failure_outcome (w w' : World) : Prop :=
  Idle (state w') /\
  error (state w') <> None /\
  audioURL (state w') = audioURL (state w) /\
  audioChunksRef w' = audioChunksRef w /\
  summarizations w' = summarizations w.

(** The selected client fails towards the controller: it throws, or the
    text it returns is blank. *)
Definition client_fails (o : Outcome string) : Prop :=
  match o with
  | Throws _ => True
  | Returns text => is_blank text = true
  end.

(** The message [stopRecording] stores for such a failure. *)
Definition transcription_error (o : Outcome string) : option string :=
  match o with
  | Throws t => Some (message_or "Failed to process audio" t)
  | Returns text => if is_blank text then Some msg_no_transcription else None
  end.

(** The speech-to-text service behind [transcribeAudio] answers the request
    for [audioBlob] with a text that is blank. *)
Definition hf_empty_result (env : Env) (audioBlob : Blob) : Prop :=
  exists base64Audio text,
    Huggingface.blobToBase64 env audioBlob = Returns base64Audio /\
    automaticSpeechRecognition env base64Audio = Returns (ResponseText text) /\
    trim text = EmptyString.

(** The error slot after the summarization step was reached with [text]:
    nothing comes from the transcription step. *)
Definition summarization_error (env : Env) (text : string) : option string :=
  if negb (truthy_opt (VITE_GEMINI_API_KEY (meta_env env)))
  then Some msg_gemini_key_not_set
  else
    match summarizeMeeting env text with
    | Returns _ => None
    | Throws t => Some (message_or "Failed to generate summary" t)
    end.

(** The empty result is shown as the sentence [msg_no_speech] in place of a
    transcript, and the audio artifact is kept. *)
Definition no_speech_outcome (w w' : World) : Prop :=
  transcript (state w') = Huggingface.msg_no_speech /\
  audioURL (state w') = audioURL (state w) /\
  audioChunksRef w' = audioChunksRef w.

(** A failure inside [transcribeAudio] that none of its patterns
    recognizes, and the text returned for it. *)
Definition unrecognized (env : Env) (t : Thrown) : Prop :=
  match t with
  | ErrorObj message =>
      Huggingface.recognized (toLowerCase (String_toLowerCase env) message) = None
  | NonError => True
  end.

Definition failure_text (t : Thrown) : string :=
  match t with
  | ErrorObj message => "Transcription failed: " ++ message
  | NonError => Huggingface.msg_fallback
  end.

(** A persisted entry that is missing, empty, or parses to no record. *)
Definition empty_or_missing (env : Env) (stored : option string) : Prop :=
  match stored with
  | None => True
  | Some text => text = EmptyString \/ JSON_parse env text = Some []
  end.

(** ** Further code of the component *)

(** Unmounting runs the cleanups of the effects. That of the mount effect
    clears the interval and calls the [stopRecording] of the first render,
    whose cells are the initial ones; that of the watchdog effect clears the
    interval. *)
Definition unmount (env : Env) : M World unit :=
  clear_duration_interval ;;
  stopRecording env initial_state ;;
  watchdog_cleanup.

(** The [disabled] attribute of the Start button. *)
Definition start_disabled (render : State) : bool :=
  (negb (audioSupported render)
   || negb (api_gemini (apiStatus render))
   || (SpeechService_eqb (speechService render) huggingface
       && negb (api_huggingface (apiStatus render)))
   || (SpeechService_eqb (speechService render) google
       && negb (api_googleSpeech (apiStatus render))))%bool.

(** The checks of [startRecording] all pass: the key of the selected
    service and the Gemini key are there for the render, the browser can
    capture audio, and the microphone is granted. *)
Definition start_allowed (env : Env) (render : State) : bool :=
  (negb (SpeechService_eqb (speechService render) huggingface
         && negb (api_huggingface (apiStatus render)))
   && negb (SpeechService_eqb (speechService render) google
            && negb (api_googleSpeech (apiStatus render)))
   && api_gemini (apiStatus render)
   && mediaDevices_supported env
   && match getUserMedia env with
      | Returns _ => true
      | Throws _ => false
      end)%bool.

(** The key of a service is in the environment. *)
Definition service_key (env : Env) (service : SpeechService) : bool :=
  match service with
  | huggingface => truthy_opt (VITE_HUGGINGFACE_API_KEY (meta_env env))
  | google => truthy_opt (VITE_GOOGLE_CLOUD_API_KEY (meta_env env))
  end.

(** [s.padStart(2, '0')] *)
Definition padStart2 (s : string) : string :=
  match String.length s with
  | O => "00" ++ s
  | S O => "0" ++ s
  | _ => s
  end.

(** [formatDuration]: hours, minutes and seconds, each padded to two
    digits. [%] is the remainder of JavaScript, [Z.rem]. *)
Definition formatDuration (seconds : Z) : string :=
  let hours := seconds / 3600 in
  let minutes := Z.rem seconds 3600 / 60 in
  let remainingSeconds := Z.rem seconds 60 in
  padStart2 (toString hours) ++ ":" ++ padStart2 (toString minutes) ++ ":"
    ++ padStart2 (toString remainingSeconds).

(** Reading a decimal text back (zero for a text that is no number), and
    the texts that hold no colon: what the proofs about [formatDuration]
    take the displayed text apart with. *)
Definition decode_number (s : string) : Z :=
  match NilEmpty.int_of_string s with
  | Some i => Z.of_int i
  | None => 0
  end.

Fixpoint no_colon (s : string) : bool :=
  match s with
  | EmptyString => true
  | String c s' => (negb (Ascii.eqb c ":") && no_colon s')%bool
  end.

(** The texts that hold no comma. *)
Fixpoint no_comma (s : string) : bool :=
  match s with
  | EmptyString => true
  | String c s' => (negb (Ascii.eqb c ",") && no_comma s')%bool
  end.

(** A remote call the guards of the controller allow: a transcription of
    at least 1000 bytes of audio, a summarization of a text that is not
    blank. *)
Definition guarded_call (c : Call) : Prop :=
  match c with
  | CallTranscribeAudio audioBlob => 1000 <= blob_size audioBlob
  | CallTranscribeWithGoogleSpeech audioBlob => 1000 <= blob_size audioBlob
  | CallSummarizeMeeting text => is_blank text = false
  end.

(** The events that deliver the given chunks, in order. *)
Definition deliver (env : Env) (chunks : list Blob) : list (Env * Event) :=
  map (fun b => (env, DataAvailable (Some b))) chunks.

Definition nonempty_blob (b : Blob) : bool := 0 <? blob_size b.

(** * The e-mail dialog ([src/components/EmailDialog.tsx]) *)

Module EmailDialog.

(** *** Regular expressions

    The pattern of [handleSubmit] is a value of this type, and
    [RegExp.prototype.test] on a pattern anchored at both ends is matching
    by derivatives. The pattern is matched byte by byte, which is the
    matching of the source on ASCII text: [\s] is the white space of ASCII
    here. *)
Inductive RegExp : Type :=
| Never
| Empty
| Class (p : ascii -> bool)
| Seq (r1 r2 : RegExp)
| Or (r1 r2 : RegExp)
| Star (r : RegExp).

(** [r+] and a literal character. *)
Definition Plus (r : RegExp) : RegExp := Seq r (Star r).
Definition Char (c : ascii) : RegExp := Class (Ascii.eqb c).

Fixpoint nullable (r : RegExp) : bool :=
  match r with
  | Never => false
  | Empty => true
  | Class _ => false
  | Seq r1 r2 => nullable r1 && nullable r2
  | Or r1 r2 => nullable r1 || nullable r2
  | Star _ => true
  end.

Fixpoint derivative (c : ascii) (r : RegExp) : RegExp :=
  match r with
  | Never => Never
  | Empty => Never
  | Class p => if p c then Empty else Never
  | Seq r1 r2 =>
      if nullable r1 then Or (Seq (derivative c r1) r2) (derivative c r2)
      else Seq (derivative c r1) r2
  | Or r1 r2 => Or (derivative c r1) (derivative c r2)
  | Star r' => Seq (derivative c r') (Star r')
  end.

(** [/^r$/.test(s)] *)
Fixpoint test (r : RegExp) (s : string) : bool :=
  match s with
  | EmptyString => nullable r
  | String c s' => test (derivative c r) s'
  end.

(** [[^\s@]] *)
Definition not_space_or_at (c : ascii) : bool :=
  negb (is_whitespace c || Ascii.eqb c "@").

(** [/^[^\s@]+@[^\s@]+\.[^\s@]+$/] *)
Definition email_pattern : RegExp :=
  Seq (Plus (Class not_space_or_at))
   (Seq (Char "@")
     (Seq (Plus (Class not_space_or_at))
       (Seq (Char ".") (Plus (Class not_space_or_at))))).

(** [s.split(',')]: never an empty array, the empty text gives one empty
    entry. *)
Fixpoint split_comma (s : string) : list string :=
  match s with
  | EmptyString => [EmptyString]
  | String c s' =>
      if Ascii.eqb c "," then EmptyString :: split_comma s'
      else match split_comma s' with
           | entry :: entries => String c entry :: entries
           | [] => [String c EmptyString]
           end
  end.

(** [l.join(',')] *)
Fixpoint join_comma (l : list string) : string :=
  match l with
  | [] => EmptyString
  | entry :: entries =>
      match entries with
      | [] => entry
      | _ => entry ++ "," ++ join_comma entries
      end
  end.

Record Props : Type := mkProps {
  summary : string;
  date : string;
  duration : Z
}.

(** The cells of the dialog, [isOpen] that the parent owns and passes in,
    and the address the window was sent to, if any. *)
Record Dialog : Type := mkDialog {
  isOpen : bool;
  emails : string;
  error : string;
  href : option string
}.

(** What the browser provides. *)
Record Platform : Type := {
  toLocaleString : string -> string;
  encodeURIComponent : string -> string
}.

Definition setEmails (v : string) : M Dialog unit :=
  modify (fun d => mkDialog (isOpen d) v (error d) (href d)).

Definition setError (v : string) : M Dialog unit :=
  modify (fun d => mkDialog (isOpen d) (emails d) v (href d)).

(** [window.location.href = link] *)
Definition set_href (link : string) : M Dialog unit :=
  modify (fun d => mkDialog (isOpen d) (emails d) (error d) (Some link)).

(** [onClose] is [() => setIsEmailDialogOpen(false)] of the parent, and the
    button of the parent opens the dialog. *)
Definition onClose : M Dialog unit :=
  modify (fun d => mkDialog false (emails d) (error d) (href d)).

Definition open : M Dialog unit :=
  modify (fun d => mkDialog true (emails d) (error d) (href d)).

Definition msg_invalid : string :=
  "Please enter valid email addresses separated by commas".

Definition nl : string := String (ascii_of_nat 10) EmptyString.

Definition mail_body (formattedDate formattedDuration summary : string) : string :=
  trim (nl ++ "Meeting Summary" ++ nl
        ++ "Date: " ++ formattedDate ++ nl
        ++ "Duration: " ++ formattedDuration ++ nl
        ++ nl
        ++ summary ++ nl
        ++ "    ").

(** What follows the recipients in the link. *)
Definition mail_query (p : Platform) (props : Props) : string :=
  let formattedDate := toLocaleString p (date props) in
  let formattedDuration := toString (duration props / 60) ++ " minutes" in
  let subject := "Meeting Summary - " ++ formattedDate in
  let body := mail_body formattedDate formattedDuration (summary props) in
  "?subject=" ++ encodeURIComponent p subject
    ++ "&body=" ++ encodeURIComponent p body.

Definition mailtoLink (p : Platform) (props : Props) (emailList : list string) : string :=
  "mailto:" ++ join_comma emailList ++ mail_query p props.

Definition handleSubmit (p : Platform) (props : Props) (render : Dialog) : M Dialog unit :=
  let emailList := map trim (split_comma (emails render)) in
  let validEmails := forallb (test email_pattern) emailList in
  if negb validEmails then
    setError msg_invalid
  else
    set_href (mailtoLink p props emailList) ;;
    onClose.

(** The form is rendered only while the dialog is open: its events reach
    no handler of a closed dialog. *)
Inductive Event : Type :=
| Open
| Change (value : string)
| Submit
| Cancel.

Definition handle (p : Platform) (props : Props) (ev : Event) : M Dialog unit :=
  render <- read (fun d => d) ;;
  match ev with
  | Open => open
  | Change value => if isOpen render then setEmails value else ret tt
  | Submit => if isOpen render then handleSubmit p props render else ret tt
  | Cancel => if isOpen render then onClose else ret tt
  end.

Definition step (p : Platform) (props : Props) (ev : Event) (d : Dialog) : Dialog :=
  exec (handle p props ev) d.

Fixpoint run (p : Platform) (trace : list (Props * Event)) (d : Dialog) : Dialog :=
  match trace with
  | [] => d
  | (props, ev) :: trace' => run p trace' (step p props ev d)
  end.

Definition initial : Dialog := mkDialog false EmptyString EmptyString None.

End EmailDialog.

(** * The sign-in form ([src/components/Auth.tsx]) *)

Module Auth.

Inductive Mode : Type := signin | signup.

Record Form : Type := mkForm {
  email : string;
  password : string;
  loading : bool;
  error : option string;
  mode : Mode;
  message : option string
}.

(** The requests sent to the provider, oldest first. *)
Inductive Request : Type :=
| SignInWithPassword (email password : string)
| SignUp (email password : string).

Record Page : Type := mkPage {
  form : Form;
  requests : list Request
}.

(** The answers of the provider to the requests of one handler run:
    [signInWithPassword] resolves with the message of [error], or [None] for
    [null]; [signUp] resolves with that and whether [data.session] is there.
    Either may reject. *)
Record Supabase : Type := {
  signInWithPassword : string -> string -> Outcome (option string);
  signUp : string -> string -> Outcome (option string * bool)
}.

Definition with_form (f : Form -> Form) : M Page unit :=
  modify (fun pg => mkPage (f (form pg)) (requests pg)).

Definition setEmail (v : string) : M Page unit :=
  with_form (fun s => mkForm v (password s) (loading s) (error s) (mode s) (message s)).
Definition setPassword (v : string) : M Page unit :=
  with_form (fun s => mkForm (email s) v (loading s) (error s) (mode s) (message s)).
Definition setLoading (v : bool) : M Page unit :=
  with_form (fun s => mkForm (email s) (password s) v (error s) (mode s) (message s)).
Definition setError (v : option string) : M Page unit :=
  with_form (fun s => mkForm (email s) (password s) (loading s) v (mode s) (message s)).
Definition setMode (v : Mode) : M Page unit :=
  with_form (fun s => mkForm (email s) (password s) (loading s) (error s) v (message s)).
Definition setMessage (v : option string) : M Page unit :=
  with_form (fun s => mkForm (email s) (password s) (loading s) (error s) (mode s) v).

Definition call_signInWithPassword (supabase : Supabase) (email password : string)
  : M Page (option string) :=
  modify (fun pg => mkPage (form pg)
                      (requests pg ++ [SignInWithPassword email password])%list) ;;
  await (signInWithPassword supabase email password).

Definition call_signUp (supabase : Supabase) (email password : string)
  : M Page (option string * bool) :=
  modify (fun pg => mkPage (form pg) (requests pg ++ [SignUp email password])%list) ;;
  await (signUp supabase email password).

Definition validatePassword (password : string) : option string :=
  if (utf16_length password <? 6)%nat
  then Some "Password must be at least 6 characters long"
  else None.

Definition handleSignIn (supabase : Supabase) (render : Form) : M Page unit :=
  setLoading true ;;
  setError None ;;
  setMessage None ;;
  match validatePassword (password render) with
  | Some passwordError =>
      setError (Some passwordError) ;;
      setLoading false
  | None =>
      error <- call_signInWithPassword supabase (email render) (password render) ;;
      match error with
      | Some error_message =>
          if String.eqb error_message "Invalid login credentials" then
            setError (Some "Invalid email or password. Please try again or create a new account.")
          else if String.eqb error_message "Email not confirmed" then
            answer <- call_signUp supabase (email render) (password render) ;;
            match fst answer with
            | Some signUpError => setError (Some signUpError)
            | None => ret tt
            end
          else
            setError (Some error_message)
      | None => ret tt
      end ;;
      setLoading false
  end.

Definition handleSignUp (supabase : Supabase) (render : Form) : M Page unit :=
  setLoading true ;;
  setError None ;;
  setMessage None ;;
  match validatePassword (password render) with
  | Some passwordError =>
      setError (Some passwordError) ;;
      setLoading false
  | None =>
      answer <- call_signUp supabase (email render) (password render) ;;
      match fst answer with
      | Some error_message =>
          if String.eqb error_message "User already registered" then
            setError (Some "An account with this email already exists. Please sign in instead.")
          else
            setError (Some error_message)
      | None =>
          if negb (snd answer) then
            signInError <- call_signInWithPassword supabase (email render) (password render) ;;
            match signInError with
            | Some signIn_message => setError (Some signIn_message)
            | None => ret tt
            end
          else ret tt
      end ;;
      setLoading false
  end.

(** The two tabs, the two inputs and the button, which is disabled while
    [loading] and runs the handler of the selected mode. *)
Inductive Event : Type :=
| SelectMode (m : Mode)
| ChangeEmail (value : string)
| ChangePassword (value : string)
| ClickSubmit.

Definition handle (supabase : Supabase) (ev : Event) : M Page unit :=
  render <- read form ;;
  match ev with
  | SelectMode m => setMode m ;; setError None ;; setMessage None
  | ChangeEmail value => setEmail value
  | ChangePassword value => setPassword value
  | ClickSubmit =>
      if loading render then ret tt
      else match mode render with
           | signin => handleSignIn supabase render
           | signup => handleSignUp supabase render
           end
  end.

Definition step (supabase : Supabase) (ev : Event) (pg : Page) : Page :=
  exec (handle supabase ev) pg.

Fixpoint run (trace : list (Supabase * Event)) (pg : Page) : Page :=
  match trace with
  | [] => pg
  | (supabase, ev) :: trace' => run trace' (step supabase ev pg)
  end.

Definition initial : Page :=
  mkPage (mkForm EmptyString EmptyString false None signin None) [].

End Auth.

(** The form after a password was refused by the form itself. *)
Definition refused_locally (pg : Auth.Page) : Auth.Page :=
  Auth.mkPage
    (Auth.mkForm (Auth.email (Auth.form pg)) (Auth.password (Auth.form pg)) false
       (Some "Password must be at least 6 characters long")
       (Auth.mode (Auth.form pg)) None)
    (Auth.requests pg).

(** The requests of one handler run: none, one, or one of each kind, all
    with the credentials of the render. *)
Definition one_run_of_requests (render : Auth.Form) (sent : list Auth.Request) : Prop :=
  let signIn := Auth.SignInWithPassword (Auth.email render) (Auth.password render) in
  let signUp := Auth.SignUp (Auth.email render) (Auth.password render) in
  sent = [] \/ sent = [signIn] \/ sent = [signUp] \/
  sent = [signIn; signUp] \/ sent = [signUp; signIn].

(** The language of a pattern, the texts all of whose characters are in a
    class, and a part of an address: not empty, without white space and
    without at sign. *)
Inductive Matches : EmailDialog.RegExp -> string -> Prop :=
| MEmpty : Matches EmailDialog.Empty EmptyString
| MClass p c : p c = true -> Matches (EmailDialog.Class p) (String c EmptyString)
| MSeq r1 r2 s1 s2 :
    Matches r1 s1 -> Matches r2 s2 -> Matches (EmailDialog.Seq r1 r2) (s1 ++ s2)
| MOrL r1 r2 s : Matches r1 s -> Matches (EmailDialog.Or r1 r2) s
| MOrR r1 r2 s : Matches r2 s -> Matches (EmailDialog.Or r1 r2) s
| MStar0 r : Matches (EmailDialog.Star r) EmptyString
| MStarS r s1 s2 :
    Matches r s1 -> Matches (EmailDialog.Star r) s2 ->
    Matches (EmailDialog.Star r) (s1 ++ s2).

Fixpoint all_chars (p : ascii -> bool) (s : string) : bool :=
  match s with
  | EmptyString => true
  | String c s' => (p c && all_chars p s')%bool
  end.

Definition address_part (s : string) : Prop :=
  s <> EmptyString /\ all_chars EmailDialog.not_space_or_at s = true.

(** ** Concrete environments and worlds *)

Module Fixture.

Definition chunk (n : nat) : Blob := mkBlob (repeat "a"%char n) "audio/webm".

Definition keys : ImportMetaEnv :=
  {| VITE_GEMINI_API_KEY := Some "g-key";
     VITE_HUGGINGFACE_API_KEY := Some "hf-key";
     VITE_GOOGLE_CLOUD_API_KEY := Some "gc-key" |}.

(** A stand-in for [JSON.stringify]: the ids, durations, transcripts and
    summaries of the records, in order. *)
Definition show (l : list MeetingSummary) : string :=
  "[" ++ String.concat ","
           (map (fun m => ms_id m ++ ":" ++ toString (ms_duration m) ++ ":"
                            ++ ms_transcript m ++ ":" ++ ms_summary m) l)
      ++ "]".

Definition parse (text : string) : option (list MeetingSummary) :=
  if String.eqb text "[]" then Some [] else None.

(** An environment given the behaviour of the two transcription services,
    of the summarizer and the clock. *)
Definition env_with (asr : Outcome HfResponse) (googleSpeech : Outcome string)
    (summarize : string -> Outcome string) (now : Z) : Env :=
  {| meta_env := keys;
     mediaDevices_supported := true;
     getUserMedia := Returns tt;
     isTypeSupported := fun t => String.eqb t "audio/webm";
     default_mimeType := "audio/webm";
     MediaRecorder_stop := Returns tt;
     MediaRecorder_pause := Returns tt;
     MediaRecorder_resume := Returns tt;
     createObjectURL := fun _ => "blob:recording";
     readAsDataURL := fun _ => LoadEnd (Some "data:audio/webm;base64,YWFh");
     automaticSpeechRecognition := fun _ => asr;
     transcribeWithGoogleSpeech := fun _ => googleSpeech;
     String_toLowerCase := fun text => text;
     summarizeMeeting := summarize;
     Date_now := now;
     new_Date := now;
     toISOString := fun t => toString t;
     JSON_stringify := show;
     JSON_parse := parse |}.

Definition summary_ok (text : string) : Outcome string :=
  Returns ("Team discussed " ++ text ++ ".").

Definition summary_fails (text : string) : Outcome string :=
  Throws (ErrorObj "Failed to generate summary. Please try again.").

(** The scenario of the specification: both services hear [hello world]. *)
Definition env_ok (now : Z) : Env :=
  env_with (Returns (ResponseText "hello world")) (Returns "hello world")
    summary_ok now.

Definition env_summary_fails (now : Z) : Env :=
  env_with (Returns (ResponseText "hello world")) (Returns "hello world")
    summary_fails now.

(** The speech-to-text service answers with an empty text. *)
Definition env_silence (now : Z) : Env :=
  env_with (Returns (ResponseText EmptyString)) (Returns EmptyString)
    summary_ok now.

(** The speech-to-text call is rate limited, resp. fails to fetch. *)
Definition env_rate_limited (now : Z) : Env :=
  env_with (Throws (ErrorObj "429 Too Many Requests"))
    (Throws (ErrorObj "429 Too Many Requests")) summary_ok now.

Definition env_fetch_fails (now : Z) : Env :=
  env_with (Throws (ErrorObj "Failed to fetch")) (Throws (ErrorObj "Failed to fetch"))
    summary_ok now.

Definition recorder : MediaRecorder := mkMediaRecorder recording "audio/webm" true.

Definition three_chunks : list Blob := [chunk 400; chunk 400; chunk 400].

(** One tick of interval [1] per second, from second [from] on. *)
Fixpoint ticks (env : Z -> Env) (from : Z) (n : nat) : list (Env * Event) :=
  match n with
  | O => []
  | S n' =>
      (env (from * 1000), IntervalFires 1 (from * 1000)) :: ticks env (from + 1) n'
  end.

(** Start at clock 0, three chunks. *)
Definition session_start (env : Z -> Env) : list (Env * Event) :=
  [(env 0, ClickStart);
   (env 1000, DataAvailable (Some (chunk 400)));
   (env 2000, DataAvailable (Some (chunk 400)));
   (env 3000, DataAvailable (Some (chunk 400)))].

(** The world in the middle of a recording: the component mounted over an
    empty storage, the service chosen in the settings, started at clock 0,
    the given chunks delivered, and ticked for [seconds] seconds. *)
Definition recording_world (service : SpeechService) (chunks : list Blob)
    (seconds : nat) : World :=
  run ([(env_ok 0, SelectService service); (env_ok 0, ClickStart)]
         ++ map (fun c => (env_ok 0, DataAvailable (Some c))) chunks
         ++ ticks env_ok 1 seconds)
      (mounted (env_ok 0) None).

(** The earlier version at rest after a meeting whose transcript stayed on
    screen. *)
Definition legacy_idle (shown : string) : Legacy.LWorld :=
  Legacy.mkLWorld
    {| state := set_transcript shown initial_state;
       mediaRecorderRef := Some (mkMediaRecorder inactive "audio/webm" false);
       audioChunksRef := three_chunks;
       durationIntervalRef := None;
       intervals := [];
       next_interval := 1;
       localStorage := None;
       calls := [] |}
    (Some (Legacy.mkSpeechRecognition false)).

(** Two summaries asked for at the same clock reading. *)
Definition env_summary (meetingSummary : string) (now : Z) : Env :=
  env_with (Returns (ResponseText "hello world")) (Returns "hello world")
    (fun _ => Returns meetingSummary) now.

(** A second recording under way after a first meeting was stored: the
    Google service selected, a first recording of three chunks stopped at
    12.5 s, the second started at 60 s with three chunks. *)
Definition second_trace : list (Env * Event) :=
  [(env_ok 0, SelectService google); (env_ok 0, ClickStart)]
    ++ map (fun c => (env_ok 0, DataAvailable (Some c))) three_chunks
    ++ ticks env_ok 1 12
    ++ [(env_ok 12500, ClickStop); (env_ok 12600, RecorderStop);
        (env_ok 60000, ClickStart)]
    ++ map (fun c => (env_ok 61000, DataAvailable (Some c))) three_chunks.

Definition second_recording : World := run second_trace (mounted (env_ok 0) None).

(** The browser refuses the microphone. *)
Definition microphone_refused : Env :=
  {| meta_env := keys;
     mediaDevices_supported := true;
     getUserMedia := Throws (ErrorObj "Permission denied");
     isTypeSupported := fun t => String.eqb t "audio/webm";
     default_mimeType := "audio/webm";
     MediaRecorder_stop := Returns tt;
     MediaRecorder_pause := Returns tt;
     MediaRecorder_resume := Returns tt;
     createObjectURL := fun _ => "blob:recording";
     readAsDataURL := fun _ => LoadEnd (Some "data:audio/webm;base64,YWFh");
     automaticSpeechRecognition := fun _ => Returns (ResponseText "hello world");
     transcribeWithGoogleSpeech := fun _ => Returns "hello world";
     String_toLowerCase := fun text => text;
     summarizeMeeting := summary_ok;
     Date_now := 0;
     new_Date := 0;
     toISOString := fun t => toString t;
     JSON_stringify := show;
     JSON_parse := parse |}.

(** An environment whose [JSON.parse] reads back the one list the scenario
    stores. *)
Definition first_meeting : list MeetingSummary :=
  [mkMeetingSummary "12500" "12500" 12 "Team discussed hello world." "hello world"].

Definition env_reload : Env :=
  {| meta_env := keys;
     mediaDevices_supported := true;
     getUserMedia := Returns tt;
     isTypeSupported := fun t => String.eqb t "audio/webm";
     default_mimeType := "audio/webm";
     MediaRecorder_stop := Returns tt;
     MediaRecorder_pause := Returns tt;
     MediaRecorder_resume := Returns tt;
     createObjectURL := fun _ => "blob:recording";
     readAsDataURL := fun _ => LoadEnd (Some "data:audio/webm;base64,YWFh");
     automaticSpeechRecognition := fun _ => Returns (ResponseText "hello world");
     transcribeWithGoogleSpeech := fun _ => Returns "hello world";
     String_toLowerCase := fun text => text;
     summarizeMeeting := summary_ok;
     Date_now := 0;
     new_Date := 0;
     toISOString := fun t => toString t;
     JSON_stringify := show;
     JSON_parse := fun text =>
       if String.eqb text (show first_meeting) then Some first_meeting else parse text |}.

(** No Hugging Face key in the environment. *)
Definition env_without_hf_key : Env :=
  {| meta_env := {| VITE_GEMINI_API_KEY := Some "g-key";
                    VITE_HUGGINGFACE_API_KEY := None;
                    VITE_GOOGLE_CLOUD_API_KEY := Some "gc-key" |};
     mediaDevices_supported := true;
     getUserMedia := Returns tt;
     isTypeSupported := fun t => String.eqb t "audio/webm";
     default_mimeType := "audio/webm";
     MediaRecorder_stop := Returns tt;
     MediaRecorder_pause := Returns tt;
     MediaRecorder_resume := Returns tt;
     createObjectURL := fun _ => "blob:recording";
     readAsDataURL := fun _ => LoadEnd (Some "data:audio/webm;base64,YWFh");
     automaticSpeechRecognition := fun _ => Returns (ResponseText "hello world");
     transcribeWithGoogleSpeech := fun _ => Returns "hello world";
     String_toLowerCase := fun text => text;
     summarizeMeeting := summary_ok;
     Date_now := 0;
     new_Date := 0;
     toISOString := fun t => toString t;
     JSON_stringify := show;
     JSON_parse := parse |}.

(** The browser of the dialog, a summary to send, and providers that
    accept, reject and do not answer. *)
Definition platform : EmailDialog.Platform :=
  {| EmailDialog.toLocaleString := fun date => date;
     EmailDialog.encodeURIComponent := fun text => text |}.

Definition props : EmailDialog.Props :=
  EmailDialog.mkProps "Budget approved." "2025-01-01" 125.

Definition typed (emails : string) : EmailDialog.Dialog :=
  EmailDialog.mkDialog true emails EmptyString None.

Definition supabase_ok : Auth.Supabase :=
  {| Auth.signInWithPassword := fun _ _ => Returns None;
     Auth.signUp := fun _ _ => Returns (None, true) |}.

Definition supabase_down : Auth.Supabase :=
  {| Auth.signInWithPassword := fun _ _ => Throws (ErrorObj "Failed to fetch");
     Auth.signUp := fun _ _ => Throws (ErrorObj "Failed to fetch") |}.

Definition filled (password : string) : Auth.Page :=
  Auth.mkPage (Auth.mkForm "ann@example.org" password false None Auth.signin None) [].

End Fixture.

(** * Properties *)

(** ** Runs of [stopRecording], stage by stage *)

Lemma active_not_inactive r :
  rec_state r <> inactive -> RecorderState_eqb (rec_state r) inactive = false.
Proof. destruct (rec_state r); simpl; congruence. Qed.

Lemma transcribe_selected_run env service b w :
  transcribe_selected env service b w =
  (selected_client env service b, log_transcription env service b w).
Proof.
  unfold transcribe_selected, selected_client, log_transcription.
  destruct service.
  - destruct (negb (truthy_opt (VITE_HUGGINGFACE_API_KEY (meta_env env)))); [reflexivity|].
    unfold call_transcribeAudio, bind, modify, await. reflexivity.
  - destruct (negb (truthy_opt (VITE_GOOGLE_CLOUD_API_KEY (meta_env env)))); [reflexivity|].
    unfold call_transcribeWithGoogleSpeech, bind, modify, await. reflexivity.
Qed.

(** Logging a transcription call changes the log only, and adds no
    summarization call. *)
Lemma log_transcription_frame env service b w :
  state (log_transcription env service b w) = state w /\
  mediaRecorderRef (log_transcription env service b w) = mediaRecorderRef w /\
  audioChunksRef (log_transcription env service b w) = audioChunksRef w /\
  localStorage (log_transcription env service b w) = localStorage w /\
  filter is_summarization (calls (log_transcription env service b w)) =
    filter is_summarization (calls w).
Proof.
  unfold log_transcription.
  destruct service;
    match goal with |- context [if ?c then _ else _] => destruct c end;
    cbn; rewrite ?filter_app; cbn; rewrite ?app_nil_r; repeat split; reflexivity.
Qed.

Lemma stopRecording_no_session env render w :
  no_session w -> stopRecording env render w = (Returns tt, w).
Proof.
  intros [Hnone | (r & Href & Hstate)];
    unfold stopRecording, bind, read; rewrite ?Hnone, ?Href; [reflexivity|].
  rewrite Hstate. reflexivity.
Qed.

Lemma stopRecording_active env render w r :
  mediaRecorderRef w = Some r ->
  rec_state r <> inactive ->
  MediaRecorder_stop env = Returns tt ->
  stopRecording env render w = process_recording env render (stopped r w).
Proof.
  intros Href Hact Hstop.
  unfold stopRecording, bind at 1, read at 1. rewrite Href.
  rewrite (active_not_inactive r Hact).
  unfold bind at 1, try_catch, recorder_stop.
  unfold bind at 1. unfold bind at 1. unfold await at 1. rewrite Hstop.
  reflexivity.
Qed.

Lemma stopRecording_stop_throws env render w r t :
  mediaRecorderRef w = Some r ->
  rec_state r <> inactive ->
  MediaRecorder_stop env = Throws t ->
  stopRecording env render w = (Returns tt, stop_failed t w).
Proof.
  intros Href Hact Hstop.
  unfold stopRecording, bind at 1, read at 1. rewrite Href.
  rewrite (active_not_inactive r Hact).
  unfold bind at 1, try_catch, recorder_stop.
  unfold bind at 1. unfold bind at 1. unfold await at 1. rewrite Hstop.
  reflexivity.
Qed.

Lemma process_recording_empty env render w :
  audioChunksRef w = [] ->
  process_recording env render w =
  (Returns tt, with_state (set_error (Some msg_no_audio_recorded)) w).
Proof.
  intros Hc. unfold process_recording, bind at 1, read at 1. rewrite Hc. reflexivity.
Qed.

Lemma process_recording_nonempty env render w :
  audioChunksRef w <> [] ->
  process_recording env render w =
  (Returns tt,
   finished (caught "Failed to process audio"
               (fst (process_audio env render (begun w)))
               (snd (process_audio env render (begun w))))).
Proof.
  intros Hne. unfold process_recording, bind at 1, read at 1.
  destruct (audioChunksRef w) as [|c cs] eqn:Hc; [congruence|].
  cbn [length Nat.ltb Nat.leb].
  unfold bind at 1, setTranscribing at 1, modify at 1.
  unfold bind at 1, setError at 1, modify at 1.
  unfold try_finally, try_catch. fold (begun w).
  destruct (process_audio env render (begun w)) as [[[]|t] w1]; reflexivity.
Qed.

Lemma process_audio_short env render w :
  blob_size (artifact w) < 1000 ->
  process_audio env render w = (Throws (ErrorObj msg_recording_too_short), w).
Proof.
  intros H. unfold process_audio, bind at 1, read at 1, bind at 1, read at 1.
  fold (artifact w).
  destruct (Z.ltb_spec (blob_size (artifact w)) 1000); [reflexivity | lia].
Qed.

Lemma summarize_and_store_ok env history d text meetingSummary w :
  summarizeMeeting env text = Returns meetingSummary ->
  summarize_and_store env history d text w =
  (Returns tt, summarized env history d text meetingSummary w).
Proof.
  intros H. unfold summarize_and_store, try_catch, call_summarizeMeeting.
  unfold bind at 1. unfold bind at 1. unfold modify at 1, await. rewrite H.
  reflexivity.
Qed.

Lemma summarize_and_store_fails env history d text t w :
  summarizeMeeting env text = Throws t ->
  summarize_and_store env history d text w =
  (Returns tt,
   with_state (set_error (Some (message_or "Failed to generate summary" t)))
     (with_call (CallSummarizeMeeting text) w)).
Proof.
  intros H. unfold summarize_and_store, try_catch, call_summarizeMeeting.
  unfold bind at 1. unfold bind at 1. unfold modify at 1, await. rewrite H.
  reflexivity.
Qed.

Lemma process_audio_long env render w :
  1000 <= blob_size (artifact w) ->
  process_audio env render w =
  match selected_client env (speechService render) (artifact w) with
  | Throws t => (Throws t, transcribed env render w)
  | Returns text =>
      if is_blank text
      then (Throws (ErrorObj msg_no_transcription), transcribed env render w)
      else if negb (truthy_opt (VITE_GEMINI_API_KEY (meta_env env)))
      then (Throws (ErrorObj msg_gemini_key_not_set),
            with_state (set_transcript text) (transcribed env render w))
      else summarize_and_store env (summaryHistory render) (duration render) text
             (with_state (set_loading true)
                (with_state (set_transcript text) (transcribed env render w)))
  end.
Proof.
  intros H. unfold process_audio, bind at 1, read at 1, bind at 1, read at 1.
  fold (artifact w).
  destruct (Z.ltb_spec (blob_size (artifact w)) 1000); [lia|].
  unfold bind at 1. rewrite transcribe_selected_run. fold (transcribed env render w).
  destruct (selected_client env (speechService render) (artifact w)) as [text|t];
    [|reflexivity].
  destruct (is_blank text); [reflexivity|].
  unfold bind at 1, setTranscript at 1, modify at 1.
  destruct (negb (truthy_opt (VITE_GEMINI_API_KEY (meta_env env)))); reflexivity.
Qed.

(** Stopping the recorder and raising the [transcribing] flag leave the
    artifact as it was. *)
Lemma artifact_begun_stopped r w :
  mediaRecorderRef w = Some r -> artifact (begun (stopped r w)) = artifact w.
Proof. intros H. unfold artifact. cbn. rewrite H. reflexivity. Qed.

(** The run of [stopRecording] on an active session whose recorder stops and
    which buffered at least the minimum of audio, up to the result of the
    transcription step. *)
Lemma stopRecording_transcribes env render w r :
  mediaRecorderRef w = Some r ->
  rec_state r <> inactive ->
  MediaRecorder_stop env = Returns tt ->
  audioChunksRef w <> [] ->
  1000 <= blob_size (artifact w) ->
  let w1 := transcribed env render (begun (stopped r w)) in
  stopRecording env render w =
  (Returns tt,
   finished
     match selected_client env (speechService render) (artifact w) with
     | Throws t =>
         with_state (set_error (Some (message_or "Failed to process audio" t))) w1
     | Returns text =>
         if is_blank text
         then with_state (set_error (Some msg_no_transcription)) w1
         else if negb (truthy_opt (VITE_GEMINI_API_KEY (meta_env env)))
         then with_state (set_error (Some msg_gemini_key_not_set))
                (with_state (set_transcript text) w1)
         else
           let w2 := with_state (set_loading true) (with_state (set_transcript text) w1) in
           match summarizeMeeting env text with
           | Returns meetingSummary =>
               summarized env (summaryHistory render) (duration render) text
                 meetingSummary w2
           | Throws t =>
               with_state (set_error (Some (message_or "Failed to generate summary" t)))
                 (with_call (CallSummarizeMeeting text) w2)
           end
     end).
Proof.
  intros Href Hact Hstop Hne Hsize w1.
  rewrite (stopRecording_active env render w r Href Hact Hstop).
  rewrite process_recording_nonempty by exact Hne.
  rewrite process_audio_long by (rewrite artifact_begun_stopped; assumption).
  rewrite (artifact_begun_stopped r w Href). fold w1.
  destruct (selected_client env (speechService render) (artifact w)) as [text|t];
    [|reflexivity].
  destruct (is_blank text); [reflexivity|].
  destruct (negb (truthy_opt (VITE_GEMINI_API_KEY (meta_env env)))); [reflexivity|].
  destruct (summarizeMeeting env text) as [meetingSummary|t] eqn:Hsum.
  - rewrite (summarize_and_store_ok _ _ _ _ meetingSummary) by exact Hsum. reflexivity.
  - rewrite (summarize_and_store_fails _ _ _ _ t) by exact Hsum. reflexivity.
Qed.

(** The transcription step leaves the cells, the refs and the persisted
    entry alone. *)
Lemma transcribed_frame env render w :
  state (transcribed env render w) = state w /\
  mediaRecorderRef (transcribed env render w) = mediaRecorderRef w /\
  audioChunksRef (transcribed env render w) = audioChunksRef w /\
  localStorage (transcribed env render w) = localStorage w /\
  summarizations (transcribed env render w) = summarizations w.
Proof. apply log_transcription_frame. Qed.

Ltac rewrite_frame :=
  match goal with
  | |- context [transcribed ?env ?render ?w] =>
      let Hs := fresh "Hstate" in
      let Hr := fresh "Hrec" in
      let Hc := fresh "Hchunks" in
      let Hl := fresh "Hstore" in
      let Hf := fresh "Hsums" in
      destruct (transcribed_frame env render w) as (Hs & Hr & Hc & Hl & Hf);
      unfold summarizations in *; cbn in *;
      rewrite ?Hs, ?Hr, ?Hc, ?Hl, ?Hf; cbn
  end.

(** ** C1 and C2: the summarization step *)

(** What C1 says holds of a [stop()] run by the handler of the current
    render, as a click on Stop does: when it finalizes an audio artifact of
    at least the minimum size, the selected transcription client returns a
    text that is not blank and summarization succeeds, exactly one new
    record, carrying that transcript and that summary, is put in front of
    the history, and the whole updated list is written to [localStorage];
    the summary and the transcript are shown and the controller is idle. *)
Lemma stop_success_prepends_record env w r text meetingSummary :
  mediaRecorderRef w = Some r ->
  rec_state r <> inactive ->
  MediaRecorder_stop env = Returns tt ->
  audioChunksRef w <> [] ->
  1000 <= blob_size (artifact w) ->
  selected_client env (speechService (state w)) (artifact w) = Returns text ->
  is_blank text = false ->
  truthy_opt (VITE_GEMINI_API_KEY (meta_env env)) = true ->
  summarizeMeeting env text = Returns meetingSummary ->
  let record := newSummary env (duration (state w)) meetingSummary text in
  summaryHistory (state (stop env w)) = record :: summaryHistory (state w) /\
  length (summaryHistory (state (stop env w))) = S (length (summaryHistory (state w))) /\
  ms_transcript record = text /\
  ms_summary record = meetingSummary /\
  localStorage (stop env w) =
    Some (JSON_stringify env (record :: summaryHistory (state w))) /\
  summary (state (stop env w)) = Some meetingSummary /\
  transcript (state (stop env w)) = text /\
  error (state (stop env w)) = None /\
  Idle (state (stop env w)).
Proof.
  intros Href Hact Hstop Hne Hsize Hsel Hblank Hkey Hsum record.
  unfold stop, exec, Idle.
  rewrite (stopRecording_transcribes env (state w) w r Href Hact Hstop Hne Hsize).
  rewrite Hsel, Hblank, Hkey, Hsum. cbn.
  rewrite_frame. repeat split; reflexivity.
Qed.

Lemma stop_success_prepends_record_witness :
  let env := Fixture.env_ok 12500 in
  let w := Fixture.recording_world huggingface Fixture.three_chunks 12 in
  map ms_duration (summaryHistory (state (stop env w))) = [12] /\
  map ms_transcript (summaryHistory (state (stop env w))) = ["hello world"] /\
  localStorage (stop env w) = Some "[12500:12:hello world:Team discussed hello world.]".
Proof.
  intros env w.
  destruct (stop_success_prepends_record env w Fixture.recorder "hello world"
              "Team discussed hello world.") as (Hh & _ & _ & _ & Hs & _).
  - vm_compute. reflexivity.
  - discriminate.
  - reflexivity.
  - vm_compute. discriminate.
  - vm_compute. discriminate.
  - vm_compute. reflexivity.
  - vm_compute. reflexivity.
  - reflexivity.
  - vm_compute. reflexivity.
  - rewrite Hh, Hs. vm_compute. repeat split; reflexivity.
Defined.

(** C1, at a failing run. A first meeting is in the history and in
    [localStorage], and a second recording is under way, when the component
    is unmounted (the user follows the link to the history page). The
    cleanup of the mount effect calls the [stopRecording] of the first
    render, whose history is empty. The run meets the conditions of the
    claim: the artifact has 1200 bytes, the transcription returns a text,
    the summary succeeds. The list it stores holds the new record alone:
    the first meeting is gone from [localStorage]. A [stop()] by the user at
    that instant puts the new record in front of the first meeting and
    stores both. *)
Theorem unmount_stop_drops_the_stored_history :
  let env := Fixture.env_ok 99000 in
  let w := Fixture.second_recording in
  let unmounted := exec (unmount env) w in
  let manual := stop env w in
  isRecording (state w) = true /\
  blob_size (artifact w) = 1200 /\
  map ms_id (summaryHistory (state w)) = ["12500"] /\
  localStorage w = Some "[12500:12:hello world:Team discussed hello world.]" /\
  map ms_id (summaryHistory (state unmounted)) = ["99000"] /\
  localStorage unmounted = Some "[99000:0:hello world:Team discussed hello world.]" /\
  map ms_id (summaryHistory (state manual)) = ["99000"; "12500"] /\
  localStorage manual =
    Some ("[99000:12:hello world:Team discussed hello world.,"
          ++ "12500:12:hello world:Team discussed hello world.]").
Proof. vm_compute. repeat split; reflexivity. Qed.

(** C2. When transcription succeeds and the summarization call fails, the
    history and the persisted entry are as before the stop (no record is
    added), the transcript is shown, and the error slot holds the message
    of the failure. *)
Theorem stop_summary_failure_keeps_history env w r text t :
  mediaRecorderRef w = Some r ->
  rec_state r <> inactive ->
  MediaRecorder_stop env = Returns tt ->
  audioChunksRef w <> [] ->
  1000 <= blob_size (artifact w) ->
  selected_client env (speechService (state w)) (artifact w) = Returns text ->
  is_blank text = false ->
  truthy_opt (VITE_GEMINI_API_KEY (meta_env env)) = true ->
  summarizeMeeting env text = Throws t ->
  summaryHistory (state (stop env w)) = summaryHistory (state w) /\
  localStorage (stop env w) = localStorage w /\
  transcript (state (stop env w)) = text /\
  error (state (stop env w)) = Some (message_or "Failed to generate summary" t) /\
  Idle (state (stop env w)).
Proof.
  intros Href Hact Hstop Hne Hsize Hsel Hblank Hkey Hsum.
  unfold stop, exec, Idle.
  rewrite (stopRecording_transcribes env (state w) w r Href Hact Hstop Hne Hsize).
  rewrite Hsel, Hblank, Hkey, Hsum. cbn.
  rewrite_frame. repeat split; reflexivity.
Qed.

Lemma stop_summary_failure_keeps_history_witness :
  let env := Fixture.env_summary_fails 12500 in
  let w := Fixture.recording_world huggingface Fixture.three_chunks 12 in
  summaryHistory (state (stop env w)) = [] /\
  localStorage (stop env w) = None /\
  transcript (state (stop env w)) = "hello world" /\
  error (state (stop env w)) = Some "Failed to generate summary. Please try again.".
Proof.
  intros env w.
  destruct (stop_summary_failure_keeps_history env w Fixture.recorder "hello world"
              (ErrorObj "Failed to generate summary. Please try again."))
    as (Hh & Hs & Ht & He & _).
  - vm_compute. reflexivity.
  - discriminate.
  - reflexivity.
  - vm_compute. discriminate.
  - vm_compute. discriminate.
  - vm_compute. reflexivity.
  - vm_compute. reflexivity.
  - reflexivity.
  - reflexivity.
  - rewrite Hh, Hs, Ht, He. vm_compute. repeat split; reflexivity.
Defined.

(** ** C3: the transcription step fails *)

(** [transcribeAudio] re-throws, under a message of its own, every failure
    whose message one of its patterns recognizes. *)
Lemma transcribeAudio_recognized_failure_throws env audioBlob message specific :
  Huggingface.transcribeAudio_try env audioBlob = Throws (ErrorObj message) ->
  Huggingface.recognized (toLowerCase (String_toLowerCase env) message) = Some specific ->
  Huggingface.transcribeAudio env audioBlob = Throws (ErrorObj specific).
Proof.
  intros Htry Hrec. unfold Huggingface.transcribeAudio. rewrite Htry.
  unfold Huggingface.transcribeAudio_catch. rewrite Hrec. reflexivity.
Qed.

(** An empty answer of the service is turned into a sentence that
    [transcribeAudio] returns. *)
Lemma transcribeAudio_empty_result env audioBlob :
  1000 <= blob_size audioBlob ->
  truthy_opt (VITE_HUGGINGFACE_API_KEY (meta_env env)) = true ->
  hf_empty_result env audioBlob ->
  Huggingface.transcribeAudio env audioBlob = Returns Huggingface.msg_no_speech.
Proof.
  intros Hsize Hkey (base64Audio & text & Hb64 & Hasr & Htrim).
  unfold Huggingface.transcribeAudio, Huggingface.transcribeAudio_try.
  destruct (Z.eqb_spec (blob_size audioBlob) 0); [lia|].
  destruct (Z.ltb_spec (blob_size audioBlob) 1000); [lia|].
  rewrite Hb64. unfold Huggingface.getHfClient. rewrite Hkey, Hasr, Htrim.
  reflexivity.
Qed.

(** C3, as stated, fails: with the Hugging Face service selected and an
    empty transcription result, the run ends with no error message and with
    the summarization client invoked. *)
Lemma stop_empty_transcription_counterexample :
  let env := Fixture.env_silence 12500 in
  let w := Fixture.recording_world huggingface Fixture.three_chunks 12 in
  hf_empty_result env (artifact w) /\
  ~ transcription_failure_outcome w (stop env w) /\
  error (state (stop env w)) = None /\
  summarizations (stop env w) = [CallSummarizeMeeting Huggingface.msg_no_speech].
Proof.
  intros env w. split; [|split; [|split]].
  - exists "YWFh", EmptyString. repeat split; vm_compute; reflexivity.
  - intros (_ & Herr & _). apply Herr. vm_compute. reflexivity.
  - vm_compute. reflexivity.
  - vm_compute. reflexivity.
Qed.

(** The run of [stopRecording] when the selected client throws or hands
    back a blank text. *)
Lemma stop_client_failure env w r :
  mediaRecorderRef w = Some r ->
  rec_state r <> inactive ->
  MediaRecorder_stop env = Returns tt ->
  audioChunksRef w <> [] ->
  1000 <= blob_size (artifact w) ->
  client_fails (selected_client env (speechService (state w)) (artifact w)) ->
  transcript (state (stop env w)) = transcript (state w) /\
  transcription_failure_outcome w (stop env w) /\
  error (state (stop env w)) =
    transcription_error (selected_client env (speechService (state w)) (artifact w)) /\
  summaryHistory (state (stop env w)) = summaryHistory (state w) /\
  localStorage (stop env w) = localStorage w.
Proof.
  intros Href Hact Hstop Hne Hsize Hfail.
  unfold stop, exec, transcription_failure_outcome, Idle, summarizations.
  rewrite (stopRecording_transcribes env (state w) w r Href Hact Hstop Hne Hsize).
  unfold client_fails, transcription_error in *.
  destruct (selected_client env (speechService (state w)) (artifact w)) as [text|t].
  - rewrite Hfail. cbn. rewrite_frame. repeat split; try reflexivity. discriminate.
  - cbn. rewrite_frame. repeat split; try reflexivity. discriminate.
Qed.

(** C3, amended. When the selected transcription client throws (as
    [transcribeAudio] does for the failures it recognizes) or hands back a
    blank text, the controller is idle again with the message of the failure
    in the error slot, the audio artifact is kept, the history is as before,
    and the summarization client is not invoked. *)
Theorem stop_transcription_failure env w r :
  mediaRecorderRef w = Some r ->
  rec_state r <> inactive ->
  MediaRecorder_stop env = Returns tt ->
  audioChunksRef w <> [] ->
  1000 <= blob_size (artifact w) ->
  client_fails (selected_client env (speechService (state w)) (artifact w)) ->
  transcription_failure_outcome w (stop env w) /\
  error (state (stop env w)) =
    transcription_error (selected_client env (speechService (state w)) (artifact w)) /\
  summaryHistory (state (stop env w)) = summaryHistory (state w) /\
  localStorage (stop env w) = localStorage w.
Proof.
  intros Href Hact Hstop Hne Hsize Hfail.
  apply (stop_client_failure env w r Href Hact Hstop Hne Hsize Hfail).
Qed.

Lemma stop_transcription_failure_witness :
  let env := Fixture.env_rate_limited 12500 in
  let w := Fixture.recording_world huggingface Fixture.three_chunks 12 in
  error (state (stop env w)) =
    Some "Too many requests to Hugging Face API. Please try again later." /\
  summarizations (stop env w) = [].
Proof.
  intros env w.
  destruct (stop_transcription_failure env w Fixture.recorder)
    as ((_ & _ & _ & _ & Hs) & He & _).
  - vm_compute. reflexivity.
  - discriminate.
  - reflexivity.
  - vm_compute. discriminate.
  - vm_compute. discriminate.
  - vm_compute. exact I.
  - rewrite He, Hs. split; vm_compute; reflexivity.
Defined.


(** ** Between two events nothing is pending

    Rules to carry a property of the world through a handler, and their
    use for [settled]. *)

Section Preservation.

Variable P : World -> Prop.

Lemma preserves_ret A (a : A) : preserves P (ret a).
Proof. intros w H. exact H. Qed.

Lemma preserves_throw A message : preserves P (@throw World A message).
Proof. intros w H. exact H. Qed.

Lemma preserves_await A (o : Outcome A) : preserves P (await o).
Proof. intros w H. exact H. Qed.

Lemma preserves_read A (f : World -> A) : preserves P (read f).
Proof. intros w H. exact H. Qed.

Lemma preserves_bind A B (m : M World A) (k : A -> M World B) :
  preserves P m -> (forall a, preserves P (k a)) -> preserves P (bind m k).
Proof.
  intros Hm Hk w H. unfold bind. specialize (Hm w H).
  destruct (m w) as [[a|t] w']; cbn in *; [apply Hk|]; assumption.
Qed.

Lemma preserves_try_catch A (m : M World A) handler :
  preserves P m -> (forall t, preserves P (handler t)) -> preserves P (try_catch m handler).
Proof.
  intros Hm Hh w H. unfold try_catch. specialize (Hm w H).
  destruct (m w) as [[a|t] w']; cbn in *; [|apply Hh]; assumption.
Qed.

Lemma preserves_try_finally A (m : M World A) f :
  preserves P m -> preserves P f -> preserves P (try_finally m f).
Proof.
  intros Hm Hf w H. unfold try_finally. specialize (Hm w H).
  destruct (m w) as [r w']. cbn in Hm. specialize (Hf w' Hm).
  destruct (f w') as [[u|t] w'']; exact Hf.
Qed.

Lemma preserves_modify (f : World -> World) :
  (forall w, P w -> P (f w)) -> preserves P (modify f).
Proof. intros Hf w H. apply Hf. exact H. Qed.

End Preservation.

Create HintDb preserve discriminated.
#[export] Hint Resolve preserves_ret preserves_throw preserves_await preserves_read
  : preserve.

(** One rule, or one case split on the test of a conditional. *)
Ltac preserve_step :=
  match goal with
  | |- forall _, _ => intro
  | |- preserves _ (bind _ _) => apply preserves_bind
  | |- preserves _ (try_catch _ _) => apply preserves_try_catch
  | |- preserves _ (try_finally _ _) => apply preserves_try_finally
  | |- preserves _ (modify _) => apply preserves_modify
  | |- preserves _ (if ?c then _ else _) => destruct c
  | |- preserves _ (match ?x with _ => _ end) => destruct x
  | |- preserves _ _ => solve [auto with preserve]
  end.

Lemma settled_finished w : settled (finished w).
Proof. split; reflexivity. Qed.

Lemma stopRecording_settles env render : preserves settled (stopRecording env render).
Proof.
  intros w Hw.
  destruct (mediaRecorderRef w) as [r|] eqn:Href.
  - destruct (rec_state r) eqn:Hst.
    + rewrite stopRecording_no_session; [exact Hw|]. right. exists r. auto.
    + destruct (MediaRecorder_stop env) as [[]|t] eqn:Hstop.
      * rewrite (stopRecording_active env render w r Href) by (congruence || assumption).
        destruct (audioChunksRef w) as [|c cs] eqn:Hc.
        -- rewrite process_recording_empty by exact Hc. exact Hw.
        -- rewrite process_recording_nonempty by (cbn; rewrite Hc; discriminate).
           apply settled_finished.
      * rewrite (stopRecording_stop_throws env render w r t Href) by (congruence || assumption).
        exact Hw.
    + destruct (MediaRecorder_stop env) as [[]|t] eqn:Hstop.
      * rewrite (stopRecording_active env render w r Href) by (congruence || assumption).
        destruct (audioChunksRef w) as [|c cs] eqn:Hc.
        -- rewrite process_recording_empty by exact Hc. exact Hw.
        -- rewrite process_recording_nonempty by (cbn; rewrite Hc; discriminate).
           apply settled_finished.
      * rewrite (stopRecording_stop_throws env render w r t Href) by (congruence || assumption).
        exact Hw.
  - rewrite stopRecording_no_session; [exact Hw|]. left. exact Href.
Qed.

Lemma testWithSampleText_settles env render w :
  settled (snd (testWithSampleText env render w)).
Proof.
  unfold testWithSampleText. unfold bind at 1, setTranscribing at 1, modify at 1.
  unfold bind at 1, setError at 1, modify at 1. unfold try_finally.
  match goal with |- context [try_catch ?m ?h ?w0] => destruct (try_catch m h w0) as [o w1] end.
  cbn. destruct o; split; reflexivity.
Qed.

(** For a property that the writes of the handler at hand leave as it is. *)
Ltac preserve_frame :=
  repeat preserve_step;
  match goal with H : _ |- _ => exact H end.

Lemma handle_settles env ev : preserves settled (handle env ev).
Proof.
  unfold handle. apply preserves_bind; [apply preserves_read|]. intros render.
  destruct ev.
  - unfold startRecording, setError, setIsRecording, setStartTime, setAudioSupported.
    preserve_frame.
  - unfold pauseRecording, setError, setIsPaused. preserve_frame.
  - unfold resumeRecording, setError, setIsPaused. preserve_frame.
  - apply stopRecording_settles.
  - intros w _. apply testWithSampleText_settles.
  - unfold setSpeechService. preserve_frame.
  - unfold ondataavailable. preserve_frame.
  - unfold onstop, setError, setAudioURL. preserve_frame.
  - apply preserves_bind; [apply preserves_read|]. intros timers.
    destruct (find_interval id timers) as [created_by|]; [|apply preserves_ret].
    unfold watchdog_callback.
    destruct (startTime created_by); [|apply preserves_ret].
    apply preserves_bind; [unfold setDuration; preserve_frame|]. intros _.
    destruct (maxRecordingDuration <=? _); [apply stopRecording_settles | apply preserves_ret].
Qed.

Lemma mount_settles env : preserves settled (mount env).
Proof.
  unfold mount, check_effect, load_effect, watchdog_effect, clear_duration_interval,
    setInterval, clearInterval, setAudioSupported, setError, setSpeechService,
    setSummaryHistory.
  preserve_frame.
Qed.

Lemma rerender_settles prev : preserves settled (rerender prev).
Proof.
  unfold rerender, watchdog_cleanup, watchdog_effect, clear_duration_interval,
    setInterval, clearInterval.
  preserve_frame.
Qed.

(** After every event the controller has no transcription or summarization
    pending, provided it had none before. *)
Lemma step_settles env ev w : settled w -> settled (step env ev w).
Proof.
  intros Hw. unfold step, exec.
  apply (preserves_bind settled); [apply handle_settles | intros _; apply rerender_settles |].
  exact Hw.
Qed.

Lemma run_settles trace w : settled w -> settled (run trace w).
Proof.
  revert w. induction trace as [|[env ev] trace IH]; intros w Hw; cbn.
  - exact Hw.
  - apply IH. apply step_settles. exact Hw.
Qed.

(** Every world reached from the mounted component is settled. *)
Lemma reachable_settled env stored trace : settled (run trace (mounted env stored)).
Proof.
  apply run_settles. apply mount_settles. split; reflexivity.
Qed.

(** ** C5: no audio, or too little *)

(** C5. When [stop()] is called on an active session whose recorder stops,
    and either no chunk was captured or the concatenated artifact is smaller
    than 1000 bytes, the error slot holds one of the two empty-recording
    messages, the controller is idle, and no client is called. ([settled]
    holds of every world reached from the mounted component, by
    [reachable_settled].) *)
Theorem stop_empty_recording env w r :
  mediaRecorderRef w = Some r ->
  rec_state r <> inactive ->
  MediaRecorder_stop env = Returns tt ->
  settled w ->
  audioChunksRef w = [] \/ blob_size (artifact w) < 1000 ->
  (exists m, error (state (stop env w)) = Some m /\ is_empty_recording_message m) /\
  Idle (state (stop env w)) /\
  calls (stop env w) = calls w.
Proof.
  intros Href Hact Hstop (Htr & Hld) Hcase.
  unfold stop, exec, Idle, is_empty_recording_message.
  rewrite (stopRecording_active env (state w) w r Href Hact Hstop).
  destruct (audioChunksRef w) as [|c cs] eqn:Hc.
  - rewrite process_recording_empty by exact Hc. cbn.
    split; [exists msg_no_audio_recorded; auto|]. repeat split; assumption.
  - destruct Hcase as [Hnil | Hshort]; [discriminate|].
    rewrite process_recording_nonempty by (cbn; rewrite Hc; discriminate).
    rewrite process_audio_short
      by (rewrite (artifact_begun_stopped r w Href); exact Hshort).
    cbn. split; [exists msg_recording_too_short; auto|]. repeat split; reflexivity.
Qed.

Lemma stop_empty_recording_witness :
  let env := Fixture.env_ok 500 in
  let w := Fixture.recording_world huggingface [Fixture.chunk 400] 0 in
  error (state (stop env w)) = Some msg_recording_too_short /\ calls (stop env w) = [].
Proof.
  intros env w.
  destruct (stop_empty_recording env w Fixture.recorder) as (_ & _ & Hcalls).
  - vm_compute. reflexivity.
  - discriminate.
  - reflexivity.
  - split; vm_compute; reflexivity.
  - right. vm_compute. reflexivity.
  - rewrite Hcalls. split; vm_compute; reflexivity.
Defined.

(** ** C9 and C10: what [transcribeAudio] returns in place of failing *)

(** An ASCII character starts no white space of several bytes. *)
Lemma ascii_starts_no_whitespace c :
  Nat.ltb (nat_of_ascii c) 128 = true ->
  (forall c2, is_whitespace2 c c2 = false) /\
  (forall c2 c3, is_whitespace3 c c2 c3 = false).
Proof.
  intros Hc. apply Nat.ltb_lt in Hc. unfold is_whitespace2, is_whitespace3. split.
  - intros c2. destruct (Nat.eqb_spec (nat_of_ascii c) 194); [lia | reflexivity].
  - intros c2 c3. cbv zeta.
    destruct (Nat.eqb_spec (nat_of_ascii c) 225); [lia|].
    destruct (Nat.eqb_spec (nat_of_ascii c) 226); [lia|].
    destruct (Nat.eqb_spec (nat_of_ascii c) 227); [lia|].
    destruct (Nat.eqb_spec (nat_of_ascii c) 239); [lia|].
    reflexivity.
Qed.

Lemma trimStart_at_a_character c s :
  is_whitespace c = false -> Nat.ltb (nat_of_ascii c) 128 = true ->
  trimStart (String c s) = String c s.
Proof.
  intros Hw Hc. destruct (ascii_starts_no_whitespace c Hc) as [H2 H3].
  cbn [trimStart]. rewrite Hw.
  destruct s as [|c2 [|c3 s]]; rewrite ?H2, ?H3; reflexivity.
Qed.

Lemma not_all_whitespace c s :
  is_whitespace c = false -> Nat.ltb (nat_of_ascii c) 128 = true ->
  all_whitespace (String c s) = false.
Proof.
  intros Hw Hc. destruct (ascii_starts_no_whitespace c Hc) as [H2 H3].
  cbn [all_whitespace]. rewrite Hw.
  destruct s as [|c2 [|c3 s]]; rewrite ?H2, ?H3; reflexivity.
Qed.

Lemma not_blank_cons c s :
  is_whitespace c = false -> Nat.ltb (nat_of_ascii c) 128 = true ->
  is_blank (String c s) = false.
Proof.
  intros Hw Hc. unfold is_blank, trim.
  rewrite (trimStart_at_a_character c s Hw Hc).
  cbn [trimEnd]. rewrite (not_all_whitespace c s Hw Hc). reflexivity.
Qed.

Lemma failure_text_not_blank t : is_blank (failure_text t) = false.
Proof. destruct t; cbn [failure_text]; apply not_blank_cons; reflexivity. Qed.

(** Whatever [transcribeAudio] returns is not blank: behind this client the
    controller's own test for a blank text never fires. *)
Lemma transcribeAudio_never_blank env audioBlob text :
  Huggingface.transcribeAudio env audioBlob = Returns text -> is_blank text = false.
Proof.
  unfold Huggingface.transcribeAudio.
  destruct (Huggingface.transcribeAudio_try env audioBlob) as [text'|t] eqn:Htry.
  - intros [= <-]. unfold Huggingface.transcribeAudio_try in Htry.
    repeat match type of Htry with
           | match ?x with _ => _ end = _ => destruct x eqn:?
           end; try discriminate;
      injection Htry as <-; try reflexivity.
    unfold is_blank.
    match goal with H : trim _ = String _ _ |- _ => rewrite H end. reflexivity.
  - unfold Huggingface.transcribeAudio_catch.
    destruct t as [message|].
    + destruct (Huggingface.recognized (toLowerCase (String_toLowerCase env) message));
        [discriminate|].
      intros [= <-]. apply (failure_text_not_blank (ErrorObj message)).
    + intros [= <-]. apply (failure_text_not_blank NonError).
Qed.

(** The run of [stopRecording] when the selected client returned a text that
    is not blank: the text is shown, and what follows belongs to the
    summarization step. *)
Lemma stop_with_transcript env w r text :
  mediaRecorderRef w = Some r ->
  rec_state r <> inactive ->
  MediaRecorder_stop env = Returns tt ->
  audioChunksRef w <> [] ->
  1000 <= blob_size (artifact w) ->
  selected_client env (speechService (state w)) (artifact w) = Returns text ->
  is_blank text = false ->
  transcript (state (stop env w)) = text /\
  error (state (stop env w)) = summarization_error env text /\
  audioURL (state (stop env w)) = audioURL (state w) /\
  audioChunksRef (stop env w) = audioChunksRef w /\
  (truthy_opt (VITE_GEMINI_API_KEY (meta_env env)) = true ->
   summarizations (stop env w) =
     (summarizations w ++ [CallSummarizeMeeting text])%list).
Proof.
  intros Href Hact Hstop Hne Hsize Hsel Hblank.
  unfold stop, exec, summarization_error, summarizations.
  rewrite (stopRecording_transcribes env (state w) w r Href Hact Hstop Hne Hsize).
  rewrite Hsel, Hblank.
  destruct (truthy_opt (VITE_GEMINI_API_KEY (meta_env env))); cbn.
  - destruct (summarizeMeeting env text); cbn; rewrite_frame;
      rewrite ?filter_app; cbn; rewrite ?Hsums; repeat split; reflexivity.
  - rewrite_frame. repeat split; try reflexivity. discriminate.
Qed.

(** C9. When the speech-to-text service answers with an empty or blank
    text, [transcribeAudio] returns (it does not throw) the sentence
    [msg_no_speech]; the controller shows that sentence in place of the
    transcript, the transcription step puts nothing in the error slot, and
    the audio artifact is kept. *)
Theorem stop_empty_transcription_result env w r :
  mediaRecorderRef w = Some r ->
  rec_state r <> inactive ->
  MediaRecorder_stop env = Returns tt ->
  audioChunksRef w <> [] ->
  1000 <= blob_size (artifact w) ->
  speechService (state w) = huggingface ->
  truthy_opt (VITE_HUGGINGFACE_API_KEY (meta_env env)) = true ->
  hf_empty_result env (artifact w) ->
  Huggingface.transcribeAudio env (artifact w) = Returns Huggingface.msg_no_speech /\
  no_speech_outcome w (stop env w) /\
  error (state (stop env w)) = summarization_error env Huggingface.msg_no_speech.
Proof.
  intros Href Hact Hstop Hne Hsize Hsvc Hkey Hempty.
  pose proof (transcribeAudio_empty_result env (artifact w) Hsize Hkey Hempty) as Hret.
  assert (Hsel : selected_client env (speechService (state w)) (artifact w)
                 = Returns Huggingface.msg_no_speech).
  { rewrite Hsvc. unfold selected_client. rewrite Hkey. exact Hret. }
  destruct (stop_with_transcript env w r _ Href Hact Hstop Hne Hsize Hsel)
    as (Ht & He & Hu & Hc & _); [reflexivity|].
  unfold no_speech_outcome. auto.
Qed.

Lemma stop_empty_transcription_result_witness :
  let env := Fixture.env_silence 12500 in
  let w := Fixture.recording_world huggingface Fixture.three_chunks 12 in
  transcript (state (stop env w)) = Huggingface.msg_no_speech /\
  error (state (stop env w)) = None.
Proof.
  intros env w.
  destruct (stop_empty_transcription_result env w Fixture.recorder)
    as (_ & (Ht & _) & He).
  - vm_compute. reflexivity.
  - discriminate.
  - reflexivity.
  - vm_compute. discriminate.
  - vm_compute. discriminate.
  - vm_compute. reflexivity.
  - reflexivity.
  - exists "YWFh", EmptyString. repeat split; vm_compute; reflexivity.
  - rewrite Ht, He. split; [reflexivity | vm_compute; reflexivity].
Defined.

(** C10. A failure inside [transcribeAudio] whose message none of the
    patterns recognizes makes the function return, not throw: the text is
    [Transcription failed: ] followed by the message, or the fallback
    sentence when the value thrown is not an [Error]. The text is not
    blank, so a controller that selected this client takes it for the
    transcript: it shows it and passes it to the summarization client. *)
Theorem transcribeAudio_unrecognized_failure_is_returned env audioBlob t :
  Huggingface.transcribeAudio_try env audioBlob = Throws t ->
  unrecognized env t ->
  Huggingface.transcribeAudio env audioBlob = Returns (failure_text t) /\
  is_blank (failure_text t) = false /\
  forall w r,
    mediaRecorderRef w = Some r ->
    rec_state r <> inactive ->
    MediaRecorder_stop env = Returns tt ->
    audioChunksRef w <> [] ->
    1000 <= blob_size (artifact w) ->
    artifact w = audioBlob ->
    speechService (state w) = huggingface ->
    truthy_opt (VITE_HUGGINGFACE_API_KEY (meta_env env)) = true ->
    transcript (state (stop env w)) = failure_text t /\
    error (state (stop env w)) = summarization_error env (failure_text t) /\
    (truthy_opt (VITE_GEMINI_API_KEY (meta_env env)) = true ->
     summarizations (stop env w) =
       (summarizations w ++ [CallSummarizeMeeting (failure_text t)])%list).
Proof.
  intros Htry Hun.
  assert (Hret : Huggingface.transcribeAudio env audioBlob = Returns (failure_text t)).
  { unfold Huggingface.transcribeAudio. rewrite Htry.
    destruct t as [message|]; cbn in *; [rewrite Hun|]; reflexivity. }
  split; [exact Hret|]. split; [apply failure_text_not_blank|].
  intros w r Href Hact Hstop Hne Hsize Hart Hsvc Hkey.
  assert (Hsel : selected_client env (speechService (state w)) (artifact w)
                 = Returns (failure_text t)).
  { rewrite Hsvc, Hart. unfold selected_client. rewrite Hkey. exact Hret. }
  destruct (stop_with_transcript env w r _ Href Hact Hstop Hne Hsize Hsel
              (failure_text_not_blank t)) as (Ht & He & _ & _ & Hs).
  auto.
Qed.

Lemma transcribeAudio_unrecognized_failure_is_returned_witness :
  let env := Fixture.env_fetch_fails 12500 in
  let w := Fixture.recording_world huggingface Fixture.three_chunks 12 in
  Huggingface.transcribeAudio env (artifact w) =
    Returns "Transcription failed: Failed to fetch" /\
  transcript (state (stop env w)) = "Transcription failed: Failed to fetch" /\
  summarizations (stop env w) =
    [CallSummarizeMeeting "Transcription failed: Failed to fetch"].
Proof.
  intros env w.
  destruct (transcribeAudio_unrecognized_failure_is_returned env (artifact w)
              (ErrorObj "Failed to fetch")) as (Hret & _ & Hcaller).
  - vm_compute. reflexivity.
  - vm_compute. reflexivity.
  - destruct (Hcaller w Fixture.recorder) as (Ht & _ & Hs).
    + vm_compute. reflexivity.
    + discriminate.
    + reflexivity.
    + vm_compute. discriminate.
    + vm_compute. discriminate.
    + reflexivity.
    + vm_compute. reflexivity.
    + reflexivity.
    + rewrite Hret, Ht, Hs by reflexivity. vm_compute. repeat split; reflexivity.
Defined.

(** ** C6: [stop()] without a session *)

Lemma lower_flags_idle w :
  isRecording (state w) = false ->
  isPaused (state w) = false ->
  startTime (state w) = None ->
  with_state (set_startTime None)
    (with_state (set_isPaused false) (with_state (set_isRecording false) w)) = w.
Proof.
  destruct w as [s ? ? ? ? ? ? ?]. destruct s. cbn. intros -> -> ->. reflexivity.
Qed.

(** The [stopRecording] of the earlier version has no guard of its own:
    without a session it changes nothing when the transcript its render
    captured is blank. *)
Lemma legacy_stop_with_blank_transcript env render lw :
  Legacy.no_session lw ->
  trim (transcript render) = EmptyString ->
  Legacy.stopRecording env render lw = (Returns tt, lw).
Proof.
  destruct lw as [w recognition].
  intros (Hrec & Hpause & Hstart & Hrecorder & Hrecog) Hblank.
  cbn in Hrec, Hpause, Hstart, Hrecorder, Hrecog.
  unfold Legacy.stopRecording. rewrite Hblank. cbn [truthy].
  unfold bind, read, modify, ret, Legacy.lift, setIsRecording, setIsPaused,
    setStartTime, Legacy.with_recognitionRef.
  cbn [Legacy.recognitionRef Legacy.world].
  destruct Hrecog as [-> | ->];
    destruct Hrecorder as [Hnone | (r & Href & Hstate)];
    rewrite ?Hnone, ?Href; cbn [Legacy.recognitionRef Legacy.world];
    rewrite ?Hnone, ?Href, ?Hstate; cbn [RecorderState_eqb negb read modify
      Legacy.recognitionRef Legacy.world];
    rewrite ?Hnone, ?Href, ?Hstate; cbn [RecorderState_eqb negb read modify
      Legacy.recognitionRef Legacy.world];
    rewrite (lower_flags_idle w Hrec Hpause Hstart); reflexivity.
Qed.

(** C6. [stop()] without an active session changes nothing and raises no
    error. In the current controller this holds of the handler of any
    render: it returns at once when there is no recorder or the recorder
    is inactive. In the earlier version it holds of every call the
    component makes: the Stop button and the sign-out call [stopRecording]
    while [isRecording] only, and the cleanup calls that of the first
    render, whose transcript is empty. *)
Theorem stop_without_session_is_noop env :
  (forall render w, no_session w -> stopRecording env render w = (Returns tt, w)) /\
  (forall caller lw,
     Legacy.no_session lw ->
     Legacy.stop_called_by env caller lw = (Returns tt, lw)).
Proof.
  split.
  - intros render w Hno. apply stopRecording_no_session. exact Hno.
  - intros caller lw Hno.
    assert (Hrec : isRecording (state (Legacy.world lw)) = false) by apply Hno.
    unfold Legacy.stop_called_by. unfold bind at 1. unfold Legacy.lift, read.
    destruct lw as [w recognition]. cbn [Legacy.world Legacy.recognitionRef] in *.
    destruct caller; rewrite ?Hrec; try reflexivity.
    apply legacy_stop_with_blank_transcript; [exact Hno | reflexivity].
Qed.

Lemma stop_without_session_is_noop_witness :
  let env := Fixture.env_ok 12500 in
  stop env (initial_world None) = initial_world None /\
  exec (Legacy.stop_called_by env Legacy.Cleanup) (Fixture.legacy_idle "hello world ") =
    Fixture.legacy_idle "hello world ".
Proof.
  intros env.
  destruct (stop_without_session_is_noop env) as (Hcur & Hold).
  split.
  - unfold stop, exec. rewrite Hcur; [reflexivity|]. left. reflexivity.
  - unfold exec. rewrite Hold; [reflexivity|].
    unfold Legacy.no_session. cbn. repeat split; try reflexivity.
    + right. eexists. split; reflexivity.
    + right. reflexivity.
Defined.

(** ** C7: loading the history at mount *)

(** The key check always returns, and writes neither the history, nor the
    dependencies of the watchdog effect, nor anything outside the cells. *)
Lemma check_effect_frame env w :
  fst (check_effect env w) = Returns tt /\
  summaryHistory (state (exec (check_effect env) w)) = summaryHistory (state w) /\
  startTime (state (exec (check_effect env) w)) = startTime (state w) /\
  isPaused (state (exec (check_effect env) w)) = isPaused (state w) /\
  localStorage (exec (check_effect env) w) = localStorage w /\
  durationIntervalRef (exec (check_effect env) w) = durationIntervalRef w.
Proof.
  unfold check_effect, exec.
  destruct (mediaDevices_supported env),
    (truthy_opt (VITE_GEMINI_API_KEY (meta_env env))),
    (truthy_opt (VITE_HUGGINGFACE_API_KEY (meta_env env))),
    (truthy_opt (VITE_GOOGLE_CLOUD_API_KEY (meta_env env)));
    cbn; repeat split; reflexivity.
Qed.

(** Loading an entry that is missing, empty or parses to no record. *)
Lemma load_effect_empty env w :
  empty_or_missing env (localStorage w) ->
  summaryHistory (state w) = [] ->
  fst (load_effect env w) = Returns tt /\
  summaryHistory (state (exec (load_effect env) w)) = [] /\
  error (state (exec (load_effect env) w)) = error (state w) /\
  startTime (state (exec (load_effect env) w)) = startTime (state w) /\
  isPaused (state (exec (load_effect env) w)) = isPaused (state w) /\
  durationIntervalRef (exec (load_effect env) w) = durationIntervalRef w.
Proof.
  unfold empty_or_missing, load_effect, exec, bind, read. intros Hstored Hinit.
  destruct (localStorage w) as [text|]; cbn.
  - destruct Hstored as [-> | Hparse].
    + cbn. repeat split; auto.
    + destruct (truthy text); cbn; [rewrite Hparse; cbn|]; repeat split; auto.
  - repeat split; auto.
Qed.

Lemma deps_unchanged prev cur :
  startTime cur = startTime prev ->
  startTime_ref cur = startTime_ref prev ->
  isPaused cur = isPaused prev ->
  deps_changed prev cur = false.
Proof.
  intros Hs Hr Hp. unfold deps_changed. rewrite Hs, Hr, Hp.
  destruct (startTime prev); rewrite ?Nat.eqb_refl, ?Z.eqb_refl, Bool.eqb_reflx;
    reflexivity.
Qed.

(** C7. At mount, a persisted history entry that is missing, empty, or
    that parses to the empty list gives an empty history; the mount effects
    return normally, and loading writes nothing into the error slot. *)
Theorem load_empty_history env stored :
  empty_or_missing env stored ->
  fst (mount env (initial_world stored)) = Returns tt /\
  summaryHistory (state (mounted env stored)) = [] /\
  fst (load_effect env (initial_world stored)) = Returns tt /\
  error (state (exec (load_effect env) (initial_world stored))) = None.
Proof.
  intros Hstored.
  destruct (check_effect_frame env (initial_world stored))
    as (Hret & Hhist & Hst & Hp & Hstore & Href).
  destruct (load_effect_empty env (exec (check_effect env) (initial_world stored)))
    as (Hload & Hempty & _ & Hst' & Hp' & Href');
    [rewrite Hstore; exact Hstored | rewrite Hhist; reflexivity |].
  destruct (load_effect_empty env (initial_world stored) Hstored eq_refl)
    as (Hload0 & _ & Herr0 & _).
  unfold exec in *.
  destruct (check_effect env (initial_world stored)) as [o1 w1] eqn:E1.
  cbn [fst snd] in *. subst o1.
  destruct (load_effect env w1) as [o2 w2] eqn:E2.
  cbn [fst snd] in *. subst o2.
  rewrite Href in Href'. rewrite Hst in Hst'. rewrite Hp in Hp'.
  cbn [initial_world durationIntervalRef state initial_state startTime isPaused]
    in Href', Hst', Hp'.
  assert (Hmount : mount env (initial_world stored) = (Returns tt, w2)).
  { unfold mount. unfold bind at 1, read at 1. unfold bind at 1. rewrite E1.
    unfold bind at 1. rewrite E2.
    cbn [state initial_world initial_state startTime watchdog_effect].
    unfold clear_duration_interval, bind, read. rewrite Href'. reflexivity. }
  repeat split.
  - rewrite Hmount. reflexivity.
  - unfold mounted, exec. rewrite Hmount. exact Hempty.
  - exact Hload0.
  - rewrite Herr0. reflexivity.
Qed.

Lemma load_empty_history_witness :
  summaryHistory (state (mounted (Fixture.env_ok 0) None)) = [] /\
  summaryHistory (state (mounted (Fixture.env_ok 0) (Some "[]"))) = [].
Proof.
  split.
  - apply (load_empty_history (Fixture.env_ok 0) None). exact I.
  - apply (load_empty_history (Fixture.env_ok 0) (Some "[]")). right. reflexivity.
Defined.

(** ** C8: record identifiers *)

Lemma toString_inj a b : toString a = toString b -> a = b.
Proof.
  unfold toString. intros H.
  apply (f_equal NilEmpty.int_of_string) in H.
  rewrite !NilEmpty.isi in H. injection H as H.
  apply (f_equal Z.of_int) in H. rewrite !DecimalZ.of_to in H. exact H.
Qed.

(** C8, as stated, fails: the identifier is the clock reading of
    [Date.now()], and two records created at the same reading share it.
    Here two sample summaries are made in succession at one reading. *)
Lemma same_clock_same_id_counterexample :
  let now := 1700000000000 in
  let w := run [(Fixture.env_summary "First summary." now, ClickTestWithSampleText);
                (Fixture.env_summary "Second summary." now, ClickTestWithSampleText)]
               (mounted (Fixture.env_ok now) None) in
  exists first second,
    summaryHistory (state w) = [second; first] /\
    first <> second /\
    ms_id first = ms_id second.
Proof.
  intros now w.
  exists (mkMeetingSummary "1700000000000" "1700000000000" 300 "First summary." sampleText),
    (mkMeetingSummary "1700000000000" "1700000000000" 300 "Second summary." sampleText).
  split; [vm_compute; reflexivity|]. split; [discriminate | reflexivity].
Qed.

(** C8, amended. Two records created by the controller have the same
    identifier exactly when [Date.now()] read the same value at their
    creation; records created at different readings have different
    identifiers. *)
Theorem record_ids_follow_the_clock env1 env2 d1 d2 s1 s2 t1 t2 :
  ms_id (newSummary env1 d1 s1 t1) = ms_id (newSummary env2 d2 s2 t2) <->
  Date_now env1 = Date_now env2.
Proof.
  cbn. split.
  - apply toString_inj.
  - intros ->. reflexivity.
Qed.

Lemma record_ids_follow_the_clock_witness :
  ms_id (newSummary (Fixture.env_ok 1700000000000) 12 "a" "b") <>
  ms_id (newSummary (Fixture.env_ok 1700000000001) 12 "a" "b").
Proof.
  intros Heq.
  apply (proj1 (record_ids_follow_the_clock _ _ _ _ _ _ _ _)) in Heq.
  vm_compute in Heq. discriminate.
Defined.

(** ** C4: the duration watchdog *)

(** What a [stopRecording] closure takes from its render: the selected
    service, the duration and the history. *)
Lemma stopRecording_closure env render1 render2 w :
  speechService render1 = speechService render2 ->
  duration render1 = duration render2 ->
  summaryHistory render1 = summaryHistory render2 ->
  stopRecording env render1 w = stopRecording env render2 w.
Proof.
  intros Hs Hd Hh.
  unfold stopRecording, process_recording, process_audio.
  rewrite Hs, Hd, Hh. reflexivity.
Qed.

(** A tick of an interval that was cleared does nothing. *)
Lemma tick_of_cleared_interval env id now w :
  find_interval id (intervals w) = None ->
  step env (IntervalFires id now) w = w.
Proof.
  intros Hfind. unfold step, exec, handle, rerender, bind, read.
  rewrite Hfind. cbn.
  rewrite deps_unchanged by reflexivity. reflexivity.
Qed.

(** Pausing a running recording clears the interval: the watchdog does not
    tick while paused. *)
Lemma pause_clears_the_interval env w r id render now :
  mediaRecorderRef w = Some r ->
  rec_state r = recording ->
  MediaRecorder_pause env = Returns tt ->
  isPaused (state w) = false ->
  durationIntervalRef w = Some id ->
  intervals w = [(id, render)] ->
  intervals (step env ClickPause w) = [] /\
  step env (IntervalFires id now) (step env ClickPause w) = step env ClickPause w.
Proof.
  intros Href Hstate Hpause Hp Hid Hint.
  assert (Hclear : intervals (step env ClickPause w) = []).
  { unfold step, exec, handle, pauseRecording, rerender.
    unfold bind, read, try_catch, await, modify, setIsPaused.
    rewrite Href, Hstate. cbn. rewrite Hpause. cbn.
    unfold deps_changed. cbn. rewrite Hp.
    destruct (startTime (state w)) as [start|] eqn:Hstart;
      rewrite ?Nat.eqb_refl, ?Z.eqb_refl; cbn;
      unfold clear_duration_interval, clearInterval, bind, read, modify; cbn;
      rewrite Hid; cbn; rewrite Hint; cbn; rewrite Nat.eqb_refl; cbn;
      unfold watchdog_effect; cbn; rewrite Hstart;
      unfold clear_duration_interval, clearInterval, bind, read, modify; cbn;
      rewrite Hid; reflexivity. }
  split; [exact Hclear|].
  apply tick_of_cleared_interval. rewrite Hclear. reflexivity.
Qed.

(** Once the recorder is inactive, a tick only refreshes the duration: the
    stop it asks for past the ceiling has no effect. *)
Lemma tick_without_session env render start now w :
  startTime render = Some start ->
  no_session w ->
  watchdog_callback env render now w =
  (Returns tt, with_state (set_duration ((now - start) / 1000)) w).
Proof.
  intros Hstart Hno. unfold watchdog_callback. rewrite Hstart.
  unfold bind at 1, setDuration at 1, modify at 1.
  destruct (maxRecordingDuration <=? (now - start) / 1000); [|reflexivity].
  apply stopRecording_no_session.
  destruct Hno as [Hnone | (r & Href & Hst)]; [left | right; exists r]; cbn; auto.
Qed.

(** Past the ceiling, a tick stores the duration and runs the
    [stopRecording] of the render that created the interval. *)
Lemma auto_stop_uses_closure env render start now w :
  startTime render = Some start ->
  maxRecordingDuration <= (now - start) / 1000 ->
  watchdog_callback env render now w =
  stopRecording env render (with_state (set_duration ((now - start) / 1000)) w).
Proof.
  intros Hstart Hmax. unfold watchdog_callback. rewrite Hstart.
  unfold bind at 1, setDuration at 1, modify at 1.
  destruct (Z.leb_spec maxRecordingDuration ((now - start) / 1000)); [reflexivity | lia].
Qed.

(** When the render that created the interval agrees with the current
    cells on service, duration and history, the automatic stop is the stop
    the user would ask for at that instant. *)
Lemma auto_stop_with_current_closure env render start now w :
  startTime render = Some start ->
  maxRecordingDuration <= (now - start) / 1000 ->
  speechService render = speechService (state w) ->
  duration render = (now - start) / 1000 ->
  summaryHistory render = summaryHistory (state w) ->
  exec (watchdog_callback env render now) w =
  stop env (with_state (set_duration ((now - start) / 1000)) w).
Proof.
  intros Hstart Hmax Hs Hd Hh. unfold watchdog_callback, stop, exec. rewrite Hstart.
  unfold bind at 1, setDuration at 1, modify at 1.
  destruct (Z.leb_spec maxRecordingDuration ((now - start) / 1000)); [|lia].
  f_equal. apply stopRecording_closure; cbn; assumption.
Qed.

(** *** No error escapes a handler *)

Section Returning.

Lemma returns_ret A (a : A) : returns (ret a).
Proof. intros w. exists a. reflexivity. Qed.

Lemma returns_read A (f : World -> A) : returns (read f).
Proof. intros w. exists (f w). reflexivity. Qed.

Lemma returns_modify f : returns (modify f).
Proof. intros w. exists tt. reflexivity. Qed.

Lemma returns_bind A B (m : M World A) (k : A -> M World B) :
  returns m -> (forall a, returns (k a)) -> returns (bind m k).
Proof.
  intros Hm Hk w. unfold bind. destruct (Hm w) as [a Ha].
  destruct (m w) as [o w']. cbn in Ha. subst o. apply Hk.
Qed.

Lemma returns_try_catch A (m : M World A) handler :
  (forall t, returns (handler t)) -> returns (try_catch m handler).
Proof.
  intros Hh w. unfold try_catch. destruct (m w) as [[a|t] w'].
  - exists a. reflexivity.
  - apply Hh.
Qed.

Lemma returns_try_finally A (m : M World A) f :
  returns m -> returns f -> returns (try_finally m f).
Proof.
  intros Hm Hf w. unfold try_finally. destruct (Hm w) as [a Ha].
  destruct (m w) as [o w']. cbn in Ha. subst o.
  destruct (Hf w') as [u Hu]. destruct (f w') as [o' w'']. cbn in Hu. subst o'.
  exists a. reflexivity.
Qed.

End Returning.

Ltac returns_step :=
  match goal with
  | |- forall _, _ => intro
  | |- returns (bind _ _) => apply returns_bind
  | |- returns (try_catch _ _) => apply returns_try_catch
  | |- returns (try_finally _ _) => apply returns_try_finally
  | |- returns (ret _) => apply returns_ret
  | |- returns (read _) => apply returns_read
  | |- returns (modify _) => apply returns_modify
  | |- returns (if ?c then _ else _) => destruct c
  | |- returns (match ?x with _ => _ end) => destruct x
  end.

Lemma stopRecording_returns env render : returns (stopRecording env render).
Proof.
  unfold stopRecording, process_recording, setError, setIsRecording, setIsPaused,
    setTranscribing, setLoading.
  repeat returns_step.
Qed.

Lemma handle_returns env ev : returns (handle env ev).
Proof.
  unfold handle. apply returns_bind; [apply returns_read|]. intros render.
  destruct ev.
  - unfold startRecording, setError, setAudioSupported. repeat returns_step.
  - unfold pauseRecording, setError. repeat returns_step.
  - unfold resumeRecording, setError. repeat returns_step.
  - apply stopRecording_returns.
  - unfold testWithSampleText, setError, setTranscribing, setLoading. repeat returns_step.
  - unfold setSpeechService. repeat returns_step.
  - unfold ondataavailable. repeat returns_step.
  - unfold onstop, setError. repeat returns_step.
  - unfold watchdog_callback, setDuration.
    repeat returns_step; apply stopRecording_returns.
Qed.

(** *** The watchdog interval in the worlds that are reached *)

Lemma stopRecording_keeps_intervals env render s :
  preserves (registered_for s) (stopRecording env render).
Proof.
  unfold stopRecording, process_recording, process_audio, transcribe_selected,
    call_transcribeAudio, call_transcribeWithGoogleSpeech, summarize_and_store,
    call_summarizeMeeting, recorder_stop, localStorage_setItem,
    setError, setIsRecording, setIsPaused, setTranscribing, setLoading,
    setTranscript, setSummary, setSummaryHistory.
  preserve_frame.
Qed.

Lemma handle_keeps_intervals env ev s : preserves (registered_for s) (handle env ev).
Proof.
  unfold handle. apply preserves_bind; [apply preserves_read|]. intros render.
  destruct ev.
  - unfold startRecording, setError, setIsRecording, setStartTime, setAudioSupported.
    preserve_frame.
  - unfold pauseRecording, setError, setIsPaused. preserve_frame.
  - unfold resumeRecording, setError, setIsPaused. preserve_frame.
  - apply stopRecording_keeps_intervals.
  - unfold testWithSampleText, summarize_and_store, call_summarizeMeeting,
      localStorage_setItem, setError, setTranscribing, setLoading, setTranscript,
      setSummary, setSummaryHistory.
    preserve_frame.
  - unfold setSpeechService. preserve_frame.
  - unfold ondataavailable. preserve_frame.
  - unfold onstop, setError, setAudioURL. preserve_frame.
  - apply preserves_bind; [apply preserves_read|]. intros timers.
    destruct (find_interval id timers) as [created_by|]; [|apply preserves_ret].
    unfold watchdog_callback.
    destruct (startTime created_by); [|apply preserves_ret].
    apply preserves_bind; [unfold setDuration; preserve_frame|]. intros _.
    destruct (maxRecordingDuration <=? _);
      [apply stopRecording_keeps_intervals | apply preserves_ret].
Qed.

Lemma deps_changed_false prev cur :
  deps_changed prev cur = false ->
  startTime cur = startTime prev /\ isPaused cur = isPaused prev.
Proof.
  unfold deps_changed. intros H. apply negb_false_iff in H.
  apply andb_true_iff in H. destruct H as [Hs Hp].
  apply Bool.eqb_prop in Hp. split; [|congruence].
  destruct (startTime prev), (startTime cur); try discriminate; [|reflexivity].
  apply andb_true_iff in Hs. destruct Hs as [_ Hs].
  apply Z.eqb_eq in Hs. congruence.
Qed.

(** The cleanup of the effect leaves no interval registered. *)
Lemma cleanup_clears s w :
  registered_for s w ->
  intervals (snd (watchdog_cleanup w)) = [] /\
  state (snd (watchdog_cleanup w)) = state w /\
  durationIntervalRef (snd (watchdog_cleanup w)) = durationIntervalRef w.
Proof.
  unfold registered_for, watchdog_cleanup, clear_duration_interval, clearInterval,
    bind, read, modify.
  intros H.
  destruct (startTime s) as [start|]; [destruct (isPaused s)|].
  - destruct (durationIntervalRef w) eqn:Href; cbn; rewrite ?H; cbn; auto.
  - destruct H as (id & render & Href & Hint & _). rewrite Href. cbn.
    rewrite Hint. cbn. rewrite Nat.eqb_refl. auto.
  - destruct (durationIntervalRef w) eqn:Href; cbn; rewrite ?H; cbn; auto.
Qed.

Lemma effect_registers cur w :
  intervals w = [] ->
  state w = cur ->
  registered_for cur (snd (watchdog_effect cur w)).
Proof.
  intros Hint Hstate.
  unfold registered_for, watchdog_effect, clear_duration_interval, clearInterval,
    setInterval, bind, read, modify.
  destruct (startTime cur) as [start|] eqn:Hstart; [destruct (isPaused cur)|]; cbn.
  - destruct (durationIntervalRef w); cbn; rewrite ?Hint; reflexivity.
  - exists (next_interval w), cur. rewrite Hint. auto.
  - destruct (durationIntervalRef w); cbn; rewrite ?Hint; reflexivity.
Qed.

Lemma rerender_run prev w :
  rerender prev w =
  if deps_changed prev (state w)
  then watchdog_effect (state w) (snd (watchdog_cleanup w))
  else (Returns tt, w).
Proof.
  unfold rerender, bind, read. destruct (deps_changed prev (state w)); [|reflexivity].
  unfold watchdog_cleanup, clear_duration_interval, clearInterval, bind, read, modify.
  destruct (durationIntervalRef w); reflexivity.
Qed.

Lemma watchdog_effect_state cur w :
  state (snd (watchdog_effect cur w)) = state w.
Proof.
  unfold watchdog_effect, clear_duration_interval, clearInterval, setInterval,
    bind, read, modify.
  destruct (startTime cur); [destruct (isPaused cur)|];
    cbn; try destruct (durationIntervalRef w); reflexivity.
Qed.

Lemma rerender_registers prev w :
  registered_for prev w -> watchdog_registered (snd (rerender prev w)).
Proof.
  intros H. unfold watchdog_registered. rewrite rerender_run.
  destruct (deps_changed prev (state w)) eqn:Hdeps.
  - destruct (cleanup_clears prev w H) as (Hint & Hstate & Href).
    rewrite watchdog_effect_state, Hstate.
    apply effect_registers; assumption.
  - cbn. apply deps_changed_false in Hdeps. destruct Hdeps as [Hs Hp].
    unfold registered_for in *. rewrite Hs, Hp. exact H.
Qed.

Lemma step_registers env ev w :
  watchdog_registered w -> watchdog_registered (step env ev w).
Proof.
  intros H. unfold step, exec. unfold bind.
  pose proof (handle_keeps_intervals env ev (state w) w H) as Hframe.
  destruct (handle_returns env ev w) as [[] Hret].
  destruct (handle env ev w) as [o w1]. cbn in Hret, Hframe. subst o.
  apply rerender_registers. exact Hframe.
Qed.

Lemma run_registers trace w :
  watchdog_registered w -> watchdog_registered (run trace w).
Proof.
  revert w. induction trace as [|[env ev] trace IH]; intros w Hw; cbn.
  - exact Hw.
  - apply IH. apply step_registers. exact Hw.
Qed.

Lemma mounted_registered env stored : watchdog_registered (mounted env stored).
Proof.
  pose (P := fun w : World => startTime (state w) = None /\ intervals w = []).
  assert (Hclear : preserves P clear_duration_interval).
  { intros w [Hs Hi]. unfold P, clear_duration_interval, clearInterval, bind, read, modify.
    destruct (durationIntervalRef w); cbn; rewrite ?Hi; auto. }
  assert (Hmount : P (mounted env stored)).
  { unfold mounted, exec, mount. unfold bind at 1, read at 1.
    cbn [state initial_world initial_state watchdog_effect startTime].
    apply (preserves_bind P).
    - unfold check_effect, setAudioSupported, setError, setSpeechService. preserve_frame.
    - intros _. apply preserves_bind; [|intros _; exact Hclear].
      unfold load_effect, setSummaryHistory. preserve_frame.
    - split; reflexivity. }
  destruct Hmount as [Hs Hi].
  unfold watchdog_registered, registered_for. rewrite Hs. exact Hi.
Qed.

(** In every world reached from the mounted component, the watchdog interval
    is registered exactly while a start time is held and the recording is
    not paused. *)
Lemma reachable_registered env stored trace :
  watchdog_registered (run trace (mounted env stored)).
Proof. apply run_registers. apply mounted_registered. Qed.

(** The watchdog does not tick while paused: in a reached world that is
    paused no interval is registered, and whatever interval the browser
    might still fire changes nothing. *)
Lemma no_tick_while_paused env stored trace env' id now :
  let w := run trace (mounted env stored) in
  isPaused (state w) = true ->
  intervals w = [] /\ step env' (IntervalFires id now) w = w.
Proof.
  intros w Hp.
  assert (Hint : intervals w = []).
  { pose proof (reachable_registered env stored trace) as H.
    fold w in H. unfold watchdog_registered, registered_for in H.
    rewrite Hp in H. destruct (startTime (state w)); exact H. }
  split; [exact Hint|].
  apply tick_of_cleared_interval. rewrite Hint. reflexivity.
Qed.

(** C4, at a failing run: a session started at clock 0 with the duration
    cell at 0, ticked every second. The tick of second 1000 stops the
    recording through the handler of the render that created the interval,
    so the record it stores has duration 0; a [stop()] by the user at that
    instant stores duration 1000 (999 just before the tick). The interval
    stays registered after the stop. *)
Theorem auto_stop_records_stale_duration :
  let env := Fixture.env_ok in
  let before :=
    run (Fixture.session_start env ++ Fixture.ticks env 1 999) (mounted (env 0) None) in
  let auto := step (env 1000000) (IntervalFires 1 1000000) before in
  let manual := step (env 1000000) ClickStop (with_state (set_duration 1000) before) in
  let manual_before := step (env 999900) ClickStop before in
  duration (state before) = 999 /\
  isRecording (state before) = true /\
  isRecording (state auto) = false /\
  map ms_duration (summaryHistory (state auto)) = [0] /\
  map ms_duration (summaryHistory (state manual)) = [1000] /\
  map ms_duration (summaryHistory (state manual_before)) = [999] /\
  localStorage auto <> localStorage manual /\
  map fst (intervals auto) = [1%nat].
Proof.
  vm_compute. repeat split; try reflexivity. discriminate.
Qed.

(** ** The scenario of the specification

    Start at clock 0, three chunks, a tick every second, stop by the user
    after second 12: one artifact of the three chunks, duration 12, the
    transcript and the summary of the services, the record at index 0. *)
Example scenario_twelve_seconds :
  let env := Fixture.env_ok in
  let recording :=
    run (Fixture.session_start env ++ Fixture.ticks env 1 12) (mounted (env 0) None) in
  let w := run [(env 12400, ClickStop); (env 12400, RecorderStop)] recording in
  artifact recording = new_Blob Fixture.three_chunks "audio/webm" /\
  summaryHistory (state w) =
    [mkMeetingSummary "12400" "12400" 12 "Team discussed hello world." "hello world"] /\
  audioURL (state w) = Some "blob:recording" /\
  Idle (state w).
Proof. vm_compute. repeat split; reflexivity. Qed.

(** * Further properties of the code *)

(** ** Handlers as a whole *)

(** X1. No error escapes a handler of the component: whatever the
    environment does (a rejected microphone, a recorder that throws, a
    failing service), every event handler returns normally. *)
Theorem no_error_escapes_a_handler env ev w : fst (handle env ev w) = Returns tt.
Proof. destruct (handle_returns env ev w) as [[] H]. exact H. Qed.

(** X2. After every event of a run that starts at the mounted component,
    [transcribing] and [loading] are false again: no path through a
    handler, failing or not, leaves a progress indicator on. *)
Theorem progress_flags_are_lowered_after_every_event env stored trace :
  transcribing (state (run trace (mounted env stored))) = false /\
  loading (state (run trace (mounted env stored))) = false.
Proof. apply (reachable_settled env stored trace). Qed.

(** X3. In every world reached from the mounted component the browser holds
    at most one watchdog interval; it holds none before the first start and
    none while the recording is paused; the one it holds is the interval
    [durationIntervalRef] names and was created for the start time in the
    cells. *)
Theorem at_most_one_watchdog_interval env stored trace :
  let w := run trace (mounted env stored) in
  (length (intervals w) <= 1)%nat /\
  (startTime (state w) = None -> intervals w = []) /\
  (isPaused (state w) = true -> intervals w = []) /\
  (forall id render,
     In (id, render) (intervals w) ->
     durationIntervalRef w = Some id /\ startTime render = startTime (state w)).
Proof.
  intros w. pose proof (reachable_registered env stored trace) as H. fold w in H.
  unfold watchdog_registered, registered_for in H.
  destruct (startTime (state w)) as [start|]; [destruct (isPaused (state w))|].
  - rewrite H. cbn. split; [lia|]. split; [auto|]. split; [auto|]. intros ? ? [].
  - destruct H as (id & render & Href & Hint & Hstart). rewrite Hint. cbn.
    split; [lia|]. split; [discriminate|]. split; [discriminate|].
    intros id' render' [[= <- <-] | []]. split; assumption.
  - rewrite H. cbn. split; [lia|]. split; [auto|]. split; [auto|]. intros ? ? [].
Qed.

(** X4. [transcribeAudio] never returns a blank text: what it returns is
    the text of the service when that is not blank, the no-speech sentence,
    or a failure sentence. *)
Theorem transcribeAudio_returns_no_blank_text env audioBlob :
  match Huggingface.transcribeAudio env audioBlob with
  | Returns text => is_blank text = false
  | Throws _ => True
  end.
Proof.
  destruct (Huggingface.transcribeAudio env audioBlob) as [text|t] eqn:H; [|exact I].
  apply (transcribeAudio_never_blank env audioBlob text H).
Qed.

(** ** Ending a session *)

Lemma process_recording_keeps_recorder env render (R : option MediaRecorder) :
  preserves (fun w => mediaRecorderRef w = R) (process_recording env render).
Proof.
  unfold process_recording, process_audio, transcribe_selected,
    call_transcribeAudio, call_transcribeWithGoogleSpeech, summarize_and_store,
    call_summarizeMeeting, localStorage_setItem,
    setError, setTranscribing, setLoading, setTranscript, setSummary,
    setSummaryHistory.
  preserve_frame.
Qed.

(** After [recorder.stop()] returned, the recorder is inactive with its
    tracks stopped, whatever the rest of [stopRecording] does. *)
Lemma stopRecording_releases env render w r :
  mediaRecorderRef w = Some r ->
  rec_state r <> inactive ->
  MediaRecorder_stop env = Returns tt ->
  mediaRecorderRef (exec (stopRecording env render) w) =
    Some (mkMediaRecorder inactive (mimeType r) false).
Proof.
  intros Href Hact Hstop. unfold exec.
  rewrite (stopRecording_active env render w r Href Hact Hstop).
  apply (process_recording_keeps_recorder env render _ (stopped r w)). reflexivity.
Qed.

Lemma stopRecording_ends_session env render w :
  MediaRecorder_stop env = Returns tt ->
  no_session (exec (stopRecording env render) w).
Proof.
  intros Hstop. destruct (mediaRecorderRef w) as [r|] eqn:Href.
  - destruct (rec_state r) eqn:Hst.
    + unfold exec. rewrite stopRecording_no_session; [|right; exists r; auto].
      right. exists r. auto.
    + right. exists (mkMediaRecorder inactive (mimeType r) false). split; [|reflexivity].
      apply (stopRecording_releases env render w r Href); [|exact Hstop].
      rewrite Hst. discriminate.
    + right. exists (mkMediaRecorder inactive (mimeType r) false). split; [|reflexivity].
      apply (stopRecording_releases env render w r Href); [|exact Hstop].
      rewrite Hst. discriminate.
  - unfold exec. rewrite stopRecording_no_session; [|left; exact Href].
    left. exact Href.
Qed.

(** X5. A [stop()] whose [recorder.stop()] returns ends the session: the
    recorder is inactive and the microphone tracks are stopped, whether
    transcription and summarization then succeed or fail; a further
    [stop()], by any handler, changes nothing. *)
Theorem stop_ends_the_session env w :
  MediaRecorder_stop env = Returns tt ->
  no_session (stop env w) /\
  (session_active w ->
   exists r, mediaRecorderRef (stop env w) = Some r /\
             rec_state r = inactive /\ tracks_live r = false) /\
  (forall env' render,
     stopRecording env' render (stop env w) = (Returns tt, stop env w)).
Proof.
  intros Hstop.
  pose proof (stopRecording_ends_session env (state w) w Hstop) as Hno.
  split; [exact Hno|]. split.
  - intros (r & Href & Hact). exists (mkMediaRecorder inactive (mimeType r) false).
    split; [|split; reflexivity].
    unfold stop. apply (stopRecording_releases env (state w) w r Href Hact Hstop).
  - intros env' render. apply stopRecording_no_session. exact Hno.
Qed.

Lemma stop_ends_the_session_witness :
  let env := Fixture.env_ok 12500 in
  let w := Fixture.recording_world huggingface Fixture.three_chunks 12 in
  mediaRecorderRef (stop env w) = Some (mkMediaRecorder inactive "audio/webm" false) /\
  stop env (stop env w) = stop env w.
Proof.
  intros env w.
  destruct (stop_ends_the_session env w eq_refl) as (_ & _ & Hagain).
  split.
  - vm_compute. reflexivity.
  - unfold stop at 1. unfold exec. rewrite Hagain. reflexivity.
Defined.

(** ** Unmounting *)

Lemma clear_duration_interval_frame w :
  state (snd (clear_duration_interval w)) = state w /\
  mediaRecorderRef (snd (clear_duration_interval w)) = mediaRecorderRef w /\
  audioChunksRef (snd (clear_duration_interval w)) = audioChunksRef w /\
  localStorage (snd (clear_duration_interval w)) = localStorage w /\
  calls (snd (clear_duration_interval w)) = calls w /\
  fst (clear_duration_interval w) = Returns tt.
Proof.
  unfold clear_duration_interval, clearInterval, bind, read, modify.
  destruct (durationIntervalRef w); cbn; repeat split; reflexivity.
Qed.

Lemma unmount_run env w :
  exec (unmount env) w =
  snd (clear_duration_interval
         (exec (stopRecording env initial_state) (snd (clear_duration_interval w)))).
Proof.
  unfold exec, unmount, watchdog_cleanup. unfold bind at 1.
  destruct (clear_duration_interval_frame w) as (_ & _ & _ & _ & _ & Hret).
  destruct (clear_duration_interval w) as [o w1]. cbn in Hret. subst o.
  unfold bind. cbn [snd].
  destruct (stopRecording_returns env initial_state w1) as [[] Hr].
  destruct (stopRecording env initial_state w1) as [o w2]. cbn in Hr. subst o.
  reflexivity.
Qed.

(** X6. Unmounting the component during a recording runs the
    [stopRecording] of the first render, whose history is empty and whose
    service is Hugging Face: when that run succeeds, the entry written to
    [localStorage] holds the new record alone, whatever the history and the
    persisted entry were, and whatever service was selected. *)
Theorem unmount_stores_the_new_record_alone env w r text meetingSummary :
  mediaRecorderRef w = Some r ->
  rec_state r <> inactive ->
  MediaRecorder_stop env = Returns tt ->
  audioChunksRef w <> [] ->
  1000 <= blob_size (artifact w) ->
  selected_client env huggingface (artifact w) = Returns text ->
  is_blank text = false ->
  truthy_opt (VITE_GEMINI_API_KEY (meta_env env)) = true ->
  summarizeMeeting env text = Returns meetingSummary ->
  localStorage (exec (unmount env) w) =
    Some (JSON_stringify env [newSummary env 0 meetingSummary text]).
Proof.
  intros Href Hact Hstop Hne Hsize Hsel Hblank Hkey Hsum.
  rewrite unmount_run.
  destruct (clear_duration_interval_frame w) as (Hs & Hr & Hc & Hl & _).
  set (w1 := snd (clear_duration_interval w)) in *.
  assert (Hart : artifact w1 = artifact w) by (unfold artifact; rewrite Hr, Hc; reflexivity).
  match goal with |- localStorage (snd (clear_duration_interval ?x)) = _ =>
    destruct (clear_duration_interval_frame x) as (_ & _ & _ & Hl2 & _) end.
  rewrite Hl2. unfold exec.
  rewrite (stopRecording_transcribes env initial_state w1 r);
    [| rewrite Hr; exact Href | exact Hact | exact Hstop | rewrite Hc; exact Hne
     | rewrite Hart; exact Hsize].
  rewrite Hart. cbn [speechService initial_state]. rewrite Hsel, Hblank, Hkey, Hsum.
  reflexivity.
Qed.

Lemma unmount_stores_the_new_record_alone_witness :
  let env := Fixture.env_ok 99000 in
  let w := Fixture.second_recording in
  speechService (state w) = google /\
  localStorage w = Some "[12500:12:hello world:Team discussed hello world.]" /\
  localStorage (exec (unmount env) w) =
    Some "[99000:0:hello world:Team discussed hello world.]".
Proof.
  intros env w. split; [vm_compute; reflexivity|]. split; [vm_compute; reflexivity|].
  rewrite (unmount_stores_the_new_record_alone env w Fixture.recorder "hello world"
             "Team discussed hello world.").
  - vm_compute. reflexivity.
  - vm_compute. reflexivity.
  - discriminate.
  - reflexivity.
  - vm_compute. discriminate.
  - vm_compute. discriminate.
  - vm_compute. reflexivity.
  - vm_compute. reflexivity.
  - reflexivity.
  - vm_compute. reflexivity.
Defined.

Lemma clear_keeps_no_interval w :
  intervals w = [] -> intervals (snd (clear_duration_interval w)) = [].
Proof.
  intros H. apply (cleanup_clears initial_state w). exact H.
Qed.

(** X7. Unmounting leaves nothing running: in a world reached from the
    mounted component, after the cleanups no interval is registered, and,
    when [recorder.stop()] returns, no recording session is active. *)
Theorem unmount_leaves_nothing_running env0 stored trace env :
  MediaRecorder_stop env = Returns tt ->
  intervals (exec (unmount env) (run trace (mounted env0 stored))) = [] /\
  no_session (exec (unmount env) (run trace (mounted env0 stored))).
Proof.
  intros Hstop. rewrite unmount_run.
  set (w := run trace (mounted env0 stored)).
  pose proof (reachable_registered env0 stored trace) as Hreg. fold w in Hreg.
  destruct (cleanup_clears (state w) w Hreg) as (Hint & _).
  unfold watchdog_cleanup in Hint.
  set (w1 := snd (clear_duration_interval w)) in *.
  pose proof (stopRecording_keeps_intervals env initial_state initial_state w1 Hint) as Hkeep.
  pose proof (stopRecording_ends_session env initial_state w1 Hstop) as Hno.
  unfold exec in *.
  set (w2 := snd (stopRecording env initial_state w1)) in *.
  split.
  - apply clear_keeps_no_interval. exact Hkeep.
  - destruct (clear_duration_interval_frame w2) as (_ & Hr & _).
    unfold no_session in *. rewrite Hr. exact Hno.
Qed.

Lemma unmount_leaves_nothing_running_witness :
  intervals (exec (unmount (Fixture.env_ok 99000)) Fixture.second_recording) = [] /\
  intervals Fixture.second_recording <> [].
Proof.
  split.
  - unfold Fixture.second_recording.
    apply (unmount_leaves_nothing_running (Fixture.env_ok 0) None Fixture.second_trace
             (Fixture.env_ok 99000)).
    reflexivity.
  - vm_compute. discriminate.
Defined.

(** ** Starting, pausing and resuming *)

Lemma watchdog_effect_frame cur w :
  state (snd (watchdog_effect cur w)) = state w /\
  mediaRecorderRef (snd (watchdog_effect cur w)) = mediaRecorderRef w /\
  audioChunksRef (snd (watchdog_effect cur w)) = audioChunksRef w /\
  localStorage (snd (watchdog_effect cur w)) = localStorage w /\
  calls (snd (watchdog_effect cur w)) = calls w.
Proof.
  unfold watchdog_effect.
  destruct (startTime cur); [destruct (isPaused cur)|]; cbn [negb];
    try (destruct (clear_duration_interval_frame w) as (? & ? & ? & ? & ? & _);
         repeat split; assumption).
Qed.

(** Rendering after a handler touches the interval table only. *)
Lemma rerender_frame prev w :
  state (snd (rerender prev w)) = state w /\
  mediaRecorderRef (snd (rerender prev w)) = mediaRecorderRef w /\
  audioChunksRef (snd (rerender prev w)) = audioChunksRef w /\
  localStorage (snd (rerender prev w)) = localStorage w /\
  calls (snd (rerender prev w)) = calls w.
Proof.
  rewrite rerender_run. destruct (deps_changed prev (state w)); [|cbn; auto].
  unfold watchdog_cleanup.
  destruct (clear_duration_interval_frame w) as (Hs & Hr & Hc & Hl & Hk & _).
  destruct (watchdog_effect_frame (state w) (snd (clear_duration_interval w)))
    as (Hs' & Hr' & Hc' & Hl' & Hk').
  rewrite Hs', Hr', Hc', Hl', Hk'. auto.
Qed.

Lemma step_frame env ev w :
  state (step env ev w) = state (exec (handle env ev) w) /\
  mediaRecorderRef (step env ev w) = mediaRecorderRef (exec (handle env ev) w) /\
  audioChunksRef (step env ev w) = audioChunksRef (exec (handle env ev) w) /\
  localStorage (step env ev w) = localStorage (exec (handle env ev) w) /\
  calls (step env ev w) = calls (exec (handle env ev) w).
Proof.
  unfold step, exec. unfold bind.
  destruct (handle_returns env ev w) as [[] Hret].
  destruct (handle env ev w) as [o w1]. cbn in Hret. subst o. cbn [snd].
  apply rerender_frame.
Qed.

Lemma handle_ClickStart env w :
  handle env ClickStart w = startRecording env (state w) w.
Proof. reflexivity. Qed.

(** The two outcomes of [startRecording]. *)
Lemma startRecording_run env render w :
  exists m,
    startRecording env render w =
    (Returns tt,
     if start_allowed env render
     then with_state (set_startTime (Some (new_Date env)))
            (with_state (set_isRecording true)
               (with_mediaRecorderRef
                  (Some (mkMediaRecorder recording (chosen_mimeType env) true))
                  (with_audioChunksRef [] (with_state (set_error None) w))))
     else with_state (set_audioSupported false)
            (with_state (set_error (Some m)) (with_state (set_error None) w))).
Proof.
  unfold startRecording, start_allowed, try_catch, bind, setError, setIsRecording,
    setStartTime, setAudioSupported, modify, ret, throw, await.
  destruct (SpeechService_eqb (speechService render) huggingface
            && negb (api_huggingface (apiStatus render)))%bool;
    [eexists; cbn; reflexivity|].
  destruct (SpeechService_eqb (speechService render) google
            && negb (api_googleSpeech (apiStatus render)))%bool;
    [eexists; cbn; reflexivity|].
  destruct (api_gemini (apiStatus render)); [|eexists; cbn; reflexivity].
  destruct (mediaDevices_supported env); [|eexists; cbn; reflexivity].
  destruct (getUserMedia env) as [[]|t]; eexists; cbn; reflexivity.
  Unshelve. all: exact EmptyString.
Qed.

(** For a property that the writes of the handler at hand keep or
    establish. *)
Ltac preserve_or_establish :=
  repeat preserve_step;
  first [ reflexivity | match goal with H : _ |- _ => exact H end ].

Lemma stopRecording_keeps_unsupported env render :
  preserves (fun w => audioSupported (state w) = false) (stopRecording env render).
Proof.
  unfold stopRecording, process_recording, process_audio, transcribe_selected,
    call_transcribeAudio, call_transcribeWithGoogleSpeech, summarize_and_store,
    call_summarizeMeeting, recorder_stop, localStorage_setItem,
    setError, setIsRecording, setIsPaused, setTranscribing, setLoading,
    setTranscript, setSummary, setSummaryHistory.
  preserve_frame.
Qed.

(** Nothing in the component sets [audioSupported] back to true. *)
Lemma handle_keeps_unsupported env ev :
  preserves (fun w => audioSupported (state w) = false) (handle env ev).
Proof.
  unfold handle. apply preserves_bind; [apply preserves_read|]. intros render.
  destruct ev.
  - unfold startRecording, setError, setIsRecording, setStartTime, setAudioSupported.
    preserve_or_establish.
  - unfold pauseRecording, setError, setIsPaused. preserve_frame.
  - unfold resumeRecording, setError, setIsPaused. preserve_frame.
  - apply stopRecording_keeps_unsupported.
  - unfold testWithSampleText, summarize_and_store, call_summarizeMeeting,
      localStorage_setItem, setError, setTranscribing, setLoading, setTranscript,
      setSummary, setSummaryHistory.
    preserve_frame.
  - unfold setSpeechService. preserve_frame.
  - unfold ondataavailable. preserve_frame.
  - unfold onstop, setError, setAudioURL. preserve_frame.
  - apply preserves_bind; [apply preserves_read|]. intros timers.
    destruct (find_interval id timers) as [created_by|]; [|apply preserves_ret].
    unfold watchdog_callback.
    destruct (startTime created_by); [|apply preserves_ret].
    apply preserves_bind; [unfold setDuration; preserve_frame|]. intros _.
    destruct (maxRecordingDuration <=? _);
      [apply stopRecording_keeps_unsupported | apply preserves_ret].
Qed.

Lemma run_keeps_unsupported trace w :
  audioSupported (state w) = false -> audioSupported (state (run trace w)) = false.
Proof.
  revert w. induction trace as [|[env ev] trace IH]; intros w Hw; cbn; [exact Hw|].
  apply IH. destruct (step_frame env ev w) as (Hs & _). rewrite Hs.
  apply (handle_keeps_unsupported env ev w Hw).
Qed.

(** X8. A start that fails, for whatever reason (the key of the selected
    service or the Gemini key missing, no capture support, the microphone
    refused), starts nothing, shows a message, and marks audio as
    unsupported; nothing sets that mark back, so the Start button is
    disabled for the rest of the run. *)
Theorem failed_start_disables_the_start_button env w trace :
  start_allowed env (state w) = false ->
  let w' := step env ClickStart w in
  (exists m, error (state w') = Some m) /\
  mediaRecorderRef w' = mediaRecorderRef w /\
  audioChunksRef w' = audioChunksRef w /\
  isRecording (state w') = isRecording (state w) /\
  startTime (state w') = startTime (state w) /\
  audioSupported (state w') = false /\
  start_disabled (state (run trace w')) = true.
Proof.
  intros Hno w'.
  destruct (step_frame env ClickStart w) as (Hs & Hr & Hc & _).
  fold w' in Hs, Hr, Hc. unfold exec in *. rewrite handle_ClickStart in *.
  destruct (startRecording_run env (state w) w) as [m Hrun].
  rewrite Hrun, Hno in *. cbn [snd] in *.
  assert (Hun : audioSupported (state w') = false) by (rewrite Hs; reflexivity).
  rewrite Hs, Hr, Hc. cbn.
  split; [exists m; reflexivity|]. repeat split; auto.
  unfold start_disabled. rewrite (run_keeps_unsupported trace w' Hun). reflexivity.
Qed.

Lemma failed_start_disables_the_start_button_witness :
  let granted := Fixture.env_ok 0 in
  let env := Fixture.microphone_refused in
  let w := mounted granted None in
  error (state (step env ClickStart w)) = Some "Permission denied" /\
  start_disabled (state (run [(granted, ClickStart)] (step env ClickStart w))) = true.
Proof.
  intros granted env w.
  destruct (failed_start_disables_the_start_button env w [(granted, ClickStart)])
    as (_ & _ & _ & _ & _ & _ & Hdis).
  - vm_compute. reflexivity.
  - split; [vm_compute; reflexivity | exact Hdis].
Defined.

(** X9. A start whose checks pass opens a session: a recorder in state
    [recording] with live tracks, an empty chunk buffer, [isRecording]
    raised, the start time read from the clock and the error slot cleared.
    The transcript, the summary, the playback URL, the duration and the
    history of the previous meeting stay as they were. *)
Theorem start_opens_a_session env w :
  start_allowed env (state w) = true ->
  let w' := step env ClickStart w in
  mediaRecorderRef w' = Some (mkMediaRecorder recording (chosen_mimeType env) true) /\
  audioChunksRef w' = [] /\
  isRecording (state w') = true /\
  startTime (state w') = Some (new_Date env) /\
  error (state w') = None /\
  transcript (state w') = transcript (state w) /\
  summary (state w') = summary (state w) /\
  audioURL (state w') = audioURL (state w) /\
  duration (state w') = duration (state w) /\
  summaryHistory (state w') = summaryHistory (state w) /\
  localStorage w' = localStorage w.
Proof.
  intros Hok w'.
  destruct (step_frame env ClickStart w) as (Hs & Hr & Hc & Hl & _).
  fold w' in Hs, Hr, Hc, Hl. unfold exec in *. rewrite handle_ClickStart in *.
  destruct (startRecording_run env (state w) w) as [m Hrun].
  rewrite Hrun, Hok in *. cbn [snd] in *.
  rewrite Hs, Hr, Hc, Hl. cbn. repeat split; reflexivity.
Qed.

Lemma start_opens_a_session_witness :
  let env := Fixture.env_ok 60000 in
  let w := run [(Fixture.env_ok 12500, ClickStop)]
             (Fixture.recording_world huggingface Fixture.three_chunks 12) in
  transcript (state (step env ClickStart w)) = "hello world" /\
  audioChunksRef (step env ClickStart w) = [] /\
  startTime (state (step env ClickStart w)) = Some 60000.
Proof.
  intros env w.
  destruct (start_opens_a_session env w) as (_ & Hc & _ & Hst & _ & Ht & _).
  - vm_compute. reflexivity.
  - rewrite Hc, Hst, Ht. repeat split; vm_compute; reflexivity.
Defined.

Lemma set_isPaused_back s :
  isPaused s = false -> set_isPaused false (set_isPaused true s) = s.
Proof. destruct s. cbn. intros ->. reflexivity. Qed.

(** X10. Pausing a running recording and resuming it, each click followed
    by its render: the cells, the recorder, the chunk buffer, the stored
    entry and the call log are afterwards as they were before the pause,
    the chunks being kept through it. The watchdog interval is not
    restored: the pause clears it, and the resume registers a new one,
    under the next identifier of the browser, whose callback belongs to the
    render after the resume. *)
Theorem pause_then_resume_renews_the_interval env env' w r start :
  mediaRecorderRef w = Some r ->
  rec_state r = recording ->
  isPaused (state w) = false ->
  startTime (state w) = Some start ->
  watchdog_registered w ->
  MediaRecorder_pause env = Returns tt ->
  MediaRecorder_resume env' = Returns tt ->
  let w1 := step env ClickPause w in
  let w2 := step env' ClickResume w1 in
  isPaused (state w1) = true /\
  mediaRecorderRef w1 = Some (mkMediaRecorder paused (mimeType r) (tracks_live r)) /\
  audioChunksRef w1 = audioChunksRef w /\
  intervals w1 = [] /\
  state w2 = state w /\
  mediaRecorderRef w2 = mediaRecorderRef w /\
  audioChunksRef w2 = audioChunksRef w /\
  localStorage w2 = localStorage w /\
  calls w2 = calls w /\
  durationIntervalRef w2 = Some (next_interval w) /\
  intervals w2 = [(next_interval w, state w)].
Proof.
  intros Href Hst Hp Hstart Hreg Hpause Hresume w1 w2.
  unfold watchdog_registered, registered_for in Hreg. rewrite Hstart, Hp in Hreg.
  destruct Hreg as (id & render & Hid & Hint & _).
  assert (H1 : w1 = with_intervals (Some id) [] (next_interval w)
                 (with_state (set_isPaused true)
                    (with_mediaRecorderRef
                       (Some (mkMediaRecorder paused (mimeType r) (tracks_live r))) w))).
  { unfold w1, step, exec, handle, pauseRecording, rerender.
    unfold bind, read, try_catch, await, modify, setIsPaused.
    rewrite Href, Hst. cbn. rewrite Hpause. cbn.
    unfold deps_changed. cbn. rewrite Hp, Hstart. cbn.
    rewrite andb_false_r. cbn.
    unfold watchdog_cleanup, clear_duration_interval, clearInterval, bind, read, modify; cbn.
    rewrite Hid. cbn. rewrite Hint. cbn. rewrite Nat.eqb_refl. cbn.
    unfold watchdog_effect. cbn. rewrite Hstart. cbn.
    unfold clear_duration_interval, clearInterval, bind, read, modify; cbn.
    rewrite Hid. reflexivity. }
  assert (H2 : w2 = with_intervals (Some (next_interval w))
                 [(next_interval w, state w)] (S (next_interval w)) w).
  { unfold w2. rewrite H1.
    unfold step, exec, handle, resumeRecording, rerender.
    unfold bind, read, try_catch, await, modify, setIsPaused.
    cbn. rewrite Hresume. cbn.
    rewrite (set_isPaused_back (state w) Hp).
    unfold deps_changed. cbn. rewrite Hp, Hstart. cbn.
    rewrite andb_false_r. cbn.
    unfold watchdog_cleanup, clear_duration_interval, clearInterval, bind, read, modify; cbn.
    unfold watchdog_effect. rewrite Hstart, Hp. cbn.
    unfold setInterval, modify. cbn.
    destruct w as [s rec chunks ref ints next stored log]. cbn in *.
    subst rec. destruct r as [st mime live]. cbn in *. subst st.
    unfold with_intervals, with_state, with_mediaRecorderRef. cbn.
    rewrite ?(set_isPaused_back s Hp). reflexivity. }
  rewrite H1, H2. cbn. repeat split; reflexivity.
Qed.

Lemma pause_then_resume_renews_the_interval_witness :
  let env := Fixture.env_ok 13000 in
  let w := Fixture.recording_world huggingface Fixture.three_chunks 12 in
  let w2 := step env ClickResume (step env ClickPause w) in
  state w2 = state w /\
  audioChunksRef w2 = Fixture.three_chunks /\
  map fst (intervals w) = [1%nat] /\
  map fst (intervals w2) = [2%nat].
Proof.
  intros env w w2.
  destruct (pause_then_resume_renews_the_interval env env w Fixture.recorder 0)
    as (_ & _ & _ & _ & Hs & _ & Hc & _ & _ & _ & Hi).
  - vm_compute. reflexivity.
  - reflexivity.
  - vm_compute. reflexivity.
  - vm_compute. reflexivity.
  - unfold watchdog_registered, registered_for. vm_compute.
    do 2 eexists. repeat split; reflexivity.
  - reflexivity.
  - reflexivity.
  - fold w2 in Hs, Hc, Hi. rewrite Hs, Hc, Hi. vm_compute. repeat split; reflexivity.
Defined.

(** ** Chunks and the artifact *)

(** An event that leaves the start time and the pause flag alone leaves the
    interval table alone. *)
Lemma step_without_rerender env ev w w1 :
  handle env ev w = (Returns tt, w1) ->
  startTime (state w1) = startTime (state w) ->
  startTime_ref (state w1) = startTime_ref (state w) ->
  isPaused (state w1) = isPaused (state w) ->
  step env ev w = w1.
Proof.
  intros Hh Hs Hr Hp. unfold step, exec. unfold bind. rewrite Hh.
  rewrite rerender_run, deps_unchanged by assumption. reflexivity.
Qed.

Lemma step_DataAvailable env b w :
  step env (DataAvailable (Some b)) w =
  if nonempty_blob b then with_audioChunksRef (audioChunksRef w ++ [b]) w else w.
Proof.
  unfold nonempty_blob.
  destruct (0 <? blob_size b) eqn:Hb; apply step_without_rerender; try reflexivity;
    unfold handle, ondataavailable, bind, read, modify, ret; rewrite Hb; reflexivity.
Qed.

Lemma empty_blob_has_no_data b : nonempty_blob b = false -> blob_data b = [].
Proof.
  unfold nonempty_blob, blob_size. intros H. apply Z.ltb_ge in H.
  destruct (blob_data b); [reflexivity | cbn in H; lia].
Qed.

Lemma data_of_nonempty_chunks bs :
  concat (map blob_data (filter nonempty_blob bs)) = concat (map blob_data bs).
Proof.
  induction bs as [|b bs IH]; [reflexivity|]. cbn.
  destruct (nonempty_blob b) eqn:Hb; cbn; rewrite IH; [reflexivity|].
  rewrite (empty_blob_has_no_data b Hb). reflexivity.
Qed.

(** X11. The chunks the recorder delivers are buffered in the order of
    arrival, the empty ones dropped; the recorder is left alone; and the
    artifact built from the buffer is the old artifact followed by the bytes
    of every delivered chunk, in order: dropping empty chunks loses no
    byte. *)
Theorem chunks_are_buffered_in_order env chunks w :
  let w' := run (deliver env chunks) w in
  audioChunksRef w' = (audioChunksRef w ++ filter nonempty_blob chunks)%list /\
  mediaRecorderRef w' = mediaRecorderRef w /\
  state w' = state w /\
  blob_data (artifact w') =
    (blob_data (artifact w) ++ concat (map blob_data chunks))%list.
Proof.
  cbv zeta.
  assert (H : audioChunksRef (run (deliver env chunks) w) =
              (audioChunksRef w ++ filter nonempty_blob chunks)%list /\
              mediaRecorderRef (run (deliver env chunks) w) = mediaRecorderRef w /\
              state (run (deliver env chunks) w) = state w).
  { revert w. induction chunks as [|b bs IH]; intros w.
    - cbn. rewrite app_nil_r. auto.
    - unfold deliver. cbn [map run filter]. fold (deliver env bs).
      destruct (IH (step env (DataAvailable (Some b)) w)) as (Hc & Hr & Hs).
      rewrite Hc, Hr, Hs, step_DataAvailable.
      destruct (nonempty_blob b); cbn; rewrite <- ?app_assoc; auto. }
  destruct H as (Hc & Hr & Hs). repeat split; try assumption.
  unfold artifact. rewrite Hc, Hr. cbn.
  rewrite map_app, concat_app, data_of_nonempty_chunks. reflexivity.
Qed.

(** X12. When the recorder has stopped, [onstop] publishes a playback URL
    for the artifact exactly when the buffer holds at least 1000 bytes, the
    threshold [stopRecording] uses before it transcribes, and leaves the
    error slot alone; below the threshold it publishes no URL and shows a
    message. *)
Theorem onstop_publishes_playable_audio env w :
  let w' := exec (onstop env) w in
  (1000 <= blob_size (artifact w) ->
   audioURL (state w') = Some (createObjectURL env (artifact w)) /\
   error (state w') = error (state w)) /\
  (blob_size (artifact w) < 1000 ->
   audioURL (state w') = audioURL (state w) /\
   exists m, error (state w') = Some m).
Proof.
  cbv zeta. unfold exec, onstop, try_catch, bind, read, throw, setAudioURL, setError,
    modify.
  fold (artifact w).
  destruct (Nat.eqb_spec (length (audioChunksRef w)) 0) as [Hlen|Hlen].
  - assert (Hsize : blob_size (artifact w) = 0).
    { unfold artifact, blob_size. destruct (audioChunksRef w); [reflexivity|discriminate]. }
    cbn. split; [lia|]. intros _. split; [reflexivity | eexists; reflexivity].
  - cbn beta iota.
    change (new_Blob (audioChunksRef w) (recorder_type (mediaRecorderRef w)))
      with (artifact w).
    destruct (Z.ltb_spec (blob_size (artifact w)) 1000); cbn; split; intros; try lia.
    + split; [reflexivity | eexists; reflexivity].
    + split; reflexivity.
Qed.

(** ** The sample run *)

Lemma testWithSampleText_run env render w :
  exec (testWithSampleText env render) w =
  finished
    (if negb (api_gemini (apiStatus render))
     then with_state (set_error (Some msg_gemini_key_missing)) (begun w)
     else
       let w1 := with_state (set_loading true)
                   (with_state (set_transcript sampleText) (begun w)) in
       match summarizeMeeting env sampleText with
       | Returns meetingSummary =>
           summarized env (summaryHistory render) 300 sampleText meetingSummary w1
       | Throws t =>
           with_state (set_error (Some (message_or "Failed to generate summary" t)))
             (with_call (CallSummarizeMeeting sampleText) w1)
       end).
Proof.
  unfold exec, testWithSampleText.
  unfold bind at 1, setTranscribing at 1, modify at 1.
  unfold bind at 1, setError at 1, modify at 1. fold (begun w).
  unfold try_finally, try_catch.
  destruct (negb (api_gemini (apiStatus render))); [reflexivity|].
  unfold bind at 1, setTranscript at 1, modify at 1.
  unfold bind at 1, setLoading at 1, modify at 1.
  destruct (summarizeMeeting env sampleText) as [meetingSummary|t] eqn:Hsum.
  - rewrite (summarize_and_store_ok _ _ _ _ meetingSummary) by exact Hsum. reflexivity.
  - rewrite (summarize_and_store_fails _ _ _ _ t) by exact Hsum. reflexivity.
Qed.

(** X13. The sample run never records and never transcribes: it leaves the
    recorder and the chunk buffer alone and calls no transcription client.
    With the Gemini key known to the render and a summary returned, it puts
    one record of duration 300 with the sample text in front of the history
    its render saw and stores that list; when the summary fails, or the key
    is missing, the history and the stored entry stay as they were and a
    message is shown. *)
Theorem sample_run_only_summarizes env render w :
  let w' := exec (testWithSampleText env render) w in
  mediaRecorderRef w' = mediaRecorderRef w /\
  audioChunksRef w' = audioChunksRef w /\
  filter is_transcription (calls w') = filter is_transcription (calls w) /\
  (api_gemini (apiStatus render) = false ->
   calls w' = calls w /\ error (state w') = Some msg_gemini_key_missing /\
   summaryHistory (state w') = summaryHistory (state w) /\
   localStorage w' = localStorage w) /\
  (api_gemini (apiStatus render) = true ->
   forall meetingSummary,
     summarizeMeeting env sampleText = Returns meetingSummary ->
     summaryHistory (state w') =
       newSummary env 300 meetingSummary sampleText :: summaryHistory render /\
     localStorage w' = Some (JSON_stringify env (summaryHistory (state w'))) /\
     error (state w') = None) /\
  (api_gemini (apiStatus render) = true ->
   forall t,
     summarizeMeeting env sampleText = Throws t ->
     summaryHistory (state w') = summaryHistory (state w) /\
     localStorage w' = localStorage w /\
     error (state w') = Some (message_or "Failed to generate summary" t)).
Proof.
  cbv zeta. rewrite testWithSampleText_run.
  destruct (api_gemini (apiStatus render)); cbn [negb].
  - destruct (summarizeMeeting env sampleText) as [meetingSummary|t]; cbn;
      rewrite ?filter_app; cbn; rewrite ?app_nil_r;
      repeat split; try reflexivity; try discriminate;
      intros; try discriminate;
      match goal with
      | H : Returns _ = Returns _ |- _ => injection H as <-
      | H : Throws _ = Throws _ |- _ => injection H as <-
      | _ => idtac
      end; repeat split; reflexivity.
  - cbn. repeat split; try reflexivity; intros; discriminate.
Qed.

(** ** Mounting *)

(** What the mount effects leave in the cells the Start button reads: the
    writes of the key check, whatever the load does. *)
Lemma mounted_cells env stored :
  let s := state (mounted env stored) in
  let c := state (exec (check_effect env) (initial_world stored)) in
  speechService s = speechService c /\
  apiStatus s = apiStatus c /\
  isRecording s = isRecording c /\
  audioSupported s = audioSupported c.
Proof.
  cbv zeta.
  set (c := state (exec (check_effect env) (initial_world stored))).
  pose (P := fun w : World =>
               speechService (state w) = speechService c /\
               apiStatus (state w) = apiStatus c /\
               isRecording (state w) = isRecording c /\
               audioSupported (state w) = audioSupported c).
  change (P (mounted env stored)).
  unfold mounted, exec, mount. unfold bind at 1, read at 1.
  cbn [state initial_world initial_state watchdog_effect startTime].
  unfold bind at 1.
  destruct (check_effect_frame env (initial_world stored)) as (Hret & _).
  unfold exec in c.
  destruct (check_effect env (initial_world stored)) as [o w1] eqn:Hcheck.
  cbn in Hret. subst o. cbn [snd] in c.
  apply (preserves_bind P).
  - unfold load_effect, setSummaryHistory. preserve_frame.
  - intros _. unfold clear_duration_interval, clearInterval. preserve_frame.
  - unfold P. repeat split; reflexivity.
Qed.

Lemma check_effect_cells env w :
  let c := state (exec (check_effect env) w) in
  apiStatus c =
    {| api_gemini := truthy_opt (VITE_GEMINI_API_KEY (meta_env env));
       api_huggingface := service_key env huggingface;
       api_googleSpeech := service_key env google |} /\
  speechService c =
    (if service_key env google then google
     else if service_key env huggingface then huggingface
     else speechService (state w)) /\
  isRecording c = isRecording (state w) /\
  audioSupported c = (audioSupported (state w) && mediaDevices_supported env)%bool.
Proof.
  unfold check_effect, exec, service_key.
  destruct (mediaDevices_supported env),
    (truthy_opt (VITE_GEMINI_API_KEY (meta_env env))),
    (truthy_opt (VITE_HUGGINGFACE_API_KEY (meta_env env))),
    (truthy_opt (VITE_GOOGLE_CLOUD_API_KEY (meta_env env)));
    cbn; rewrite ?andb_true_r, ?andb_false_r; repeat split; reflexivity.
Qed.

(** X14. Once mounted, the key flags mirror the environment, and the
    selected service is Google when its key is there and Hugging Face
    otherwise: whenever the environment holds the key of some speech
    service, the selected service is one whose key it holds. *)
Theorem mount_selects_a_service_with_a_key env stored :
  let s := state (mounted env stored) in
  apiStatus s =
    {| api_gemini := truthy_opt (VITE_GEMINI_API_KEY (meta_env env));
       api_huggingface := service_key env huggingface;
       api_googleSpeech := service_key env google |} /\
  speechService s = (if service_key env google then google else huggingface) /\
  (service_key env google || service_key env huggingface)%bool
    = service_key env (speechService s).
Proof.
  cbv zeta.
  destruct (mounted_cells env stored) as (Hs & Ha & _).
  destruct (check_effect_cells env (initial_world stored)) as (Ha' & Hs' & _).
  rewrite Hs, Ha, Ha', Hs'. cbn [state initial_world initial_state speechService].
  unfold service_key.
  destruct (truthy_opt (VITE_GOOGLE_CLOUD_API_KEY (meta_env env))) eqn:Hg;
    destruct (truthy_opt (VITE_HUGGINGFACE_API_KEY (meta_env env))) eqn:Hh;
    cbn; rewrite ?Hg, ?Hh; repeat split; reflexivity.
Qed.

(** X15. Right after the mount, a click on Start opens a session exactly
    when the browser can capture audio, the Gemini key and the key of some
    speech service are in the environment, and the microphone is granted. *)
Theorem start_right_after_mount env stored :
  isRecording (state (step env ClickStart (mounted env stored))) =
  (mediaDevices_supported env
   && truthy_opt (VITE_GEMINI_API_KEY (meta_env env))
   && (service_key env huggingface || service_key env google)
   && match getUserMedia env with
      | Returns _ => true
      | Throws _ => false
      end)%bool.
Proof.
  destruct (step_frame env ClickStart (mounted env stored)) as (Hs & _).
  rewrite Hs. unfold exec. rewrite handle_ClickStart.
  destruct (startRecording_run env (state (mounted env stored)) (mounted env stored))
    as [m Hrun].
  rewrite Hrun. cbn [snd].
  destruct (mounted_cells env stored) as (Hsvc & Hapi & Hrec & _).
  destruct (check_effect_cells env (initial_world stored)) as (Hapi' & Hsvc' & Hrec' & _).
  assert (Hallowed :
    start_allowed env (state (mounted env stored)) =
    (mediaDevices_supported env
     && truthy_opt (VITE_GEMINI_API_KEY (meta_env env))
     && (service_key env huggingface || service_key env google)
     && match getUserMedia env with
        | Returns _ => true
        | Throws _ => false
        end)%bool).
  { unfold start_allowed. rewrite Hsvc, Hapi, Hapi', Hsvc'.
    cbn [state initial_world initial_state speechService api_gemini api_huggingface
         api_googleSpeech].
    destruct (service_key env google), (service_key env huggingface),
      (truthy_opt (VITE_GEMINI_API_KEY (meta_env env))), (mediaDevices_supported env),
      (getUserMedia env); reflexivity. }
  rewrite Hallowed.
  destruct (_ && _ && _ && _)%bool; cbn; [reflexivity|].
  rewrite Hrec, Hrec'. reflexivity.
Qed.

Lemma watchdog_effect_returns cur w : fst (watchdog_effect cur w) = Returns tt.
Proof.
  unfold watchdog_effect, setInterval, clear_duration_interval, clearInterval,
    bind, read, modify.
  destruct (startTime cur); [destruct (isPaused cur)|]; cbn;
    try (destruct (durationIntervalRef w)); reflexivity.
Qed.

(** X16. The effects of the mount throw exactly when the persisted entry is
    there, is not empty, and is rejected by [JSON.parse]: the error is
    thrown inside the effect that loads the history, and nothing in the
    component catches it. *)
Theorem mount_throws_exactly_on_malformed_history env stored :
  (exists t, fst (mount env (initial_world stored)) = Throws t) <->
  (exists text,
     stored = Some text /\ truthy text = true /\ JSON_parse env text = None).
Proof.
  destruct (check_effect_frame env (initial_world stored))
    as (Hret & _ & _ & _ & Hstore & _).
  unfold exec in *.
  destruct (check_effect env (initial_world stored)) as [o w1] eqn:Hcheck.
  cbn [fst snd] in *. subst o.
  assert (Hmount : mount env (initial_world stored) =
                   match load_effect env w1 with
                   | (Returns _, w2) => watchdog_effect initial_state w2
                   | (Throws t, w2) => (Throws t, w2)
                   end).
  { unfold mount. unfold bind at 1, read at 1. unfold bind at 1. rewrite Hcheck.
    unfold bind at 1. reflexivity. }
  rewrite Hmount. unfold load_effect, bind, read, throw, setSummaryHistory, modify, ret.
  rewrite Hstore. cbn [localStorage initial_world].
  split.
  - intros [t Ht]. destruct stored as [text|]; cbn [truthy_opt] in Ht.
    + destruct (truthy text) eqn:Htruthy.
      * destruct (JSON_parse env text) eqn:Hparse.
        -- rewrite watchdog_effect_returns in Ht. discriminate.
        -- exists text. auto.
      * rewrite watchdog_effect_returns in Ht. discriminate.
    + rewrite watchdog_effect_returns in Ht. discriminate.
  - intros (text & -> & Htruthy & Hparse). cbn [truthy_opt].
    rewrite Htruthy, Hparse. eexists. reflexivity.
Qed.

(** ** Storing and loading the history *)

Lemma mount_loads_history env text records :
  truthy text = true ->
  JSON_parse env text = Some records ->
  summaryHistory (state (mounted env (Some text))) = records.
Proof.
  intros Htruthy Hparse.
  destruct (check_effect_frame env (initial_world (Some text)))
    as (Hret & _ & _ & _ & Hstore & _).
  unfold mounted, exec in *.
  destruct (check_effect env (initial_world (Some text))) as [o w1] eqn:Hcheck.
  cbn [fst snd] in *. subst o.
  unfold mount. unfold bind at 1, read at 1. unfold bind at 1. rewrite Hcheck.
  unfold bind at 1. unfold load_effect, bind at 1, read at 1.
  rewrite Hstore. cbn [localStorage initial_world truthy_opt].
  rewrite Htruthy, Hparse. unfold setSummaryHistory, modify.
  cbn [state initial_world initial_state startTime watchdog_effect].
  match goal with |- context [clear_duration_interval ?x] =>
    destruct (clear_duration_interval_frame x) as (Hs & _) end.
  rewrite Hs. reflexivity.
Qed.

(** X17. The history survives a reload: after a [stop()] that stored a new
    record, mounting the component afresh over the entry it wrote gives the
    same history, provided [JSON.parse] reads back what [JSON.stringify]
    wrote. *)
Theorem stored_history_survives_a_reload env env' w r text meetingSummary :
  mediaRecorderRef w = Some r ->
  rec_state r <> inactive ->
  MediaRecorder_stop env = Returns tt ->
  audioChunksRef w <> [] ->
  1000 <= blob_size (artifact w) ->
  selected_client env (speechService (state w)) (artifact w) = Returns text ->
  is_blank text = false ->
  truthy_opt (VITE_GEMINI_API_KEY (meta_env env)) = true ->
  summarizeMeeting env text = Returns meetingSummary ->
  truthy (JSON_stringify env (summaryHistory (state (stop env w)))) = true ->
  JSON_parse env' (JSON_stringify env (summaryHistory (state (stop env w))))
    = Some (summaryHistory (state (stop env w))) ->
  summaryHistory (state (mounted env' (localStorage (stop env w)))) =
  summaryHistory (state (stop env w)).
Proof.
  intros Href Hact Hstop Hne Hsize Hsel Hblank Hkey Hsum Htruthy Hparse.
  assert (Hstore : localStorage (stop env w) =
                   Some (JSON_stringify env (summaryHistory (state (stop env w))))).
  { unfold stop, exec.
    rewrite (stopRecording_transcribes env (state w) w r Href Hact Hstop Hne Hsize).
    rewrite Hsel, Hblank, Hkey, Hsum. reflexivity. }
  rewrite Hstore. apply mount_loads_history; assumption.
Qed.

Lemma stored_history_survives_a_reload_witness :
  let env := Fixture.env_ok 12500 in
  let w := Fixture.recording_world huggingface Fixture.three_chunks 12 in
  summaryHistory (state (mounted Fixture.env_reload (localStorage (stop env w)))) =
  Fixture.first_meeting.
Proof.
  intros env w.
  rewrite (stored_history_survives_a_reload env Fixture.env_reload w Fixture.recorder
             "hello world" "Team discussed hello world.").
  - vm_compute. reflexivity.
  - vm_compute. reflexivity.
  - discriminate.
  - reflexivity.
  - vm_compute. discriminate.
  - vm_compute. discriminate.
  - vm_compute. reflexivity.
  - vm_compute. reflexivity.
  - reflexivity.
  - vm_compute. reflexivity.
  - vm_compute. reflexivity.
  - vm_compute. reflexivity.
Defined.

(** ** What the remote clients are called with *)

Lemma transcribed_guarded env render w :
  1000 <= blob_size (artifact w) ->
  Forall guarded_call (calls w) ->
  Forall guarded_call (calls (transcribed env render w)).
Proof.
  intros Hsize H. unfold transcribed, log_transcription.
  destruct (speechService render);
    match goal with |- context [if ?c then _ else _] => destruct c end;
    cbn [calls with_call]; try exact H;
    (apply Forall_app; split; [exact H|]);
    (apply Forall_cons; [exact Hsize | apply Forall_nil]).
Qed.

Lemma stopRecording_guards env render :
  preserves (fun w => Forall guarded_call (calls w)) (stopRecording env render).
Proof.
  intros w Hw.
  destruct (mediaRecorderRef w) as [r|] eqn:Href;
    [|rewrite stopRecording_no_session; [exact Hw | left; exact Href]].
  destruct (RecorderState_eqb (rec_state r) inactive) eqn:Hst.
  { rewrite stopRecording_no_session; [exact Hw|]. right. exists r. split; [exact Href|].
    destruct (rec_state r); try discriminate. reflexivity. }
  assert (Hact : rec_state r <> inactive) by (intros E; rewrite E in Hst; discriminate).
  destruct (MediaRecorder_stop env) as [[]|t] eqn:Hstop;
    [|rewrite (stopRecording_stop_throws env render w r t Href Hact Hstop); exact Hw].
  destruct (audioChunksRef w) as [|c cs] eqn:Hc.
  { rewrite (stopRecording_active env render w r Href Hact Hstop).
    rewrite process_recording_empty by exact Hc. exact Hw. }
  assert (Hne : audioChunksRef w <> []) by (rewrite Hc; discriminate).
  destruct (Z.ltb_spec (blob_size (artifact w)) 1000) as [Hshort|Hsize].
  { rewrite (stopRecording_active env render w r Href Hact Hstop).
    rewrite process_recording_nonempty by exact Hne.
    rewrite process_audio_short
      by (rewrite (artifact_begun_stopped r w Href); exact Hshort).
    exact Hw. }
  rewrite (stopRecording_transcribes env render w r Href Hact Hstop Hne Hsize).
  cbn [snd].
  assert (Ht : Forall guarded_call (calls (transcribed env render (begun (stopped r w))))).
  { apply transcribed_guarded; [|exact Hw].
    rewrite (artifact_begun_stopped r w Href). exact Hsize. }
  destruct (selected_client env (speechService render) (artifact w)) as [text|t];
    [|exact Ht].
  destruct (is_blank text) eqn:Hblank; [exact Ht|].
  destruct (negb (truthy_opt (VITE_GEMINI_API_KEY (meta_env env)))); [exact Ht|].
  destruct (summarizeMeeting env text); cbn [calls summarized with_call with_state
      with_localStorage];
    (apply Forall_app; split; [exact Ht|]);
    (apply Forall_cons; [exact Hblank | apply Forall_nil]).
Qed.

Lemma handle_guards env ev :
  preserves (fun w => Forall guarded_call (calls w)) (handle env ev).
Proof.
  unfold handle. apply preserves_bind; [apply preserves_read|]. intros render.
  destruct ev.
  - unfold startRecording, setError, setIsRecording, setStartTime, setAudioSupported.
    preserve_frame.
  - unfold pauseRecording, setError, setIsPaused. preserve_frame.
  - unfold resumeRecording, setError, setIsPaused. preserve_frame.
  - apply stopRecording_guards.
  - intros w Hw. change (snd (testWithSampleText env render w))
      with (exec (testWithSampleText env render) w).
    rewrite testWithSampleText_run.
    destruct (negb (api_gemini (apiStatus render))); [exact Hw|].
    destruct (summarizeMeeting env sampleText);
      cbn [calls summarized with_call with_state with_localStorage finished begun];
      (apply Forall_app; split; [exact Hw|]);
      (apply Forall_cons; [vm_compute; reflexivity | apply Forall_nil]).
  - unfold setSpeechService. preserve_frame.
  - unfold ondataavailable. preserve_frame.
  - unfold onstop, setError, setAudioURL. preserve_frame.
  - apply preserves_bind; [apply preserves_read|]. intros timers.
    destruct (find_interval id timers) as [created_by|]; [|apply preserves_ret].
    unfold watchdog_callback.
    destruct (startTime created_by); [|apply preserves_ret].
    apply preserves_bind; [unfold setDuration; preserve_frame|]. intros _.
    destruct (maxRecordingDuration <=? _);
      [apply stopRecording_guards | apply preserves_ret].
Qed.

Lemma mount_calls_nothing env stored : calls (mounted env stored) = [].
Proof.
  assert (H : preserves (fun w => calls w = []) (mount env)).
  { unfold mount, check_effect, load_effect, watchdog_effect, clear_duration_interval,
      setInterval, clearInterval, setAudioSupported, setError, setSpeechService,
      setSummaryHistory.
    preserve_frame. }
  apply (H (initial_world stored)). reflexivity.
Qed.

(** X18. In every run from the mounted component, whatever the events and
    the environment, a transcription client is only ever called with an
    artifact of at least 1000 bytes, and the summarization client only with
    a text that is not blank. *)
Theorem remote_calls_are_guarded env stored trace :
  Forall guarded_call (calls (run trace (mounted env stored))).
Proof.
  assert (Hrun : forall trace w,
             Forall guarded_call (calls w) -> Forall guarded_call (calls (run trace w))).
  { clear trace. induction trace as [|[env' ev] trace IH]; intros w Hw; cbn; [exact Hw|].
    apply IH. destruct (step_frame env' ev w) as (_ & _ & _ & _ & Hk). rewrite Hk.
    apply (handle_guards env' ev w Hw). }
  apply Hrun. rewrite mount_calls_nothing. constructor.
Qed.

(** ** The displayed duration *)

Lemma string_length_app a b :
  String.length (a ++ b) = (String.length a + String.length b)%nat.
Proof. induction a as [|c a IH]; cbn; [reflexivity | rewrite IH; reflexivity]. Qed.

Lemma no_colon_digits d : no_colon (NilEmpty.string_of_uint d) = true.
Proof. induction d; cbn; auto. Qed.

Lemma no_colon_padStart2 s : no_colon s = true -> no_colon (padStart2 s) = true.
Proof.
  intros H. unfold padStart2.
  destruct (String.length s) as [|[|n]]; cbn; auto.
Qed.

(** A non-negative number prints as the digits of a decimal numeral. *)
Lemma toString_nonneg n :
  0 <= n -> exists d, toString n = NilEmpty.string_of_uint d /\ Z.of_uint d = n.
Proof.
  intros Hn. unfold toString.
  pose proof (DecimalZ.of_to n) as Hof.
  destruct (Z.to_int n) as [d|d] eqn:Hd.
  - exists d. split; [reflexivity | exact Hof].
  - destruct n; cbn in Hd; try discriminate. lia.
Qed.

Lemma decode_padded_digits d :
  decode_number (padStart2 (NilEmpty.string_of_uint d)) = Z.of_uint d.
Proof.
  pose proof (NilEmpty.usu d) as Husu.
  pose proof (NilEmpty.isi (Decimal.Pos d)) as Hisi. cbn [NilEmpty.string_of_int] in Hisi.
  unfold padStart2, decode_number.
  destruct (NilEmpty.string_of_uint d) as [|c [|c' s]] eqn:Hs; cbn [String.length].
  - destruct d; try discriminate. reflexivity.
  - change ("0" ++ String c EmptyString) with (String "0" (String c EmptyString)).
    unfold NilEmpty.int_of_string. cbn [Ascii.eqb Bool.eqb].
    cbn [NilEmpty.uint_of_string] in *.
    change (NilEmpty.uint_of_string (String "0" (String c EmptyString)))
      with (uint_of_char "0" (NilEmpty.uint_of_string (String c EmptyString))).
    cbn [NilEmpty.uint_of_string]. rewrite Husu. reflexivity.
  - rewrite Hisi. reflexivity.
Qed.

Lemma decode_padded n : 0 <= n -> decode_number (padStart2 (toString n)) = n.
Proof.
  intros Hn. destruct (toString_nonneg n Hn) as (d & -> & <-).
  apply decode_padded_digits.
Qed.

Lemma no_colon_padded n : 0 <= n -> no_colon (padStart2 (toString n)) = true.
Proof.
  intros Hn. destruct (toString_nonneg n Hn) as (d & -> & _).
  apply no_colon_padStart2, no_colon_digits.
Qed.

(** Two texts that agree up to and after their first colon. *)
Lemma split_at_colon a1 a2 r1 r2 :
  no_colon a1 = true -> no_colon a2 = true ->
  a1 ++ String ":" r1 = a2 ++ String ":" r2 -> a1 = a2 /\ r1 = r2.
Proof.
  revert a2. induction a1 as [|c a1 IH]; intros [|c2 a2] H1 H2 Heq; cbn in *.
  - injection Heq as ->. auto.
  - injection Heq as <- _. cbn in H2. discriminate.
  - injection Heq as -> _. cbn in H1. discriminate.
  - injection Heq as -> Heq.
    apply andb_true_iff in H1, H2. destruct H1 as [_ H1], H2 as [_ H2].
    destruct (IH a2 H1 H2 Heq) as [-> ->]. auto.
Qed.

Lemma formatDuration_parts seconds :
  formatDuration seconds =
  padStart2 (toString (seconds / 3600))
    ++ String ":" (padStart2 (toString (Z.rem seconds 3600 / 60))
                     ++ String ":" (padStart2 (toString (Z.rem seconds 60)))).
Proof. reflexivity. Qed.

(** X19. Two different non-negative durations are never displayed alike:
    the hours, minutes and seconds can be read back from the text. *)
Theorem formatDuration_is_injective a b :
  0 <= a -> 0 <= b -> formatDuration a = formatDuration b -> a = b.
Proof.
  intros Ha Hb Heq. rewrite !formatDuration_parts in Heq.
  assert (Ha1 : 0 <= a / 3600) by (apply Z.div_pos; lia).
  assert (Hb1 : 0 <= b / 3600) by (apply Z.div_pos; lia).
  pose proof (Z.rem_bound_pos a 3600 Ha ltac:(lia)) as Ha2.
  pose proof (Z.rem_bound_pos b 3600 Hb ltac:(lia)) as Hb2.
  pose proof (Z.rem_bound_pos a 60 Ha ltac:(lia)) as Ha3.
  pose proof (Z.rem_bound_pos b 60 Hb ltac:(lia)) as Hb3.
  assert (Ha4 : 0 <= Z.rem a 3600 / 60) by (apply Z.div_pos; lia).
  assert (Hb4 : 0 <= Z.rem b 3600 / 60) by (apply Z.div_pos; lia).
  apply split_at_colon in Heq; try (apply no_colon_padded; lia).
  destruct Heq as [Hh Heq].
  apply split_at_colon in Heq; try (apply no_colon_padded; lia).
  destruct Heq as [Hm Hs].
  apply (f_equal decode_number) in Hh, Hm, Hs.
  rewrite !decode_padded in Hh, Hm, Hs by lia.
  rewrite !Z.rem_mod_nonneg in * by lia.
  Z.div_mod_to_equations. lia.
Qed.

Lemma formatDuration_is_injective_witness :
  formatDuration 3661 <> formatDuration 3601.
Proof.
  intros Heq. apply (formatDuration_is_injective 3661 3601) in Heq; lia.
Defined.

Lemma padded_width n :
  0 <= n < 100 -> String.length (padStart2 (toString n)) = 2%nat.
Proof.
  intros Hn.
  assert (Hall : forallb (fun k => Nat.eqb (String.length
                                              (padStart2 (toString (Z.of_nat k)))) 2)
                   (seq 0 100) = true) by (vm_compute; reflexivity).
  rewrite forallb_forall in Hall.
  specialize (Hall (Z.to_nat n)).
  rewrite Z2Nat.id in Hall by lia.
  apply Nat.eqb_eq, Hall, in_seq. lia.
Qed.

(** Below a hundred hours the displayed duration has exactly eight
    characters, two digits each for hours, minutes and seconds with a colon
    after the second and the fifth. *)
Lemma formatDuration_has_eight_characters seconds :
  0 <= seconds < 360000 ->
  String.length (formatDuration seconds) = 8%nat /\
  String.get 2 (formatDuration seconds) = Some ":"%char /\
  String.get 5 (formatDuration seconds) = Some ":"%char.
Proof.
  intros Hs. rewrite formatDuration_parts.
  assert (Hh : 0 <= seconds / 3600 < 100) by (Z.div_mod_to_equations; lia).
  pose proof (Z.rem_bound_pos seconds 3600 ltac:(lia) ltac:(lia)) as Hr.
  assert (Hm : 0 <= Z.rem seconds 3600 / 60 < 100) by (Z.div_mod_to_equations; lia).
  pose proof (Z.rem_bound_pos seconds 60 ltac:(lia) ltac:(lia)) as Hs'.
  assert (Hsec : 0 <= Z.rem seconds 60 < 100) by lia.
  pose proof (padded_width _ Hh) as Lh.
  pose proof (padded_width _ Hm) as Lm.
  pose proof (padded_width _ Hsec) as Ls.
  destruct (padStart2 (toString (seconds / 3600))) as [|h1 [|h2 [|? ?]]];
    try discriminate.
  destruct (padStart2 (toString (Z.rem seconds 3600 / 60))) as [|m1 [|m2 [|? ?]]];
    try discriminate.
  destruct (padStart2 (toString (Z.rem seconds 60))) as [|s1 [|s2 [|? ?]]];
    try discriminate.
  repeat split; reflexivity.
Qed.

Lemma formatDuration_has_eight_characters_witness :
  String.length (formatDuration 1000) = 8%nat.
Proof.
  apply (formatDuration_has_eight_characters 1000). lia.
Defined.

(** ** The transcription client on its own *)

Lemma upto_comma_no_comma s : no_comma s = true -> upto_comma s = s.
Proof.
  induction s as [|c s IH]; cbn; [reflexivity|]. intros H.
  apply andb_true_iff in H. destruct H as [Hc Hs].
  apply negb_true_iff in Hc. rewrite Hc, IH by exact Hs. reflexivity.
Qed.

Lemma split_comma_1_after_prefix prefix rest :
  no_comma prefix = true ->
  split_comma_1 (prefix ++ String "," rest) = Some (upto_comma rest).
Proof.
  induction prefix as [|c prefix IH]; cbn; [reflexivity|]. intros H.
  apply andb_true_iff in H. destruct H as [Hc Hs].
  apply negb_true_iff in Hc. rewrite Hc. apply IH. exact Hs.
Qed.

Lemma truthy_with_comma prefix rest : truthy (prefix ++ String "," rest) = true.
Proof. destruct prefix; reflexivity. Qed.

(** X20. From a data URL, a header without comma, a comma and the payload,
    [blobToBase64] resolves with exactly the payload; with an empty payload
    it rejects. *)
Theorem blobToBase64_reads_the_payload env blob header payload :
  readAsDataURL env blob = LoadEnd (Some (header ++ "," ++ payload)) ->
  no_comma header = true ->
  no_comma payload = true ->
  Huggingface.blobToBase64 env blob =
    if truthy payload then Returns payload
    else Throws (ErrorObj "Failed to extract base64 data from audio file").
Proof.
  intros Hread Hheader Hpayload. unfold Huggingface.blobToBase64. rewrite Hread.
  change ("," ++ payload) with (String "," payload).
  cbn [truthy_opt]. rewrite truthy_with_comma.
  rewrite split_comma_1_after_prefix by exact Hheader.
  rewrite upto_comma_no_comma by exact Hpayload. reflexivity.
Qed.

Lemma blobToBase64_reads_the_payload_witness :
  Huggingface.blobToBase64 (Fixture.env_ok 0) (Fixture.chunk 1200) = Returns "YWFh".
Proof.
  apply (blobToBase64_reads_the_payload (Fixture.env_ok 0) (Fixture.chunk 1200)
           "data:audio/webm;base64" "YWFh"); reflexivity.
Defined.

(** X21. For an artifact under 1000 bytes [transcribeAudio] returns, it
    does not throw, and what it returns is a failure sentence, whatever the
    environment: the messages of its own two size checks match none of the
    patterns of its [catch] block. *)
Theorem transcribeAudio_reports_short_audio_as_text env audioBlob :
  blob_size audioBlob < 1000 ->
  Huggingface.transcribeAudio env audioBlob =
    Returns ("Transcription failed: "
             ++ (if blob_size audioBlob =? 0 then Huggingface.msg_no_audio
                 else Huggingface.msg_too_short)).
Proof.
  intros Hsize. unfold Huggingface.transcribeAudio, Huggingface.transcribeAudio_try.
  destruct (blob_size audioBlob =? 0); [reflexivity|].
  destruct (Z.ltb_spec (blob_size audioBlob) 1000); [reflexivity | lia].
Qed.

Lemma transcribeAudio_reports_short_audio_as_text_witness :
  Huggingface.transcribeAudio (Fixture.env_ok 0) (Fixture.chunk 400) =
    Returns "Transcription failed: Audio recording is too short. Please record for a longer duration.".
Proof.
  rewrite (transcribeAudio_reports_short_audio_as_text (Fixture.env_ok 0)
             (Fixture.chunk 400)).
  - reflexivity.
  - vm_compute. reflexivity.
Defined.

(** X22. With audio of at least 1000 bytes that converts to base64 and no
    Hugging Face key in the environment, [transcribeAudio] throws the
    missing-key message of its [catch] block and does not reach the
    service. *)
Theorem transcribeAudio_without_key_throws env audioBlob base64Audio :
  1000 <= blob_size audioBlob ->
  Huggingface.blobToBase64 env audioBlob = Returns base64Audio ->
  truthy_opt (VITE_HUGGINGFACE_API_KEY (meta_env env)) = false ->
  Huggingface.transcribeAudio env audioBlob =
    Throws (ErrorObj "Missing or invalid Hugging Face API key. Please check your .env file.").
Proof.
  intros Hsize Hb64 Hkey.
  unfold Huggingface.transcribeAudio, Huggingface.transcribeAudio_try.
  destruct (Z.eqb_spec (blob_size audioBlob) 0); [lia|].
  destruct (Z.ltb_spec (blob_size audioBlob) 1000); [lia|].
  rewrite Hb64. unfold Huggingface.getHfClient. rewrite Hkey. reflexivity.
Qed.

Lemma transcribeAudio_without_key_throws_witness :
  Huggingface.transcribeAudio Fixture.env_without_hf_key (Fixture.chunk 1200) =
    Throws (ErrorObj "Missing or invalid Hugging Face API key. Please check your .env file.").
Proof.
  apply (transcribeAudio_without_key_throws Fixture.env_without_hf_key
           (Fixture.chunk 1200) "YWFh").
  - vm_compute. discriminate.
  - reflexivity.
  - reflexivity.
Defined.

(** ** The e-mail dialog *)

Lemma append_eq_empty a b : a ++ b = EmptyString -> a = EmptyString /\ b = EmptyString.
Proof. destruct a; cbn; [auto | discriminate]. Qed.

Lemma seq_inv r1 r2 s :
  Matches (EmailDialog.Seq r1 r2) s ->
  exists s1 s2, s = s1 ++ s2 /\ Matches r1 s1 /\ Matches r2 s2.
Proof. intros H. inversion H; subst. eauto. Qed.

Lemma class_inv p s :
  Matches (EmailDialog.Class p) s -> exists c, s = String c EmptyString /\ p c = true.
Proof. intros H. inversion H; subst. eauto. Qed.

Lemma or_inv r1 r2 s :
  Matches (EmailDialog.Or r1 r2) s -> Matches r1 s \/ Matches r2 s.
Proof. intros H. inversion H; subst; auto. Qed.

Lemma nullable_spec r : EmailDialog.nullable r = true <-> Matches r EmptyString.
Proof.
  induction r; cbn; split; intros H; try discriminate.
  - inversion H.
  - constructor.
  - reflexivity.
  - apply class_inv in H. destruct H as (c & E & _). discriminate.
  - apply andb_true_iff in H. destruct H as [H1 H2].
    change EmptyString with (EmptyString ++ EmptyString).
    constructor; [apply IHr1 | apply IHr2]; assumption.
  - apply seq_inv in H. destruct H as (s1 & s2 & E & H1 & H2).
    symmetry in E. apply append_eq_empty in E. destruct E; subst.
    apply andb_true_iff. split; [apply IHr1 | apply IHr2]; assumption.
  - apply orb_true_iff in H. destruct H as [H|H];
      [apply MOrL, IHr1 | apply MOrR, IHr2]; assumption.
  - apply orb_true_iff. apply or_inv in H.
    destruct H; [left; apply IHr1 | right; apply IHr2]; assumption.
  - constructor.
  - reflexivity.
Qed.

Lemma star_cons r c s :
  Matches (EmailDialog.Star r) (String c s) ->
  exists s1 s2,
    s = s1 ++ s2 /\ Matches r (String c s1) /\ Matches (EmailDialog.Star r) s2.
Proof.
  intros H. remember (EmailDialog.Star r) as r' eqn:Er.
  remember (String c s) as t eqn:Et.
  revert c s Et. induction H; intros c0 s0 Et; try discriminate.
  injection Er as ->.
  destruct s1 as [|c1 s1].
  - cbn in Et. apply IHMatches2; [reflexivity | exact Et].
  - cbn in Et. injection Et as -> <-. exists s1, s2. auto.
Qed.

Lemma derivative_spec r :
  forall c s, Matches (EmailDialog.derivative c r) s <-> Matches r (String c s).
Proof.
  induction r; intros c s; cbn.
  - split; intros H; inversion H.
  - split; intros H; inversion H.
  - destruct (p c) eqn:Hp; split; intros H.
    + inversion H; subst. constructor. exact Hp.
    + apply class_inv in H. destruct H as (c' & E & _). injection E as -> ->. constructor.
    + inversion H.
    + apply class_inv in H. destruct H as (c' & E & Hc). injection E as -> ->. congruence.
  - assert (Hseq : Matches (EmailDialog.Seq (EmailDialog.derivative c r1) r2) s ->
                   Matches (EmailDialog.Seq r1 r2) (String c s)).
    { intros H. apply seq_inv in H. destruct H as (s1 & s2 & -> & H1 & H2).
      change (String c (s1 ++ s2)) with (String c s1 ++ s2).
      constructor; [apply IHr1|]; assumption. }
    assert (Hback : Matches (EmailDialog.Seq r1 r2) (String c s) ->
                    Matches (EmailDialog.Seq (EmailDialog.derivative c r1) r2) s \/
                    (Matches r1 EmptyString /\ Matches (EmailDialog.derivative c r2) s)).
    { intros H. apply seq_inv in H. destruct H as (s1 & s2 & E & H1 & H2).
      destruct s1 as [|c1 s1]; cbn in E.
      - right. subst s2. split; [exact H1 | apply IHr2; exact H2].
      - injection E as -> ->. left. constructor; [apply IHr1|]; assumption. }
    destruct (EmailDialog.nullable r1) eqn:Hn; split; intros H.
    + apply or_inv in H. destruct H as [H|H]; [apply Hseq; assumption|].
      change (String c s) with (EmptyString ++ String c s).
      constructor; [apply nullable_spec; exact Hn | apply IHr2; assumption].
    + destruct (Hback H) as [H'|[_ H']]; [apply MOrL | apply MOrR]; assumption.
    + apply Hseq; exact H.
    + destruct (Hback H) as [H'|[H' _]]; [exact H'|].
      apply nullable_spec in H'. congruence.
  - split; intros H; apply or_inv in H; destruct H as [H|H];
      solve [apply MOrL, IHr1; assumption | apply MOrR, IHr2; assumption].
  - split; intros H.
    + apply seq_inv in H. destruct H as (s1 & s2 & -> & H1 & H2).
      change (String c (s1 ++ s2)) with (String c s1 ++ s2).
      constructor; [apply IHr|]; assumption.
    + apply star_cons in H. destruct H as (s1 & s2 & -> & H1 & H2).
      constructor; [apply IHr|]; assumption.
Qed.

(** Matching by derivatives decides the language of the pattern. *)
Lemma test_spec : forall s r, EmailDialog.test r s = true <-> Matches r s.
Proof.
  induction s as [|c s IH]; intros r; cbn.
  - apply nullable_spec.
  - rewrite IH. apply derivative_spec.
Qed.

Lemma star_class p s :
  Matches (EmailDialog.Star (EmailDialog.Class p)) s <-> all_chars p s = true.
Proof.
  split.
  - intros H. remember (EmailDialog.Star (EmailDialog.Class p)) as r eqn:Er.
    induction H; try discriminate; [reflexivity|].
    injection Er as ->. apply class_inv in H. destruct H as (c & -> & Hc). cbn.
    rewrite Hc. apply IHMatches2. reflexivity.
  - induction s as [|c s IH]; cbn; intros H; [constructor|].
    apply andb_true_iff in H. destruct H as [Hc Hs].
    change (String c s) with (String c EmptyString ++ s).
    constructor; [constructor; exact Hc | apply IH; exact Hs].
Qed.

Lemma plus_class p s :
  Matches (EmailDialog.Plus (EmailDialog.Class p)) s <->
  s <> EmptyString /\ all_chars p s = true.
Proof.
  unfold EmailDialog.Plus. split.
  - intros H. apply seq_inv in H. destruct H as (s1 & s2 & -> & H1 & H2).
    apply class_inv in H1. destruct H1 as (c & -> & Hc).
    apply star_class in H2. cbn. rewrite Hc, H2.
    split; [discriminate | reflexivity].
  - intros [Hne Hall]. destruct s as [|c s]; [congruence|].
    cbn in Hall. apply andb_true_iff in Hall. destruct Hall as [Hc Hs].
    change (String c s) with (String c EmptyString ++ s).
    constructor; [constructor; exact Hc | apply star_class; exact Hs].
Qed.

Lemma char_spec c s : Matches (EmailDialog.Char c) s <-> s = String c EmptyString.
Proof.
  unfold EmailDialog.Char. split.
  - intros H. apply class_inv in H. destruct H as (c' & -> & Hc).
    apply Ascii.eqb_eq in Hc. congruence.
  - intros ->. constructor. apply Ascii.eqb_refl.
Qed.

Lemma email_pattern_shape s :
  EmailDialog.test EmailDialog.email_pattern s = true <->
  exists name host domain,
    s = name ++ "@" ++ host ++ "." ++ domain /\
    address_part name /\ address_part host /\ address_part domain.
Proof.
  rewrite test_spec. unfold EmailDialog.email_pattern, address_part. split.
  - intros H.
    apply seq_inv in H. destruct H as (name & s2 & -> & H1 & H).
    apply seq_inv in H. destruct H as (at_ & s3 & -> & H3 & H).
    apply seq_inv in H. destruct H as (host & s4 & -> & H5 & H).
    apply seq_inv in H. destruct H as (dot & domain & -> & H7 & H8).
    apply char_spec in H3, H7. subst.
    apply plus_class in H1, H5, H8.
    exists name, host, domain. auto.
  - intros (name & host & domain & -> & Hn & Hh & Hd).
    apply plus_class in Hn, Hh, Hd.
    constructor; [exact Hn|].
    change ("@" ++ host ++ "." ++ domain)
      with (String "@" EmptyString ++ (host ++ "." ++ domain)).
    constructor; [apply char_spec; reflexivity|].
    constructor; [exact Hh|].
    change ("." ++ domain) with (String "." EmptyString ++ domain).
    constructor; [apply char_spec; reflexivity | exact Hd].
Qed.

(** X23. The pattern of the dialog accepts exactly the texts
    name@host.domain whose three parts are not empty and hold neither white
    space nor an at sign. *)
Theorem email_pattern_accepts_exactly s :
  EmailDialog.test EmailDialog.email_pattern s = true <->
  exists name host domain,
    s = name ++ "@" ++ host ++ "." ++ domain /\
    address_part name /\ address_part host /\ address_part domain.
Proof. apply email_pattern_shape. Qed.

Lemma all_chars_app p a b :
  all_chars p (a ++ b) = (all_chars p a && all_chars p b)%bool.
Proof. induction a as [|c a IH]; cbn; [reflexivity|]. rewrite IH. apply andb_assoc. Qed.

Lemma all_chars_weaken (p q : ascii -> bool) s :
  (forall c, p c = true -> q c = true) -> all_chars p s = true -> all_chars q s = true.
Proof.
  intros Hpq. induction s as [|c s IH]; cbn; [reflexivity|]. intros H.
  apply andb_true_iff in H. destruct H as [Hc Hs].
  rewrite (Hpq c Hc), (IH Hs). reflexivity.
Qed.

Lemma valid_address_has_no_whitespace s :
  EmailDialog.test EmailDialog.email_pattern s = true ->
  all_chars (fun c => negb (is_whitespace c)) s = true.
Proof.
  intros H. apply email_pattern_shape in H.
  destruct H as (name & host & domain & -> & [_ Hn] & [_ Hh] & [_ Hd]).
  assert (Hw : forall c, EmailDialog.not_space_or_at c = true ->
                         negb (is_whitespace c) = true).
  { intros c Hc. unfold EmailDialog.not_space_or_at in Hc.
    apply negb_true_iff in Hc. apply orb_false_iff in Hc. destruct Hc as [Hc _].
    rewrite Hc. reflexivity. }
  rewrite !all_chars_app.
  rewrite (all_chars_weaken _ _ name Hw Hn), (all_chars_weaken _ _ host Hw Hh),
    (all_chars_weaken _ _ domain Hw Hd).
  reflexivity.
Qed.

Lemma trimEnd_without_whitespace s :
  is_ascii s = true ->
  all_chars (fun c => negb (is_whitespace c)) s = true -> trimEnd s = s.
Proof.
  induction s as [|c s IH]; [reflexivity|]. cbn [is_ascii all_chars]. intros Ha H.
  apply andb_true_iff in Ha. destruct Ha as [Hc Ha].
  apply andb_true_iff in H. destruct H as [Hw Hs]. apply negb_true_iff in Hw.
  cbn [trimEnd]. rewrite (not_all_whitespace c s Hw Hc), (IH Ha Hs). reflexivity.
Qed.

(** On ASCII text without white space [trim] changes nothing. *)
Lemma trim_without_whitespace s :
  is_ascii s = true ->
  all_chars (fun c => negb (is_whitespace c)) s = true -> trim s = s.
Proof.
  intros Ha H. unfold trim.
  assert (Hs : trimStart s = s).
  { destruct s as [|c s]; [reflexivity|]. cbn [is_ascii all_chars] in *.
    apply andb_true_iff in Ha. destruct Ha as [Hc _].
    apply andb_true_iff in H. destruct H as [Hw _]. apply negb_true_iff in Hw.
    apply trimStart_at_a_character; assumption. }
  rewrite Hs. apply trimEnd_without_whitespace; assumption.
Qed.

(** The entries of an ASCII text are ASCII. *)
Lemma split_comma_ascii s :
  is_ascii s = true ->
  forall entry, In entry (EmailDialog.split_comma s) -> is_ascii entry = true.
Proof.
  induction s as [|c s IH]; cbn [is_ascii EmailDialog.split_comma].
  - intros _ entry [<-|[]]. reflexivity.
  - intros Ha. apply andb_true_iff in Ha. destruct Ha as [Hc Ha].
    destruct (Ascii.eqb c ",").
    + intros entry [<-|Hin]; [reflexivity | apply (IH Ha), Hin].
    + destruct (EmailDialog.split_comma s) as [|e es].
      * intros entry [<-|[]]. cbn [is_ascii]. rewrite Hc. reflexivity.
      * intros entry [<-|Hin].
        -- cbn [is_ascii]. rewrite Hc. apply (IH Ha). left. reflexivity.
        -- apply (IH Ha). right. exact Hin.
Qed.

Lemma split_comma_not_empty s : EmailDialog.split_comma s <> [].
Proof.
  destruct s as [|c s]; cbn; [discriminate|].
  destruct (Ascii.eqb c ","); [discriminate|].
  destruct (EmailDialog.split_comma s); discriminate.
Qed.

(** Joining with commas undoes splitting at commas. *)
Lemma join_undoes_split_eq s :
  EmailDialog.join_comma (EmailDialog.split_comma s) = s.
Proof.
  induction s as [|c s IH]; [reflexivity|].
  cbn [EmailDialog.split_comma].
  destruct (Ascii.eqb_spec c ",") as [->|Hc].
  - cbn [EmailDialog.join_comma]. rewrite IH.
    destruct (EmailDialog.split_comma s) eqn:E;
      [exfalso; exact (split_comma_not_empty s E) | reflexivity].
  - destruct (EmailDialog.split_comma s) as [|entry entries] eqn:E;
      [exfalso; exact (split_comma_not_empty s E)|].
    cbn [EmailDialog.join_comma] in *.
    destruct entries; cbn; rewrite <- IH; reflexivity.
Qed.


Lemma forallb_map_false {A B : Type} (f : A -> B) (p : B -> bool) l x :
  In x l -> p (f x) = false -> forallb p (map f l) = false.
Proof.
  induction l as [|y l IH]; cbn; [tauto|]. intros [->|Hin] Hp.
  - rewrite Hp. reflexivity.
  - rewrite (IH Hin Hp). apply andb_false_r.
Qed.

(** X24. A list of addresses with an entry that is empty or blank, as
    after a trailing comma or in an empty field, is refused: the error is
    shown, the window goes nowhere and the dialog stays as it is. *)
Theorem submit_with_a_blank_entry_is_refused p props render d entry :
  In entry (EmailDialog.split_comma (EmailDialog.emails render)) ->
  is_blank entry = true ->
  EmailDialog.handleSubmit p props render d =
    (Returns tt,
     EmailDialog.mkDialog (EmailDialog.isOpen d) (EmailDialog.emails d)
       EmailDialog.msg_invalid (EmailDialog.href d)).
Proof.
  intros Hin Hblank. unfold EmailDialog.handleSubmit.
  rewrite (forallb_map_false trim _ _ entry Hin).
  - reflexivity.
  - unfold is_blank in Hblank. destruct (trim entry); [reflexivity | discriminate].
Qed.

Lemma submit_with_a_blank_entry_is_refused_witness :
  EmailDialog.handleSubmit Fixture.platform Fixture.props
    (Fixture.typed "ann@example.org, ") (Fixture.typed "ann@example.org, ") =
    (Returns tt,
     EmailDialog.mkDialog true "ann@example.org, " EmailDialog.msg_invalid None).
Proof.
  apply (submit_with_a_blank_entry_is_refused Fixture.platform Fixture.props
           (Fixture.typed "ann@example.org, ") (Fixture.typed "ann@example.org, ") " ").
  - cbn. right. left. reflexivity.
  - reflexivity.
Defined.

(** X25. For a field of ASCII text: when every entry as typed is an
    address, the window is sent to a mailto link whose recipients are the
    typed text, character for character, the dialog is closed, and the
    error message is left as it was. *)
Theorem accepted_submit_mails_the_typed_text p props render d :
  is_ascii (EmailDialog.emails render) = true ->
  forallb (EmailDialog.test EmailDialog.email_pattern)
    (EmailDialog.split_comma (EmailDialog.emails render)) = true ->
  EmailDialog.handleSubmit p props render d =
    (Returns tt,
     EmailDialog.mkDialog false (EmailDialog.emails d) (EmailDialog.error d)
       (Some ("mailto:" ++ EmailDialog.emails render ++ EmailDialog.mail_query p props))).
Proof.
  intros Hascii Hvalid. unfold EmailDialog.handleSubmit.
  assert (Htrim : map trim (EmailDialog.split_comma (EmailDialog.emails render)) =
                  EmailDialog.split_comma (EmailDialog.emails render)).
  { rewrite <- (map_id (EmailDialog.split_comma (EmailDialog.emails render))) at 2.
    apply map_ext_in. intros entry Hin.
    apply trim_without_whitespace.
    - apply (split_comma_ascii _ Hascii entry Hin).
    - apply valid_address_has_no_whitespace.
      rewrite forallb_forall in Hvalid. apply Hvalid. exact Hin. }
  rewrite Htrim, Hvalid. unfold EmailDialog.mailtoLink.
  rewrite join_undoes_split_eq. reflexivity.
Qed.

Lemma accepted_submit_mails_the_typed_text_witness :
  EmailDialog.href
    (exec (EmailDialog.handleSubmit Fixture.platform Fixture.props
             (Fixture.typed "ann@example.org,bob@example.org"))
       (Fixture.typed "ann@example.org,bob@example.org")) =
  Some ("mailto:ann@example.org,bob@example.org"
        ++ EmailDialog.mail_query Fixture.platform Fixture.props).
Proof.
  unfold exec.
  rewrite (accepted_submit_mails_the_typed_text Fixture.platform Fixture.props
             (Fixture.typed "ann@example.org,bob@example.org")).
  - vm_compute. reflexivity.
  - vm_compute. reflexivity.
  - vm_compute. reflexivity.
Defined.

Lemma dialog_step_error p props ev d :
  EmailDialog.error (EmailDialog.step p props ev d) = EmailDialog.error d \/
  EmailDialog.error (EmailDialog.step p props ev d) = EmailDialog.msg_invalid.
Proof.
  unfold EmailDialog.step, EmailDialog.handle, exec, bind, read.
  destruct ev; cbn.
  - left. reflexivity.
  - destruct (EmailDialog.isOpen d); left; reflexivity.
  - destruct (EmailDialog.isOpen d); [|left; reflexivity].
    unfold EmailDialog.handleSubmit.
    destruct (forallb _ _); cbn; [left | right]; reflexivity.
  - destruct (EmailDialog.isOpen d); left; reflexivity.
Qed.

(** X26. No event of the dialog clears its error message: once shown it
    is shown for as long as the dialog is mounted, through typing, closing,
    reopening and a submission that goes through. *)
Theorem dialog_error_is_never_cleared p trace d :
  EmailDialog.error d <> EmptyString ->
  EmailDialog.error (EmailDialog.run p trace d) <> EmptyString.
Proof.
  revert d. induction trace as [|[props ev] trace IH]; intros d Hd; [exact Hd|].
  cbn [EmailDialog.run]. apply IH.
  destruct (dialog_step_error p props ev d) as [E|E]; rewrite E;
    [exact Hd | discriminate].
Qed.

Lemma dialog_error_is_never_cleared_witness :
  EmailDialog.error
    (EmailDialog.run Fixture.platform
       [(Fixture.props, EmailDialog.Change "ann@example.org");
        (Fixture.props, EmailDialog.Submit);
        (Fixture.props, EmailDialog.Open)]
       (EmailDialog.mkDialog true "ann" EmailDialog.msg_invalid None))
  <> EmptyString.
Proof.
  apply (dialog_error_is_never_cleared Fixture.platform
           [(Fixture.props, EmailDialog.Change "ann@example.org");
            (Fixture.props, EmailDialog.Submit);
            (Fixture.props, EmailDialog.Open)]
           (EmailDialog.mkDialog true "ann" EmailDialog.msg_invalid None)).
  vm_compute. discriminate.
Defined.

(** ** The sign-in form *)

Ltac auth_run :=
  unfold Auth.handleSignIn, Auth.handleSignUp, Auth.call_signInWithPassword,
    Auth.call_signUp, Auth.setLoading, Auth.setError, Auth.setMessage, Auth.with_form,
    bind, modify, await, ret; cbn.

(** X27. A password whose [length] is under six, counted in UTF-16 code
    units as the source counts it, is refused by the form itself, in
    either mode: no request is sent, the message about the length is shown
    and the button is enabled again. *)
Theorem short_password_is_refused_without_a_request supabase render pg :
  (utf16_length (Auth.password render) < 6)%nat ->
  Auth.handleSignIn supabase render pg = (Returns tt, refused_locally pg) /\
  Auth.handleSignUp supabase render pg = (Returns tt, refused_locally pg).
Proof.
  intros Hshort.
  assert (Hv : Auth.validatePassword (Auth.password render) =
               Some "Password must be at least 6 characters long").
  { unfold Auth.validatePassword.
    destruct (Nat.ltb_spec (utf16_length (Auth.password render)) 6); [reflexivity | lia]. }
  unfold Auth.handleSignIn, Auth.handleSignUp. rewrite Hv.
  split; reflexivity.
Qed.

Lemma short_password_is_refused_without_a_request_witness :
  Auth.handleSignIn Fixture.supabase_ok (Auth.form (Fixture.filled "12345"))
    (Fixture.filled "12345") =
    (Returns tt, refused_locally (Fixture.filled "12345")) /\
  Auth.handleSignUp Fixture.supabase_ok (Auth.form (Fixture.filled "12345"))
    (Fixture.filled "12345") =
    (Returns tt, refused_locally (Fixture.filled "12345")).
Proof.
  apply (short_password_is_refused_without_a_request Fixture.supabase_ok
           (Auth.form (Fixture.filled "12345")) (Fixture.filled "12345")).
  vm_compute. reflexivity.
Defined.

Lemma signIn_loading supabase render pg :
  Auth.loading (Auth.form (snd (Auth.handleSignIn supabase render pg))) =
    match fst (Auth.handleSignIn supabase render pg) with
    | Returns _ => false
    | Throws _ => true
    end.
Proof.
  auth_run. destruct (Auth.validatePassword (Auth.password render)); cbn; [reflexivity|].
  destruct (Auth.signInWithPassword supabase _ _) as [[message|]|t]; cbn;
    try reflexivity.
  destruct (String.eqb message "Invalid login credentials"); cbn; [reflexivity|].
  destruct (String.eqb message "Email not confirmed"); cbn; [|reflexivity].
  destruct (Auth.signUp supabase _ _) as [[[signUpError|] session]|t]; reflexivity.
Qed.

Lemma signUp_loading supabase render pg :
  Auth.loading (Auth.form (snd (Auth.handleSignUp supabase render pg))) =
    match fst (Auth.handleSignUp supabase render pg) with
    | Returns _ => false
    | Throws _ => true
    end.
Proof.
  auth_run. destruct (Auth.validatePassword (Auth.password render)); cbn; [reflexivity|].
  destruct (Auth.signUp supabase _ _) as [[[message|] session]|t]; cbn;
    try reflexivity.
  - destruct (String.eqb message "User already registered"); reflexivity.
  - destruct session; cbn; [reflexivity|].
    destruct (Auth.signInWithPassword supabase _ _) as [[signInError|]|t]; reflexivity.
Qed.

(** X28. Either handler of the form ends with the button enabled again
    when it returns, and with [loading] still raised when a request of the
    provider rejects: nothing lowers it then. *)
Theorem loading_is_lowered_unless_a_request_rejects supabase render pg :
  Auth.loading (Auth.form (snd (Auth.handleSignIn supabase render pg))) =
    match fst (Auth.handleSignIn supabase render pg) with
    | Returns _ => false
    | Throws _ => true
    end /\
  Auth.loading (Auth.form (snd (Auth.handleSignUp supabase render pg))) =
    match fst (Auth.handleSignUp supabase render pg) with
    | Returns _ => false
    | Throws _ => true
    end.
Proof. split; [apply signIn_loading | apply signUp_loading]. Qed.

Lemma locked_step supabase ev pg :
  Auth.loading (Auth.form pg) = true ->
  Auth.loading (Auth.form (Auth.step supabase ev pg)) = true /\
  Auth.requests (Auth.step supabase ev pg) = Auth.requests pg.
Proof.
  intros Hl. unfold Auth.step, Auth.handle, exec, bind, read.
  destruct ev; cbn; try rewrite Hl; cbn; auto.
Qed.

Lemma locked_run trace : forall pg,
  Auth.loading (Auth.form pg) = true ->
  Auth.loading (Auth.form (Auth.run trace pg)) = true /\
  Auth.requests (Auth.run trace pg) = Auth.requests pg.
Proof.
  induction trace as [|[supabase ev] trace IH]; intros pg Hl; [auto|].
  cbn [Auth.run]. destruct (locked_step supabase ev pg Hl) as [Hl' Hr].
  destruct (IH _ Hl') as [Hl'' Hr']. split; [exact Hl'' | congruence].
Qed.

(** X29. A click whose request rejects locks the form: whatever the user
    does next in the form, the button stays disabled and no further request
    is sent. *)
Theorem rejected_request_locks_the_form supabase pg t trace :
  fst (Auth.handle supabase Auth.ClickSubmit pg) = Throws t ->
  Auth.loading (Auth.form (Auth.run trace (Auth.step supabase Auth.ClickSubmit pg))) = true /\
  Auth.requests (Auth.run trace (Auth.step supabase Auth.ClickSubmit pg)) =
    Auth.requests (Auth.step supabase Auth.ClickSubmit pg).
Proof.
  intros Hthrows. apply locked_run.
  unfold Auth.step, exec. unfold Auth.handle, bind, read in *. cbn in *.
  destruct (Auth.loading (Auth.form pg)) eqn:Hl; [discriminate|].
  destruct (Auth.mode (Auth.form pg)).
  - rewrite signIn_loading, Hthrows. reflexivity.
  - rewrite signUp_loading, Hthrows. reflexivity.
Qed.

Lemma rejected_request_locks_the_form_witness :
  Auth.requests
    (Auth.run [(Fixture.supabase_ok, Auth.ClickSubmit);
               (Fixture.supabase_ok, Auth.SelectMode Auth.signup);
               (Fixture.supabase_ok, Auth.ClickSubmit)]
       (Auth.step Fixture.supabase_down Auth.ClickSubmit (Fixture.filled "123456"))) =
  [Auth.SignInWithPassword "ann@example.org" "123456"].
Proof.
  refine (eq_trans
            (proj2 (rejected_request_locks_the_form Fixture.supabase_down
                      (Fixture.filled "123456") (ErrorObj "Failed to fetch")
                      [(Fixture.supabase_ok, Auth.ClickSubmit);
                       (Fixture.supabase_ok, Auth.SelectMode Auth.signup);
                       (Fixture.supabase_ok, Auth.ClickSubmit)] _)) _).
  - vm_compute. reflexivity.
  - vm_compute. reflexivity.
Defined.

Lemma step_keeps_message_null supabase ev pg :
  Auth.message (Auth.form pg) = None ->
  Auth.message (Auth.form (Auth.step supabase ev pg)) = None.
Proof.
  intros Hm. unfold Auth.step, Auth.handle, exec, bind, read.
  destruct ev; cbn; auto.
  destruct (Auth.loading (Auth.form pg)); cbn; [exact Hm|].
  destruct (Auth.mode (Auth.form pg)); auth_run.
  - destruct (Auth.validatePassword _); cbn; [reflexivity|].
    destruct (Auth.signInWithPassword supabase _ _) as [[message|]|t]; cbn;
      try reflexivity.
    destruct (String.eqb message "Invalid login credentials"); cbn; [reflexivity|].
    destruct (String.eqb message "Email not confirmed"); cbn; [|reflexivity].
    destruct (Auth.signUp supabase _ _) as [[[signUpError|] session]|t]; reflexivity.
  - destruct (Auth.validatePassword _); cbn; [reflexivity|].
    destruct (Auth.signUp supabase _ _) as [[[message|] session]|t]; cbn;
      try reflexivity.
    + destruct (String.eqb message "User already registered"); reflexivity.
    + destruct session; cbn; [reflexivity|].
      destruct (Auth.signInWithPassword supabase _ _) as [[signInError|]|t]; reflexivity.
Qed.

(** X30. The form never shows its green message: from the first render
    on, whatever the user does and the provider answers, [message] is
    [null]. *)
Theorem message_is_never_shown trace :
  Auth.message (Auth.form (Auth.run trace Auth.initial)) = None.
Proof.
  assert (H : forall pg, Auth.message (Auth.form pg) = None ->
                         Auth.message (Auth.form (Auth.run trace pg)) = None).
  { induction trace as [|[supabase ev] trace IH]; intros pg Hm; [exact Hm|].
    cbn [Auth.run]. apply IH, step_keeps_message_null, Hm. }
  apply H. reflexivity.
Qed.

(** One run of a handler sends at most two requests, never two of
    the same kind, and all with the e-mail and the password of the render
    it belongs to. *)
Lemma handler_sends_at_most_one_request_of_each_kind supabase render pg :
  (exists sent, Auth.requests (exec (Auth.handleSignIn supabase render) pg) =
                  (Auth.requests pg ++ sent)%list /\
                one_run_of_requests render sent) /\
  (exists sent, Auth.requests (exec (Auth.handleSignUp supabase render) pg) =
                  (Auth.requests pg ++ sent)%list /\
                one_run_of_requests render sent).
Proof.
  unfold one_run_of_requests, exec. split; auth_run.
  - destruct (Auth.validatePassword _); cbn.
    { exists []. rewrite app_nil_r. auto. }
    destruct (Auth.signInWithPassword supabase _ _) as [[message|]|t]; cbn;
      try (eexists; split; [reflexivity|]; auto; fail).
    destruct (String.eqb message "Invalid login credentials"); cbn;
      try (eexists; split; [reflexivity|]; auto; fail).
    destruct (String.eqb message "Email not confirmed"); cbn;
      try (eexists; split; [reflexivity|]; auto; fail).
    destruct (Auth.signUp supabase _ _) as [[[signUpError|] session]|t]; cbn;
      rewrite <- app_assoc; eexists; (split; [reflexivity|]); cbn; auto.
  - destruct (Auth.validatePassword _); cbn.
    { exists []. rewrite app_nil_r. auto. }
    destruct (Auth.signUp supabase _ _) as [[[message|] session]|t]; cbn;
      try (eexists; split; [reflexivity|]; auto; fail).
    + destruct (String.eqb message "User already registered"); cbn;
        eexists; (split; [reflexivity|]); auto.
    + destruct session; cbn; try (eexists; split; [reflexivity|]; auto; fail).
      destruct (Auth.signInWithPassword supabase _ _) as [[signInError|]|t]; cbn;
        rewrite <- app_assoc; eexists; (split; [reflexivity|]); cbn; auto 6.
Qed.
